(** * Sam17: the SSH video cache, the range-aware stream route and the
      Wowza proxy gateway

    A shallow embedding of
      - [backend/config/VideoSSHManager.js]  (identifier encoding, the
        download coordinator, the disk cache sweep and clear),
      - [backend/routes/videos-ssh.js]        (the [/stream/:videoId] route),
      - the [/content] proxy middleware of the server entry point,
    together with the properties the specification states about them.

    JavaScript strings are sequences of 16-bit code units and are modelled
    as [list Z]; Node buffers are sequences of bytes, also [list Z].  The
    two Node primitives the repository relies on for identifiers,
    [Buffer.from(str)] / [buf.toString()] (UTF-8) and
    [buf.toString('base64')] / [Buffer.from(str, 'base64')], are modelled
    in the module [Buffer]. *)

From Stdlib Require Import ZArith List String Ascii Bool Lia.
From stdpp Require Import gmap list.

Local Open Scope Z_scope.

(* ===================================================================== *)
(** ** JavaScript strings                                                  *)
(* ===================================================================== *)

Module JS.

(** A string literal of the source, as its list of code units. *)
Definition js (s : string) : list Z :=
  List.map (fun a => Z.of_N (N_of_ascii a)) (list_ascii_of_string s).

Definition isHigh (u : Z) : bool := (0xD800 <=? u) && (u <=? 0xDBFF).
Definition isLow (u : Z) : bool := (0xDC00 <=? u) && (u <=? 0xDFFF).

(** [String.prototype.isWellFormed]: every code unit is a 16-bit value and
    every surrogate is half of a pair. *)
Fixpoint isWellFormed (s : list Z) : bool :=
  match s with
  | [] => true
  | u :: rest =>
      (0 <=? u) && (u <? 65536) &&
      (if isHigh u then
         match rest with
         | v :: rest' => isLow v && isWellFormed rest'
         | [] => false
         end
       else negb (isLow u) && isWellFormed rest)
  end.

(** Equality of strings ([===]). *)
Fixpoint str_eqb (a b : list Z) : bool :=
  match a, b with
  | [], [] => true
  | x :: a', y :: b' => (x =? y) && str_eqb a' b'
  | _, _ => false
  end.

(** [s.startsWith(p)] *)
Fixpoint startsWith (s p : list Z) {struct p} : bool :=
  match p, s with
  | [], _ => true
  | x :: p', y :: s' => (x =? y) && startsWith s' p'
  | _ :: _, [] => false
  end.

(** [s.includes(needle)] *)
Fixpoint includes (s needle : list Z) : bool :=
  startsWith s needle ||
  match s with
  | [] => false
  | _ :: s' => includes s' needle
  end.

End JS.

(* ===================================================================== *)
(** ** Node's Buffer: UTF-8 and base64                                     *)
(* ===================================================================== *)

Module Buffer.
Import JS.

(** *** UTF-8 *)

Definition replacement : list Z := [0xEF; 0xBF; 0xBD].

(** The UTF-8 bytes of one code point. *)
Definition utf8_bytes (cp : Z) : list Z :=
  if cp <? 0x80 then [cp]
  else if cp <? 0x800 then [0xC0 + cp / 64; 0x80 + cp mod 64]
  else if cp <? 0x10000 then
    [0xE0 + cp / 4096; 0x80 + (cp / 64) mod 64; 0x80 + cp mod 64]
  else
    [0xF0 + cp / 262144; 0x80 + (cp / 4096) mod 64;
     0x80 + (cp / 64) mod 64; 0x80 + cp mod 64].

(** [Buffer.from(str)] (encoding 'utf8'): surrogate pairs are combined, an
    unpaired surrogate is written as U+FFFD. *)
Fixpoint from_string (s : list Z) : list Z :=
  match s with
  | [] => []
  | u :: rest =>
      if isHigh u then
        match rest with
        | v :: rest' =>
            if isLow v
            then utf8_bytes (0x10000 + (u - 0xD800) * 1024 + (v - 0xDC00))
                   ++ from_string rest'
            else replacement ++ from_string rest
        | [] => replacement
        end
      else if isLow u then replacement ++ from_string rest
      else utf8_bytes u ++ from_string rest
  end.

(** The decoder is the usual state machine: either no sequence is open, or
    [n] continuation bytes are still needed, the next one in [lo..hi]. *)
Inductive dstate : Type :=
  | D0
  | DN (n : nat) (cp lo hi : Z).

Definition utf8_start (b : Z) : list Z * dstate :=
  if b <=? 0x7F then ([b], D0)
  else if (0xC2 <=? b) && (b <=? 0xDF) then ([], DN 1 (b - 0xC0) 0x80 0xBF)
  else if (0xE0 <=? b) && (b <=? 0xEF) then
    ([], DN 2 (b - 0xE0) (if b =? 0xE0 then 0xA0 else 0x80)
                         (if b =? 0xED then 0x9F else 0xBF))
  else if (0xF0 <=? b) && (b <=? 0xF4) then
    ([], DN 3 (b - 0xF0) (if b =? 0xF0 then 0x90 else 0x80)
                         (if b =? 0xF4 then 0x8F else 0xBF))
  else ([0xFFFD], D0).

Definition utf8_step (st : dstate) (b : Z) : list Z * dstate :=
  match st with
  | D0 => utf8_start b
  | DN n cp lo hi =>
      if (lo <=? b) && (b <=? hi) then
        let cp' := cp * 64 + (b - 0x80) in
        match n with
        | S (S n') => ([], DN (S n') cp' 0x80 0xBF)
        | _ => ([cp'], D0)
        end
      else
        (* the open sequence is abandoned and the byte starts afresh *)
        let '(out, st') := utf8_start b in (0xFFFD :: out, st')
  end.

Fixpoint utf8_run (st : dstate) (bs : list Z) : list Z :=
  match bs with
  | [] => match st with D0 => [] | DN _ _ _ _ => [0xFFFD] end
  | b :: rest =>
      let '(out, st') := utf8_step st b in out ++ utf8_run st' rest
  end.

(** The UTF-16 code units of one code point. *)
Definition utf16_units (cp : Z) : list Z :=
  if cp <? 0x10000 then [cp]
  else [0xD800 + (cp - 0x10000) / 1024; 0xDC00 + (cp - 0x10000) mod 1024].

(** [buf.toString()] (encoding 'utf8'). *)
Definition toString (bs : list Z) : list Z :=
  flat_map utf16_units (utf8_run D0 bs).

(** *** base64 *)

Definition b64_alphabet : list Z :=
  js "ABCDEFGHIJKLMNOPQRSTUVWXYZabcdefghijklmnopqrstuvwxyz0123456789+/".

Definition b64_char (i : Z) : Z := nth (Z.to_nat i) b64_alphabet 61.

Definition pad : Z := 61.

(** [buf.toString('base64')] *)
Fixpoint toString_base64 (bs : list Z) : list Z :=
  match bs with
  | [] => []
  | [a] => [b64_char (a / 4); b64_char ((a mod 4) * 16); pad; pad]
  | [a; b] =>
      [b64_char (a / 4); b64_char ((a mod 4) * 16 + b / 16);
       b64_char ((b mod 16) * 4); pad]
  | a :: b :: c :: rest =>
      [b64_char (a / 4); b64_char ((a mod 4) * 16 + b / 16);
       b64_char ((b mod 16) * 4 + c / 64); b64_char (c mod 64)]
        ++ toString_base64 rest
  end.

(** The value of a base64 character; both the standard and the URL-safe
    alphabet are accepted. *)
Definition unbase64 (c : Z) : option Z :=
  if (65 <=? c) && (c <=? 90) then Some (c - 65)
  else if (97 <=? c) && (c <=? 122) then Some (c - 71)
  else if (48 <=? c) && (c <=? 57) then Some (c + 4)
  else if (c =? 43) || (c =? 45) then Some 62
  else if (c =? 47) || (c =? 95) then Some 63
  else None.

(** The decoder is lenient: characters outside the alphabet are skipped
    and the first [=] ends the input. *)
Fixpoint sextets (s : list Z) : list Z :=
  match s with
  | [] => []
  | c :: rest =>
      match unbase64 c with
      | Some v => v :: sextets rest
      | None => if c =? pad then [] else sextets rest
      end
  end.

Fixpoint bytes_of_sextets (l : list Z) : list Z :=
  match l with
  | a :: b :: c :: d :: rest =>
      [a * 4 + b / 16; (b mod 16) * 16 + c / 4; (c mod 4) * 64 + d]
        ++ bytes_of_sextets rest
  | [a; b; c] => [a * 4 + b / 16; (b mod 16) * 16 + c / 4]
  | [a; b] => [a * 4 + b / 16]
  | _ => []
  end.

(** [Buffer.from(str, 'base64')] *)
Definition from_base64 (s : list Z) : list Z := bytes_of_sextets (sextets s).

(** What the statements about the codecs speak of. *)

(** The decoder has read part of a sequence that can only end in a
    scalar value.  With one byte to come the value so far is in
    [2 .. 17407] and not in [864 .. 895] (the surrogates); with more to
    come the bounds on the next byte keep it so. *)
Definition dstate_ok (st : dstate) : Prop :=
  match st with
  | D0 => True
  | DN 1 cp lo hi =>
      0x80 <= lo /\ hi <= 0xBF /\ 2 <= cp <= 17407 /\ ~ (864 <= cp <= 895)
  | DN 2 cp lo hi =>
      0x80 <= lo /\ hi <= 0xBF /\
      2 <= cp * 64 + (lo - 0x80) /\ cp * 64 + (hi - 0x80) <= 17407 /\
      (cp * 64 + (hi - 0x80) < 864 \/ 895 < cp * 64 + (lo - 0x80))
  | DN 3 cp lo hi =>
      0x80 <= lo /\ hi <= 0xBF /\
      16 <= cp * 64 + (lo - 0x80) /\ cp * 64 + (hi - 0x80) <= 271
  | DN _ _ _ _ => False
  end.

Definition is_byte (b : Z) : Prop := 0 <= b < 256.

(** A Unicode scalar value: a code point that is not a surrogate. *)
Definition scalar (cp : Z) : Prop :=
  0 <= cp < 0x110000 /\ ~ (0xD800 <= cp <= 0xDFFF).

End Buffer.

(* ===================================================================== *)
(** ** Video identifiers                                                   *)
(* ===================================================================== *)

Module VideoId.
Import JS.

(** [Buffer.from(fullPath).toString('base64')]
    ([listVideosFromServer], [deleteVideoFromServer],
    [getOptimizedStreamUrl]). *)
Definition encode (fullPath : list Z) : list Z :=
  Buffer.toString_base64 (Buffer.from_string fullPath).

(** [Buffer.from(videoId, 'base64').toString()]
    (the stream, thumbnail and delete routes). *)
Definition decode (videoId : list Z) : list Z :=
  Buffer.toString (Buffer.from_base64 videoId).

End VideoId.


(* ===================================================================== *)
(** ** Node's path module (POSIX)                                          *)
(* ===================================================================== *)

Module Path.
Import JS.

Definition slash : Z := 47.

(** [s.split(sep)] for a separator of one character. *)
Fixpoint split_on (sep : Z) (s : list Z) : list (list Z) :=
  match s with
  | [] => [[]]
  | c :: s' =>
      if c =? sep then [] :: split_on sep s'
      else match split_on sep s' with
           | seg :: segs => (c :: seg) :: segs
           | [] => [[c]]
           end
  end.

Fixpoint join_with (sep : Z) (segs : list (list Z)) : list Z :=
  match segs with
  | [] => []
  | [seg] => seg
  | seg :: rest => seg ++ sep :: join_with sep rest
  end.

Definition is_empty (s : list Z) : bool :=
  match s with [] => true | _ :: _ => false end.

(** One step of [normalizeString] on an absolute path: empty segments and
    [.] are dropped, [..] removes the segment before it (nothing at the
    root).  The stack of kept segments is held in reverse. *)
Definition push_segment (acc : list (list Z)) (seg : list Z) : list (list Z) :=
  if is_empty seg then acc
  else if str_eqb seg (js ".") then acc
  else if str_eqb seg (js "..") then tail acc
  else seg :: acc.

(** [path.normalize] on an absolute path that does not end in a slash. *)
Definition normalize_abs (p : list Z) : list Z :=
  slash :: join_with slash (rev (fold_left push_segment (split_on slash p) [])).

(** [path.join(dir, name)] for an absolute [dir] and a non-empty [name]
    that does not end in a slash (the two ways the manager calls it). *)
Definition join (dir name : list Z) : list Z :=
  normalize_abs (dir ++ slash :: name).

(** [path.basename(p)]: the last non-empty segment. *)
Definition basename (p : list Z) : list Z :=
  List.last (List.filter (fun seg => negb (is_empty seg)) (split_on slash p)) [].

End Path.

(* ===================================================================== *)
(** ** VideoSSHManager: the disk cache and the download coordinator        *)
(* ===================================================================== *)

Module Manager.
Import JS.

Definition tempDir : list Z := js "/tmp/video-cache".
Definition maxCacheSize : Z := 2 * 1024 * 1024 * 1024.
Definition cacheCleanupInterval : Z := 30 * 60 * 1000.

(** [const maxAge = 60 * 60 * 1000] of [cleanupOldFiles]. *)
Definition maxAge : Z := 60 * 60 * 1000.

(** The literal [60 * 60 * 1000] that [downloadVideoToTemp] compares the
    age of a cached file with. *)
Definition freshnessThreshold : Z := 60 * 60 * 1000.

(** *** The cache directory

    The directory [tempDir] is a finite map from file names to files.  A
    path designates an entry when it is [tempDir + "/" + name] for a file
    name (no further slash, not [.] or [..]); anywhere else [fs.stat] and
    opening for writing fail (the directory holds no subdirectory). *)

Record file : Type := { f_mtime : Z; f_size : Z; f_ino : nat }.

Definition is_file_name (name : list Z) : bool :=
  negb (Path.is_empty name) && negb (includes name [Path.slash])
  && negb (str_eqb name (js ".")) && negb (str_eqb name (js "..")).

Definition entry_name (p : list Z) : option (list Z) :=
  let prefix := tempDir ++ [Path.slash] in
  if startsWith p prefix then
    let name := skipn (length prefix) p in
    if is_file_name name then Some name else None
  else None.

(** [fs.stat(p)]; [None] when it throws. *)
Definition stat (d : gmap (list Z) file) (p : list Z) : option file :=
  match entry_name p with
  | Some name => d !! name
  | None => None
  end.

(** [fs.unlink(p)]; [None] when it throws. *)
Definition unlink (d : gmap (list Z) file) (p : list Z)
  : option (gmap (list Z) file) :=
  match entry_name p with
  | Some name =>
      match d !! name with
      | Some _ => Some (delete name d)
      | None => None
      end
  | None => None
  end.

(** [fs.unlink(p).catch(() => {})] *)
Definition unlink_quiet (d : gmap (list Z) file) (p : list Z)
  : gmap (list Z) file :=
  match unlink d p with Some d' => d' | None => d end.

(** [fs.readdir(tempDir)]; the directory, which [initializeTempDir]
    creates, is taken to be there. *)
Definition readdir (d : gmap (list Z) file) : list (list Z) :=
  (map_to_list d).*1.

(** *** The download coordinator

    [downloadVideoToTemp] is an [async] function: a call runs until its
    first [await], and resumes when the awaited operation completes.  The
    state below holds what all pending calls share (the clock, the cache
    directory, [downloadQueue] and the download promises) and where each
    call is suspended. *)

Record downloadResult : Type := {
  success : bool;
  localPath : list Z;
  downloadedBytes : option Z;
  cached : bool
}.

(** How a promise is settled: fulfilled with a result, or rejected with
    the error (its message). *)
Inductive outcome : Type :=
  | Fulfilled (r : downloadResult)
  | Rejected (e : list Z).

(** A download is first waiting for [getConnection] and [conn.sftp]; it
    is closed when the connection fails.  Otherwise both streams are
    created and piped, the write stream on the given inode when the local
    file could be opened.  The pipe is over when a stream emits ['error']
    or the write stream emits ['finish']; the streams and their handlers
    are still there, and the flags say which of the two has emitted its
    ['error'] (a stream emits it once). *)
Inductive phase : Type :=
  | Connecting
  | Streaming (fd : option nat)
  | Unpiped (readFailed writeFailed : bool)
  | Closed.

(** One [downloadPromise] and the transfer its executor runs. *)
Record download : Type := {
  d_server : Z;
  d_remote : list Z;
  d_local : list Z;
  d_phase : phase;
  d_bytes : Z;
  d_settled : option outcome
}.

(** Where a call of [downloadVideoToTemp] stands. *)
Inductive task : Type :=
  | AtStat (serverId : Z) (remotePath videoId localPath : list Z)
      (* suspended in [await fs.stat(localPath)] *)
  | AtAwait (videoId : list Z) (p : nat)
      (* suspended in [await downloadPromise] *)
  | Returned (p : nat)
      (* returned [this.downloadQueue.get(videoId)] *)
  | Settled (o : outcome).
      (* returned a result or threw *)

(** One element of [files] in the answer of [getCacheStatus]; the access
    time [lastAccessed], which the directory does not record, is left
    out. *)
Record fileDetail : Type := {
  fd_name : list Z;
  fd_size : Z;
  fd_age : Z
}.

(** The answer of [getCacheStatus].  [usagePercentage] is the quotient of
    the two numbers given, of which the code holds the nearest double. *)
Record cacheStatus : Type := {
  totalFiles : Z;
  totalSize : Z;
  maxSize : Z;
  usagePercentage : Z * Z;
  files : list fileDetail
}.

(** The other asynchronous work on the cache directory.  [cleanupOldFiles],
    [clearCache] and [getCacheStatus] await each of their operations on
    the directory, and the event loop runs whatever else is ready in
    between: a job is a call of one of them, suspended in the operation
    named, or over.  The [fs.unlink] that an error handler of a download
    issues without awaiting it is a job as well. *)
Inductive job : Type :=
  | Unlinking (path : list Z)
      (* [fs.unlink(path).catch(() => {})] is under way *)
  | SweepReaddir
      (* [cleanupOldFiles] in [await fs.readdir(this.tempDir)] *)
  | SweepStat (now0 : Z) (file : list Z) (rest : list (list Z))
      (* in [await fs.stat(filePath)] for [file]; [rest] is to come *)
  | SweepUnlink (now0 : Z) (file : list Z) (rest : list (list Z))
      (* in [await fs.unlink(filePath)] for [file] *)
  | ClearReaddir
      (* [clearCache] in [await fs.readdir(this.tempDir)] *)
  | ClearUnlink (count : nat) (file : list Z) (rest : list (list Z))
      (* in [await fs.unlink(filePath)]; [count] is [files.length] *)
  | StatusReaddir
      (* [getCacheStatus] in [await fs.readdir(this.tempDir)] *)
  | StatusStat (count : nat) (file : list Z) (rest : list (list Z))
      (total : Z) (fileDetails : list fileDetail)
      (* in [await fs.stat(filePath)] *)
  | Ended
      (* the unlink is done; [cleanupOldFiles] has returned *)
  | Cleared (removedFiles : option Z)
      (* [clearCache] has returned [{ success: true, removedFiles }], or
         has thrown *)
  | Reported (s : cacheStatus).
      (* [getCacheStatus] has returned *)

Record state : Type := {
  now : Z;
  disk : gmap (list Z) file;
  next_ino : nat;
  downloadQueue : gmap (list Z) nat;
  downloads : list download;
  tasks : list task;
  jobs : list job
}.

Definition init : state :=
  {| now := 0; disk := ∅; next_ino := 0; downloadQueue := ∅;
     downloads := []; tasks := []; jobs := [] |}.

Definition set_disk (d : gmap (list Z) file) (st : state) : state :=
  {| now := now st; disk := d; next_ino := next_ino st;
     downloadQueue := downloadQueue st; downloads := downloads st;
     tasks := tasks st; jobs := jobs st |}.

Definition set_download (p : nat) (dl : download) (st : state) : state :=
  {| now := now st; disk := disk st; next_ino := next_ino st;
     downloadQueue := downloadQueue st;
     downloads := <[p := dl]> (downloads st); tasks := tasks st;
     jobs := jobs st |}.

Definition set_task (k : nat) (t : task) (st : state) : state :=
  {| now := now st; disk := disk st; next_ino := next_ino st;
     downloadQueue := downloadQueue st; downloads := downloads st;
     tasks := <[k := t]> (tasks st); jobs := jobs st |}.

Definition set_job (j : nat) (b : job) (st : state) : state :=
  {| now := now st; disk := disk st; next_ino := next_ino st;
     downloadQueue := downloadQueue st; downloads := downloads st;
     tasks := tasks st; jobs := <[j := b]> (jobs st) |}.

Definition add_job (b : job) (st : state) : state :=
  {| now := now st; disk := disk st; next_ino := next_ino st;
     downloadQueue := downloadQueue st; downloads := downloads st;
     tasks := tasks st; jobs := jobs st ++ [b] |}.

Definition with_phase (ph : phase) (dl : download) : download :=
  {| d_server := d_server dl; d_remote := d_remote dl; d_local := d_local dl;
     d_phase := ph; d_bytes := d_bytes dl; d_settled := d_settled dl |}.

Definition with_bytes (n : Z) (dl : download) : download :=
  {| d_server := d_server dl; d_remote := d_remote dl; d_local := d_local dl;
     d_phase := d_phase dl; d_bytes := n; d_settled := d_settled dl |}.

Definition with_settled (o : outcome) (dl : download) : download :=
  {| d_server := d_server dl; d_remote := d_remote dl; d_local := d_local dl;
     d_phase := d_phase dl; d_bytes := d_bytes dl; d_settled := Some o |}.

(** What the caller of a task has observed so far. *)
Definition observed (st : state) (t : task) : option outcome :=
  match t with
  | Settled o => Some o
  | Returned p =>
      match downloads st !! p with
      | Some dl => d_settled dl
      | None => None
      end
  | AtStat _ _ _ _ | AtAwait _ _ => None
  end.

(** Lines 117-128: the call up to [await fs.stat(localPath)]. *)
Definition call (serverId : Z) (remotePath videoId : list Z) (st : state)
  : state :=
  let t :=
    match downloadQueue st !! videoId with
    | Some p => Returned p
    | None =>
        let fileName := Path.basename remotePath in
        let localPath := Path.join tempDir (videoId ++ js "_" ++ fileName) in
        AtStat serverId remotePath videoId localPath
    end in
  {| now := now st; disk := disk st; next_ino := next_ino st;
     downloadQueue := downloadQueue st; downloads := downloads st;
     tasks := tasks st ++ [t]; jobs := jobs st |}.

(** Lines 144-199: the promise is created (its executor starts the
    connection), put in [downloadQueue], and awaited. *)
Definition start_download (k : nat) (serverId : Z)
    (remotePath videoId localPath : list Z) (st : state) : state :=
  let p := length (downloads st) in
  {| now := now st; disk := disk st; next_ino := next_ino st;
     downloadQueue := <[videoId := p]> (downloadQueue st);
     downloads := downloads st ++
       [{| d_server := serverId; d_remote := remotePath;
           d_local := localPath; d_phase := Connecting; d_bytes := 0;
           d_settled := None |}];
     tasks := <[k := AtAwait videoId p]> (tasks st); jobs := jobs st |}.

(** Lines 128-199: task [k] resumes from [await fs.stat(localPath)]. *)
Definition stat_done (k : nat) (st : state) : state :=
  match tasks st !! k with
  | Some (AtStat serverId remotePath videoId localPath) =>
      match stat (disk st) localPath with
      | Some stats =>
          let age := now st - f_mtime stats in
          if age <? freshnessThreshold then
            set_task k
              (Settled (Fulfilled {| success := true; localPath := localPath;
                                     downloadedBytes := None;
                                     cached := true |})) st
          else start_download k serverId remotePath videoId localPath st
      | None => start_download k serverId remotePath videoId localPath st
      end
  | _ => st
  end.

(** Lines 199-210: the continuations of [await downloadPromise] once
    promise [p] is settled with [o]; each deletes its identifier from
    [downloadQueue] and returns the result or rethrows the error. *)
Fixpoint resume (p : nat) (o : outcome) (ts : list task)
    (q : gmap (list Z) nat) : list task * gmap (list Z) nat :=
  match ts with
  | [] => ([], q)
  | t :: rest =>
      match t with
      | AtAwait videoId p' =>
          if Nat.eqb p' p then
            let '(rest', q') := resume p o rest (delete videoId q) in
            (Settled o :: rest', q')
          else
            let '(rest', q') := resume p o rest q in (t :: rest', q')
      | _ => let '(rest', q') := resume p o rest q in (t :: rest', q')
      end
  end.

(** [resolve(r)] or [reject(e)] on promise [p], and the continuations it
    wakes; a promise that is already settled stays as it is. *)
Definition settle (p : nat) (o : outcome) (st : state) : state :=
  match downloads st !! p with
  | Some dl =>
      match d_settled dl with
      | Some _ => st
      | None =>
          let '(ts, q) := resume p o (tasks st) (downloadQueue st) in
          {| now := now st; disk := disk st; next_ino := next_ino st;
             downloadQueue := q;
             downloads := <[p := with_settled o dl]> (downloads st);
             tasks := ts; jobs := jobs st |}
      end
  | None => st
  end.

(** [fs.createWriteStream(localPath)]: the file is created, or truncated
    when it exists; [None] when it cannot be opened. *)
Definition open_write (localPath : list Z) (st : state) : state * option nat :=
  match entry_name localPath with
  | Some name =>
      match disk st !! name with
      | Some f =>
          (set_disk (<[name := {| f_mtime := now st; f_size := 0;
                                  f_ino := f_ino f |}]> (disk st)) st,
           Some (f_ino f))
      | None =>
          ({| now := now st;
              disk := <[name := {| f_mtime := now st; f_size := 0;
                                   f_ino := next_ino st |}]> (disk st);
              next_ino := S (next_ino st);
              downloadQueue := downloadQueue st; downloads := downloads st;
              tasks := tasks st; jobs := jobs st |},
           Some (next_ino st))
      end
  | None => (st, None)
  end.

(** A chunk of [n] bytes reaches the file the write stream holds open. *)
Definition write_chunk (fd : option nat) (localPath : list Z) (n : Z)
    (st : state) : state :=
  match fd, entry_name localPath with
  | Some i, Some name =>
      match disk st !! name with
      | Some f =>
          if Nat.eqb (f_ino f) i then
            set_disk (<[name := {| f_mtime := now st; f_size := f_size f + n;
                                   f_ino := i |}]> (disk st)) st
          else st
      | None => st
      end
  | _, _ => st
  end.

(** [getConnection] rejects, or [conn.sftp] calls back with an error:
    [reject(err)]. *)
Definition conn_fail (p : nat) (e : list Z) (st : state) : state :=
  match downloads st !! p with
  | Some dl =>
      match d_phase dl with
      | Connecting => settle p (Rejected e) (set_download p (with_phase Closed dl) st)
      | _ => st
      end
  | None => st
  end.

(** The [conn.sftp] callback without error: both streams are created and
    piped.  The write stream is taken to open its file as it is
    created. *)
Definition sftp_ready (p : nat) (st : state) : state :=
  match downloads st !! p with
  | Some dl =>
      match d_phase dl with
      | Connecting =>
          let '(st1, fd) := open_write (d_local dl) st in
          set_download p (with_phase (Streaming fd) dl) st1
      | _ => st
      end
  | None => st
  end.

(** [readStream.on('data')] and the piped write.  Once the pipe is over
    a chunk of the read stream is still counted, and written nowhere. *)
Definition data (p : nat) (n : Z) (st : state) : state :=
  match downloads st !! p with
  | Some dl =>
      match d_phase dl with
      | Streaming fd =>
          write_chunk fd (d_local dl) n
            (set_download p (with_bytes (d_bytes dl + n) dl) st)
      | Unpiped false _ => set_download p (with_bytes (d_bytes dl + n) dl) st
      | _ => st
      end
  | None => st
  end.

(** The body of both error handlers, lines 166-177:
    [fs.unlink(localPath).catch(() => {})] is issued and not awaited,
    then [reject(error)], which does nothing on a promise that is settled
    already. *)
Definition on_error (p : nat) (dl : download) (ph : phase) (e : list Z)
    (st : state) : state :=
  settle p (Rejected e)
    (set_download p (with_phase ph dl) (add_job (Unlinking (d_local dl)) st)).

(** [readStream.on('error')] *)
Definition read_error (p : nat) (e : list Z) (st : state) : state :=
  match downloads st !! p with
  | Some dl =>
      match d_phase dl with
      | Streaming _ => on_error p dl (Unpiped true false) e st
      | Unpiped false w => on_error p dl (Unpiped true w) e st
      | _ => st
      end
  | None => st
  end.

(** [writeStream.on('error')] *)
Definition write_error (p : nat) (e : list Z) (st : state) : state :=
  match downloads st !! p with
  | Some dl =>
      match d_phase dl with
      | Streaming _ => on_error p dl (Unpiped false true) e st
      | Unpiped r false => on_error p dl (Unpiped r true) e st
      | _ => st
      end
  | None => st
  end.

(** [writeStream.on('finish')]: [resolve({...})]. *)
Definition finish (p : nat) (st : state) : state :=
  match downloads st !! p with
  | Some dl =>
      match d_phase dl with
      | Streaming (Some _) =>
          settle p
            (Fulfilled {| success := true; localPath := d_local dl;
                          downloadedBytes := Some (d_bytes dl);
                          cached := false |})
            (set_download p (with_phase (Unpiped false false) dl) st)
      | _ => st
      end
  | None => st
  end.

Definition tick (ms : Z) (st : state) : state :=
  {| now := now st + Z.max 0 ms; disk := disk st; next_ino := next_ino st;
     downloadQueue := downloadQueue st; downloads := downloads st;
     tasks := tasks st; jobs := jobs st |}.

(** The loop of [cleanupOldFiles], lines 38-46, at the head of an
    iteration. *)
Definition sweep_next (now0 : Z) (files : list (list Z)) : job :=
  match files with
  | [] => Ended
  | file :: rest => SweepStat now0 file rest
  end.

(** The loop of [clearCache], lines 375-378, and its [return]. *)
Definition clear_next (count : nat) (files : list (list Z)) : job :=
  match files with
  | [] => Cleared (Some (Z.of_nat count))
  | file :: rest => ClearUnlink count file rest
  end.

(** The loop of [getCacheStatus], lines 338-350, and its [return]. *)
Definition status_next (count : nat) (files : list (list Z)) (total : Z)
    (fileDetails : list fileDetail) : job :=
  match files with
  | [] =>
      Reported {| totalFiles := Z.of_nat count; totalSize := total;
                  maxSize := maxCacheSize;
                  usagePercentage := (total * 100, maxCacheSize);
                  files := fileDetails |}
  | file :: rest => StatusStat count file rest total fileDetails
  end.

(** The answer of the [catch] of [getCacheStatus]. *)
Definition status_fallback : cacheStatus :=
  {| totalFiles := 0; totalSize := 0; maxSize := maxCacheSize;
     usagePercentage := (0, maxCacheSize); files := [] |}.

(** [cleanupOldFiles], lines 32-50, as job [j]: the operation it awaits
    (the job [b]) completes on the directory as it is then, and the
    function runs on to its next [await] or to its end.  [Date.now()] is
    read when [readdir] has completed; an exception of [fs.stat] or
    [fs.unlink] is caught outside the loop and ends the pass. *)
Definition cleanupOldFiles (j : nat) (b : job) (st : state) : state :=
  match b with
  | SweepReaddir => set_job j (sweep_next (now st) (readdir (disk st))) st
  | SweepStat now0 file rest =>
      match stat (disk st) (Path.join tempDir file) with
      | Some stats =>
          if now0 - f_mtime stats >? maxAge
          then set_job j (SweepUnlink now0 file rest) st
          else set_job j (sweep_next now0 rest) st
      | None => set_job j Ended st
      end
  | SweepUnlink now0 file rest =>
      match unlink (disk st) (Path.join tempDir file) with
      | Some d' => set_job j (sweep_next now0 rest) (set_disk d' st)
      | None => set_job j Ended st
      end
  | _ => st
  end.

(** [clearCache], lines 371-386, in the same way; an exception of
    [fs.unlink] is rethrown. *)
Definition clearCache (j : nat) (b : job) (st : state) : state :=
  match b with
  | ClearReaddir =>
      let files := readdir (disk st) in
      set_job j (clear_next (length files) files) st
  | ClearUnlink count file rest =>
      match unlink (disk st) (Path.join tempDir file) with
      | Some d' => set_job j (clear_next count rest) (set_disk d' st)
      | None => set_job j (Cleared None) st
      end
  | _ => st
  end.

(** [getCacheStatus], lines 333-369, in the same way; the age of a file
    is taken when its [fs.stat] has completed, and an exception of
    [fs.stat] makes the function return its fallback. *)
Definition getCacheStatus (j : nat) (b : job) (st : state) : state :=
  match b with
  | StatusReaddir =>
      let files := readdir (disk st) in
      set_job j (status_next (length files) files 0 []) st
  | StatusStat count file rest total fileDetails =>
      match stat (disk st) (Path.join tempDir file) with
      | Some stats =>
          set_job j
            (status_next count rest (total + f_size stats)
               (fileDetails ++
                  [{| fd_name := file; fd_size := f_size stats;
                      fd_age := now st - f_mtime stats |}])) st
      | None => set_job j (Reported status_fallback) st
      end
  | _ => st
  end.

(** The operation that job [j] awaits completes. *)
Definition fs_done (j : nat) (st : state) : state :=
  match jobs st !! j with
  | Some (Unlinking path) =>
      set_job j Ended (set_disk (unlink_quiet (disk st) path) st)
  | Some ((SweepReaddir | SweepStat _ _ _ | SweepUnlink _ _ _) as b) =>
      cleanupOldFiles j b st
  | Some ((ClearReaddir | ClearUnlink _ _ _) as b) => clearCache j b st
  | Some ((StatusReaddir | StatusStat _ _ _ _ _) as b) =>
      getCacheStatus j b st
  | Some Ended | Some (Cleared _) | Some (Reported _) | None => st
  end.

(** What the event loop can run next: a call of [downloadVideoToTemp], of
    [cleanupOldFiles] (the timer), of [clearCache] or of [getCacheStatus]
    up to its first [await]; the completion of an awaited operation; an
    event of a connection or of a stream; the passing of time. *)
Inductive event : Type :=
  | Call (serverId : Z) (remotePath videoId : list Z)
  | StatDone (k : nat)
  | Tick (ms : Z)
  | ConnFail (p : nat) (e : list Z)
  | SftpReady (p : nat)
  | Data (p : nat) (n : Z)
  | ReadError (p : nat) (e : list Z)
  | WriteError (p : nat) (e : list Z)
  | Finish (p : nat)
  | Sweep
  | Clear
  | Status
  | Fs (j : nat).

Definition step (st : state) (ev : event) : state :=
  match ev with
  | Call serverId remotePath videoId => call serverId remotePath videoId st
  | StatDone k => stat_done k st
  | Tick ms => tick ms st
  | ConnFail p e => conn_fail p e st
  | SftpReady p => sftp_ready p st
  | Data p n => data p n st
  | ReadError p e => read_error p e st
  | WriteError p e => write_error p e st
  | Finish p => finish p st
  | Sweep => add_job SweepReaddir st
  | Clear => add_job ClearReaddir st
  | Status => add_job StatusReaddir st
  | Fs j => fs_done j st
  end.

Definition run (st : state) (evs : list event) : state :=
  fold_left step evs st.

(** The states the event loop can reach. *)
Definition reachable (st : state) : Prop := exists evs, st = run init evs.

(** Every entry of the cache directory has a file name. *)
Definition names_ok (d : gmap (list Z) file) : Prop :=
  forall name, is_Some (d !! name) -> is_file_name name = true.


(** A download is in flight while its promise is pending. *)
Definition in_flight (dl : download) : bool :=
  match d_settled dl with None => true | Some _ => false end.

(** The file at [p] is the write target of an in-flight download. *)
Definition active_target (st : state) (name : list Z) : bool :=
  existsb
    (fun dl =>
       in_flight dl &&
       match d_phase dl, entry_name (d_local dl), disk st !! name with
       | Streaming (Some i), Some n, Some f =>
           str_eqb n name && Nat.eqb (f_ino f) i
       | _, _, _ => false
       end)
    (downloads st).

(** The number of remote transfers started for a remote path. *)
Definition transfers_of (st : state) (remotePath : list Z) : nat :=
  length (List.filter (fun dl => str_eqb (d_remote dl) remotePath)
            (downloads st)).

(** [getVideoStream]: the result of the download, or the error it throws
    once the fallback [createSSHVideoStream] has thrown as well. *)
Inductive streamType : Type := Local | Other.

Record streamResult : Type := {
  sr_success : bool;
  sr_type : streamType;
  sr_path : list Z;
  sr_cached : bool
}.

Definition getVideoStream (o : outcome) : streamResult + unit :=
  match o with
  | Fulfilled r =>
      if success r then
        inl {| sr_success := true; sr_type := Local;
               sr_path := localPath r; sr_cached := cached r |}
      else inr tt
  | Rejected _ => inr tt
  end.

End Manager.


(* ===================================================================== *)
(** ** The route GET /stream/:videoId                                      *)
(* ===================================================================== *)

Module Route.
Import JS.

(** *** Numbers

    The numbers of the route come from [parseInt] and from [stats.size].
    An integer of magnitude up to [2^53 - 1] is a number exactly; a longer
    numeral parses to some number of magnitude at least [2^53], of which
    only that is kept. *)
Inductive num : Type :=
  | NaN
  | Int (z : Z)
  | Huge.

Definition maxSafe : Z := 2 ^ 53 - 1.

Definition isWhiteSpace (c : Z) : bool :=
  ((9 <=? c) && (c <=? 13)) || (c =? 32) || (c =? 0xA0) || (c =? 0x1680)
  || ((0x2000 <=? c) && (c <=? 0x200A)) || (c =? 0x2028) || (c =? 0x2029)
  || (c =? 0x202F) || (c =? 0x205F) || (c =? 0x3000) || (c =? 0xFEFF).

Definition isDigit (c : Z) : bool := (48 <=? c) && (c <=? 57).

Fixpoint skip_ws (s : list Z) : list Z :=
  match s with
  | c :: s' => if isWhiteSpace c then skip_ws s' else s
  | [] => []
  end.

(** The value of the longest prefix of decimal digits. *)
Fixpoint digits_value (acc : Z) (s : list Z) : Z :=
  match s with
  | c :: s' => if isDigit c then digits_value (acc * 10 + (c - 48)) s' else acc
  | [] => acc
  end.

(** [parseInt(s, 10)] *)
Definition parseInt (s : list Z) : num :=
  let s1 := skip_ws s in
  let neg := match s1 with c :: _ => c =? 45 | [] => false end in
  let s2 :=
    match s1 with
    | c :: r => if (c =? 45) || (c =? 43) then r else s1
    | [] => []
    end in
  match s2 with
  | c :: _ =>
      if isDigit c then
        let v := digits_value 0 s2 in
        if v <=? maxSafe then Int (if neg then - v else v) else Huge
      else NaN
  | [] => NaN
  end.

Definition num_sub (a b : num) : num :=
  match a, b with
  | NaN, _ | _, NaN => NaN
  | Int x, Int y => Int (x - y)
  | _, _ => Huge
  end.

Definition num_succ (a : num) : num :=
  match a with
  | Int x => Int (x + 1)
  | other => other
  end.

(** [s.replace(/bytes=/, '')]: the first occurrence of [bytes=] is
    removed. *)
Fixpoint remove_first (pat s : list Z) : list Z :=
  if startsWith s pat then skipn (length pat) s
  else match s with
       | [] => []
       | c :: s' => c :: remove_first pat s'
       end.

(** *** The response *)

Inductive header : Type :=
  | ContentType (v : list Z)
  | ContentLength (n : num)
  | AcceptRanges (v : list Z)
  | CacheControl (v : list Z)
  | ContentDisposition (v : list Z)
  | ContentRange (first last : num) (size : Z).
      (* [`bytes ${start}-${end}/${stats.size}`] *)

Definition same_name (a b : header) : bool :=
  match a, b with
  | ContentType _, ContentType _
  | ContentLength _, ContentLength _
  | AcceptRanges _, AcceptRanges _
  | CacheControl _, CacheControl _
  | ContentDisposition _, ContentDisposition _
  | ContentRange _ _ _, ContentRange _ _ _ => true
  | _, _ => false
  end.

(** [res.setHeader(name, value)] replaces the header of that name. *)
Definition setHeader (h : header) (hs : list header) : list header :=
  List.filter (fun h' => negb (same_name h h')) hs ++ [h].

(** Node refuses a header value with a character outside tab, 0x20-0x7E
    and 0x80-0xFF: [setHeader] throws. *)
Definition valid_header_char (c : Z) : bool :=
  (c =? 9) || ((0x20 <=? c) && (c <=? 0x7E)) || ((0x80 <=? c) && (c <=? 0xFF)).

Definition valid_header_value (v : list Z) : bool := forallb valid_header_char v.

Inductive errorBody : Type :=
  | AccessDenied         (* 'Acesso negado ao vídeo' *)
  | StreamError          (* 'Erro ao obter stream do vídeo' *)
  | LocalFileError       (* 'Erro ao acessar arquivo local' *)
  | UnsupportedStream    (* 'Tipo de stream não suportado' *)
  | InternalError.       (* 'Erro interno do servidor' *)

Inductive body : Type :=
  | Json (e : errorBody)
  | Pipe (localPath : list Z) (range : option (Z * Z)).
      (* [createReadStream(localPath, { start, end }).pipe(res)] *)

(** The headers are those the route sets on a streamed response; the ones
    [res.json] adds to an error are left out. *)
Record response : Type := {
  status : Z;
  headers : list header;
  content : body
}.

(** What the route does outside the process. *)
Inductive effect : Type :=
  | DbQuery (userId : Z)
  | GetVideoStream (serverId : Z) (remotePath videoId : list Z)
  | FsStat (localPath : list Z)
  | OpenRead (localPath : list Z) (range : option (num * num)).

(** The only remote I/O of the route is the SSH download behind
    [getVideoStream]. *)
Definition is_remote (e : effect) : bool :=
  match e with
  | GetVideoStream _ _ _ => true
  | _ => false
  end.

(** The answers of the collaborators of the route: the rows with which
    the server query resolves, the result of [getVideoStream] ([inr]
    when it throws) and the size [fs.stat] gives ([None] when it
    throws). *)
Record env : Type := {
  serverRows : Z -> list Z;
  vsm_getVideoStream : Z -> list Z -> list Z -> Manager.streamResult + unit;
  fs_stat : list Z -> option Z
}.

Definition valid_position (n : num) : option Z :=
  match n with
  | Int z => if (0 <=? z) && (z <=? maxSafe) then Some z else None
  | _ => None
  end.

(** [fs.createReadStream(path, { start, end })]: both options must be
    integers from 0 to [2^53 - 1] with [start <= end]; otherwise it throws
    (ERR_OUT_OF_RANGE). *)
Definition createReadStream (first last : num) : option (Z * Z) :=
  match valid_position first, valid_position last with
  | Some s, Some e => if s <=? e then Some (s, e) else None
  | _, _ => None
  end.

Definition error_response (code : Z) (e : errorBody) : response :=
  {| status := code; headers := []; content := Json e |}.

Definition quote : Z := 34.

(** Lines 373-411: the cached file is served; every exception inside the
    [try] block becomes the 500 answer of its [catch]. *)
Definition serve_local (E : env) (remotePath localPath : list Z)
    (range : option (list Z)) : response * list effect :=
  match fs_stat E localPath with
  | None => (error_response 500 LocalFileError, [FsStat localPath])
  | Some size =>
      let fileName := Path.basename remotePath in
      let disposition := js "inline; filename=" ++ quote :: fileName ++ [quote] in
      if negb (valid_header_value disposition) then
        (error_response 500 LocalFileError, [FsStat localPath])
      else
        let hs :=
          setHeader (ContentDisposition disposition)
            (setHeader (CacheControl (js "public, max-age=3600"))
               (setHeader (AcceptRanges (js "bytes"))
                  (setHeader (ContentLength (Int size))
                     (setHeader (ContentType (js "video/mp4")) [])))) in
        let full :=
          ({| status := 200; headers := hs; content := Pipe localPath None |},
           [FsStat localPath; OpenRead localPath None]) in
        match range with
        | None => full
        | Some r =>
            if Path.is_empty r then full
            else
              let parts := Path.split_on 45 (remove_first (js "bytes=") r) in
              let start := parseInt (nth 0 parts []) in
              let end_ :=
                match nth_error parts 1 with
                | Some p1 =>
                    if Path.is_empty p1 then Int (size - 1) else parseInt p1
                | None => Int (size - 1)
                end in
              let chunksize := num_succ (num_sub end_ start) in
              let hs' :=
                setHeader (ContentLength chunksize)
                  (setHeader (ContentRange start end_ size) hs) in
              let effs :=
                [FsStat localPath; OpenRead localPath (Some (start, end_))] in
              match createReadStream start end_ with
              | Some se =>
                  ({| status := 206; headers := hs';
                      content := Pipe localPath (Some se) |}, effs)
              | None => (error_response 500 LocalFileError, effs)
              end
        end
  end.

(** The handler of [GET /stream/:videoId], for the caller [userLogin]
    ([req.user.email.split('@')[0]]) and the [Range] header of the
    request, when the server query of line 350 resolves (with the rows
    [serverRows]). *)
Definition stream (E : env) (userId : Z) (userLogin videoId : list Z)
    (range : option (list Z)) : response * list effect :=
  let remotePath := VideoId.decode videoId in
  if negb (includes remotePath (js "/" ++ userLogin ++ js "/")) then
    (error_response 403 AccessDenied, [])
  else
    let serverId :=
      match serverRows E userId with r :: _ => r | [] => 1 end in
    let pre := [DbQuery userId; GetVideoStream serverId remotePath videoId] in
    match vsm_getVideoStream E serverId remotePath videoId with
    | inr _ => (error_response 500 InternalError, pre)
    | inl sr =>
        if negb (Manager.sr_success sr) then
          (error_response 500 StreamError, pre)
        else
          match Manager.sr_type sr with
          | Manager.Local =>
              let '(r, effs) :=
                serve_local E remotePath (Manager.sr_path sr) range in
              (r, pre ++ effs)
          | Manager.Other => (error_response 500 UnsupportedStream, pre)
          end
    end.

(** *** The owner of a path, in the words of the specification

    [listVideosFromServer] lays the files of a user out under
    [/usr/local/WowzaStreamingEngine/content/<userLogin>]; the owner
    segment of a remote path is the directory name that follows the
    content root. *)
Definition contentRoot : list Z := js "/usr/local/WowzaStreamingEngine/content/".

Fixpoint up_to_slash (s : list Z) : list Z :=
  match s with
  | c :: s' => if c =? Path.slash then [] else c :: up_to_slash s'
  | [] => []
  end.

Definition owner_segment (remotePath : list Z) : option (list Z) :=
  if startsWith remotePath contentRoot
  then Some (up_to_slash (skipn (length contentRoot) remotePath))
  else None.

(** A Range header of the form [bytes=<digits>-<digits>]. *)
Definition all_digits (s : list Z) : bool :=
  negb (Path.is_empty s) && forallb isDigit s.


(** The request is served from the cache: the caller passes the ownership
    test, the download yields [localPath], [fs.stat] gives [size], and the
    file name can stand in a header. *)
Definition served (E : env) (userId : Z) (userLogin videoId localPath : list Z)
    (size : Z) : Prop :=
  let remotePath := VideoId.decode videoId in
  let serverId := match serverRows E userId with r :: _ => r | [] => 1 end in
  includes remotePath (js "/" ++ userLogin ++ js "/") = true /\
  (exists c, vsm_getVideoStream E serverId remotePath videoId =
             inl {| Manager.sr_success := true; Manager.sr_type := Manager.Local;
                    Manager.sr_path := localPath; Manager.sr_cached := c |}) /\
  fs_stat E localPath = Some size /\
  valid_header_value
    (js "inline; filename=" ++ quote :: Path.basename remotePath ++ [quote]) = true.

(** The headers every streamed answer starts from. *)
Definition base_headers (remotePath : list Z) (size : Z) : list header :=
  setHeader
    (ContentDisposition
       (js "inline; filename=" ++ quote :: Path.basename remotePath ++ [quote]))
    (setHeader (CacheControl (js "public, max-age=3600"))
       (setHeader (AcceptRanges (js "bytes"))
          (setHeader (ContentLength (Int size))
             (setHeader (ContentType (js "video/mp4")) [])))).

End Route.


(* ===================================================================== *)
(** ** The /content proxy middleware                                       *)
(* ===================================================================== *)

Module Proxy.
Import JS.

Definition lower (c : Z) : Z := if (65 <=? c) && (c <=? 90) then c + 32 else c.

(** [s.endsWith(suffix)] *)
Definition endsWith (s suffix : list Z) : bool := startsWith (rev s) (rev suffix).

(** A test of the form [/\.(e1|e2|...)$/i.test(s)]. *)
Definition has_extension (exts : list (list Z)) (s : list Z) : bool :=
  existsb (fun e => endsWith (List.map lower s) (js "." ++ e)) exts.

Definition isVideoFile (requestPath : list Z) : bool :=
  has_extension [js "mp4"; js "avi"; js "mov"; js "wmv"; js "flv"; js "webm";
                 js "mkv"] requestPath.

Definition isStreamFile (requestPath : list Z) : bool :=
  has_extension [js "m3u8"; js "ts"] requestPath.

Definition wowzaUser : list Z := js "admin".
Definition wowzaPassword : list Z := js "FK38Ca2SuE6jvJXed97VMn".

Definition wowzaHost (isProduction : bool) : list Z :=
  if isProduction then js "samhost.wcore.com.br" else js "51.222.156.223".

(** One call of [fetch(url, { method, headers, timeout })]. *)
Record fetchCall : Type := {
  url : list Z;
  method : list Z;
  requestHeaders : list (list Z * list Z);
  timeout : Z
}.

(** What [fetch] gives back: a response with its status and headers, or
    an exception. *)
Inductive reply : Type :=
  | Response (status : Z) (responseHeaders : list (list Z * list Z))
  | Failure.

Definition ok (status : Z) : bool := (200 <=? status) && (status <=? 299).

Inductive jsonBody : Type :=
  | UnsupportedFile
  | VideoNotFound (requestPath wowzaUrl : list Z) (upstreamStatus : Z)
  | StreamingServerError.

Inductive answer : Type :=
  | Next
  | SendJson (status : Z) (b : jsonBody)
  | PipeUpstream (n : nat) (copied : list (list Z * list Z)).
      (* the headers of the [n]-th reply are copied, its body is piped *)

Record request : Type := {
  path : list Z;
  reqMethod : list Z;
  range : option (list Z)
}.

(** The URL the first request goes to. *)
Definition wowzaUrl (isProduction : bool) (requestPath : list Z) : list Z :=
  if isStreamFile requestPath then
    js "http://" ++ wowzaHost isProduction ++ js ":1935" ++ requestPath
  else
    js "http://" ++ wowzaUser ++ js ":" ++ wowzaPassword ++ js "@"
      ++ wowzaHost isProduction ++ js ":6980" ++ requestPath.

Definition alternativeUrl (isProduction : bool) (requestPath : list Z) : list Z :=
  js "http://" ++ wowzaHost isProduction ++ js ":6980" ++ requestPath.

Definition headersFor (requestPath : list Z) (rangeHeader : option (list Z))
  : list (list Z * list Z) :=
  let base :=
    [(js "Range", match rangeHeader with Some r => r | None => [] end);
     (js "User-Agent", js "Streaming-System/1.0");
     (js "Accept", js "*/*");
     (js "Cache-Control",
        if isStreamFile requestPath then js "no-cache"
        else js "public, max-age=3600");
     (js "Connection", js "keep-alive")] in
  if isStreamFile requestPath then base
  else
    let authString :=
      Buffer.toString_base64
        (Buffer.from_string (wowzaUser ++ js ":" ++ wowzaPassword)) in
    base ++ [(js "Authorization", js "Basic " ++ authString)].

(** The middleware mounted on [/content].  [net n c] is what the [n]-th
    call of [fetch], made with [c], gives back.  The result is the answer
    to the client and the calls of [fetch] in order. *)
Definition middleware (isProduction : bool) (net : nat -> fetchCall -> reply)
    (req : request) : answer * list fetchCall :=
  let requestPath :=
    if startsWith (path req) (js "/") then path req else js "/" ++ path req in
  if includes requestPath (js "/api/videos-ssh/") then (Next, [])
  else if negb (isVideoFile requestPath) && negb (isStreamFile requestPath)
  then (SendJson 404 UnsupportedFile, [])
  else
    let hs := headersFor requestPath (range req) in
    let first :=
      {| url := wowzaUrl isProduction requestPath; method := reqMethod req;
         requestHeaders := hs;
         timeout := if isStreamFile requestPath then 5000 else 30000 |} in
    match net 0%nat first with
    | Failure => (SendJson 500 StreamingServerError, [first])
    | Response status1 headers1 =>
        if ok status1 then (PipeUpstream 0 headers1, [first])
        else
          let notFound :=
            SendJson 404
              (VideoNotFound requestPath
                 (wowzaHost isProduction ++ js ":6980/content" ++ requestPath)
                 status1) in
          if (status1 =? 401) || (status1 =? 403) then
            let second :=
              {| url := alternativeUrl isProduction requestPath;
                 method := reqMethod req; requestHeaders := hs;
                 timeout := 30000 |} in
            match net 1%nat second with
            | Failure => (SendJson 500 StreamingServerError, [first; second])
            | Response status2 headers2 =>
                if ok status2 then (PipeUpstream 1 headers2, [first; second])
                else (notFound, [first; second])
            end
          else (notFound, [first])
    end.

(** The credentials a URL carries: what stands before the last [@] of
    its authority, if anything. *)
Fixpoint authority (s : list Z) : list Z :=
  match s with
  | c :: s' =>
      if (c =? 47) || (c =? 63) || (c =? 35) then [] else c :: authority s'
  | [] => []
  end.

Fixpoint before_last_at (s : list Z) : option (list Z) :=
  match s with
  | [] => None
  | c :: s' =>
      match before_last_at s' with
      | Some u => Some (c :: u)
      | None => if c =? 64 then Some [] else None
      end
  end.

Definition userinfo (u : list Z) : option (list Z) :=
  if startsWith u (js "http://") then before_last_at (authority (skipn 7 u))
  else None.

End Proxy.

(* ===================================================================== *)
(** ** A request used to instantiate the statements                        *)
(* ===================================================================== *)

Module Sample.
Import JS.

Definition remotePath : list Z :=
  js "/usr/local/WowzaStreamingEngine/content/alice/clips/a.mp4".

Definition videoId : list Z := VideoId.encode remotePath.

Definition localPath : list Z :=
  Path.join Manager.tempDir (videoId ++ js "_" ++ Path.basename remotePath).

(** The collaborators of the route when the file is in the cache with the
    given size. *)
Definition env (size : Z) : Route.env :=
  {| Route.serverRows := fun _ => [1];
     Route.vsm_getVideoStream := fun _ _ _ =>
       inl {| Manager.sr_success := true; Manager.sr_type := Manager.Local;
              Manager.sr_path := localPath; Manager.sr_cached := true |};
     Route.fs_stat := fun _ => Some size |}.

(** The cache entry of that path. *)
Definition name : list Z := videoId ++ js "_a.mp4".

(** A first request whose transfer has written 100 bytes. *)
Definition downloading : Manager.state :=
  Manager.run Manager.init
    [Manager.Call 1 remotePath videoId; Manager.StatDone 0;
     Manager.SftpReady 0; Manager.Data 0 100].

(** The same once the transfer has finished. *)
Definition downloaded : Manager.state :=
  Manager.run downloading [Manager.Finish 0].

(** Two requests that both call [downloadVideoToTemp] before the
    [fs.stat] of either completes. *)
Definition racing : Manager.state :=
  Manager.run Manager.init
    [Manager.Call 1 remotePath videoId; Manager.Call 1 remotePath videoId;
     Manager.StatDone 0; Manager.StatDone 1].

(** A request to the proxy, and an origin that refuses the first call
    with 401 and the second with 403. *)
Definition request : Proxy.request :=
  {| Proxy.path := js "/alice/clips/a.mp4"; Proxy.reqMethod := js "GET";
     Proxy.range := None |}.

Definition refusing (n : nat) (c : Proxy.fetchCall) : Proxy.reply :=
  match n with
  | O => Proxy.Response 401 []
  | S _ => Proxy.Response 403 []
  end.

End Sample.


(* ===================================================================== *)
(** ** Invariants of the download coordinator                              *)
(* ===================================================================== *)

Module Coordination.
Import JS Manager.

(** Every identifier in [downloadQueue] maps to a pending promise that a
    call made for this identifier is waiting on. *)
Definition queue_ok (st : state) : Prop :=
  forall videoId p, downloadQueue st !! videoId = Some p ->
    (exists dl, downloads st !! p = Some dl /\ d_settled dl = None) /\
    exists k, tasks st !! k = Some (AtAwait videoId p).

(** Where a pass of the sweep that reads the clock as [now0] can stand
    without being about to remove the file [name]. *)
Definition sweep_sparing (j : nat) (now0 : Z) (name : list Z) (st : state)
  : Prop :=
  (jobs st !! j = Some SweepReaddir /\ now st = now0) \/
  (exists n rest, jobs st !! j = Some (SweepStat now0 n rest)) \/
  (exists n rest, jobs st !! j = Some (SweepUnlink now0 n rest) /\
                  entry_name (Path.join tempDir n) <> Some name) \/
  jobs st !! j = Some Ended.

End Coordination.

(* ===================================================================== *)
(** ** VideoSSHManager: the cache seen from outside                        *)
(* ===================================================================== *)

Module Cache.
Import JS Manager.

(** [deleteVideoFromServer(serverId, remotePath)], lines 310-331, on the
    cache directory.  [sshDelete] is what [SSHManager.deleteFile] does:
    [None] when it returns, [Some e] when it throws [e].  The result is
    [inl tt] for [{ success: true }], [inr e] when [e] is rethrown. *)
Definition deleteVideoFromServer (sshDelete : option (list Z))
    (remotePath : list Z) (d : gmap (list Z) file)
  : gmap (list Z) file * (unit + list Z) :=
  match sshDelete with
  | Some e => (d, inr e)
  | None =>
      let videoId := VideoId.encode remotePath in
      let fileName := Path.basename remotePath in
      let localPath := Path.join tempDir (videoId ++ js "_" ++ fileName) in
      (unlink_quiet d localPath, inl tt)
  end.

End Cache.

(* ===================================================================== *)
(** ** VideoSSHManager: formatting                                         *)
(* ===================================================================== *)

Module Format.
Import JS.

(** The decimal digits of a non-negative integer, most significant
    first, written in front of [acc]. *)
Fixpoint digits_of (fuel : nat) (n : Z) (acc : list Z) : list Z :=
  match fuel with
  | O => acc
  | S fuel' =>
      if n <? 10 then (48 + n) :: acc
      else digits_of fuel' (n / 10) ((48 + n mod 10) :: acc)
  end.

(** [String(n)] for an integer [n] of magnitude below [10^21]. *)
Definition toString (n : Z) : list Z :=
  if n <? 0 then 45 :: digits_of (S (Z.to_nat (Z.log2 (- n)))) (- n) []
  else digits_of (S (Z.to_nat (Z.log2 n))) n [].

(** [s.padStart(2, '0')] *)
Definition padStart2 (s : list Z) : list Z :=
  match s with
  | [] => [48; 48]
  | [c] => [48; c]
  | _ => s
  end.

(** [formatDuration(seconds)], lines 496-505, for an integer number of
    seconds: [%] is the remainder that has the sign of the dividend, and
    [Math.floor] of a quotient of integers is the floored quotient. *)
Definition formatDuration (seconds : Z) : list Z :=
  let h := seconds / 3600 in
  let m := Z.rem seconds 3600 / 60 in
  let s := Z.rem seconds 60 in
  if h >? 0 then
    toString h ++ js ":" ++ padStart2 (toString m) ++ js ":"
      ++ padStart2 (toString s)
  else toString m ++ js ":" ++ padStart2 (toString s).

Definition units : list (list Z) := [js "B"; js "KB"; js "MB"; js "GB"].

(** The [while] loop of [formatFileSize], lines 488-491.  [size] is the
    quotient [num / den]: dividing by 1024 is exact on doubles, so the
    loop is followed on the fraction.  [steps] bounds the iterations left
    by [units.length - 1 - unitIndex]. *)
Fixpoint scale (steps : nat) (num den : Z) (unitIndex : nat) : Z * Z * nat :=
  match steps with
  | O => (num, den, unitIndex)
  | S steps' =>
      if num >=? 1024 * den then scale steps' num (den * 1024) (S unitIndex)
      else (num, den, unitIndex)
  end.

(** [x.toFixed(2)] for [x = num / den >= 0]: the integer [n] for which
    [n / 100] is nearest to [x], the larger one of two, then its digits
    with a point before the last two. *)
Definition toFixed2 (num den : Z) : list Z :=
  let n := (200 * num + den) / (2 * den) in
  toString (n / 100) ++ js "." ++ padStart2 (toString (n mod 100)).

(** [formatFileSize(bytes)], lines 483-494, for an integer number of
    bytes; a negative one never enters the loop and is printed with its
    sign. *)
Definition formatFileSize (bytes : Z) : list Z :=
  let '(num, den, unitIndex) := scale 3 bytes 1 0 in
  (if num <? 0 then js "-" ++ toFixed2 (- num) den else toFixed2 num den)
    ++ js " " ++ nth unitIndex units [].

End Format.

(* ===================================================================== *)
(** ** More of JavaScript's strings and of Node's path module              *)
(* ===================================================================== *)

Module Text.
Import JS Route.

(** [s.trim()] *)
Definition trim (s : list Z) : list Z := rev (skip_ws (rev (skip_ws s))).

(** [s.split(/\s+/)]: the text is cut at every maximal run of white
    space; a run at either end leaves an empty string there.  [inRun]
    tells that the character before was white space. *)
Fixpoint split_ws_from (inRun : bool) (s : list Z) : list (list Z) :=
  match s with
  | [] => [[]]
  | c :: s' =>
      if isWhiteSpace c then
        if inRun then split_ws_from true s' else [] :: split_ws_from true s'
      else
        match split_ws_from false s' with
        | seg :: segs => (c :: seg) :: segs
        | [] => [[c]]
        end
  end.

Definition split_ws (s : list Z) : list (list Z) := split_ws_from false s.

Definition hexValue (c : Z) : option Z :=
  if isDigit c then Some (c - 48)
  else if (97 <=? c) && (c <=? 102) then Some (c - 87)
  else if (65 <=? c) && (c <=? 70) then Some (c - 55)
  else None.

Fixpoint hex_digits_value (acc : Z) (s : list Z) : Z :=
  match s with
  | c :: s' =>
      match hexValue c with
      | Some v => hex_digits_value (acc * 16 + v) s'
      | None => acc
      end
  | [] => acc
  end.

(** [parseInt(s)] without a radix: decimal, or hexadecimal after [0x]. *)
Definition parseInt_auto (s : list Z) : num :=
  let s1 := skip_ws s in
  let neg := match s1 with c :: _ => c =? 45 | [] => false end in
  let s2 :=
    match s1 with
    | c :: r => if (c =? 45) || (c =? 43) then r else s1
    | [] => []
    end in
  let signed v := if v <=? maxSafe then Int (if neg then - v else v) else Huge in
  match s2 with
  | 48 :: x :: s3 =>
      if (x =? 120) || (x =? 88) then
        match s3 with
        | c :: _ =>
            match hexValue c with
            | Some _ => signed (hex_digits_value 0 s3)
            | None => NaN
            end
        | [] => NaN
        end
      else signed (digits_value 0 s2)
  | c :: _ => if isDigit c then signed (digits_value 0 s2) else NaN
  | [] => NaN
  end.

(** [x || 0] for a number [x]. *)
Definition or_zero (x : num) : num :=
  match x with
  | NaN => Int 0
  | other => other
  end.

(** A character that is no half of a surrogate pair. *)
Definition plain (c : Z) : Prop :=
  0 <= c < 65536 /\ isHigh c = false /\ isLow c = false.

(** All fields but the last are non-empty. *)
Fixpoint full_but_last (l : list (list Z)) : Prop :=
  match l with
  | [] | [_] => True
  | x :: rest => x <> [] /\ full_but_last rest
  end.

End Text.

Module NodePath.
Import JS.

(** The state of the loop of [path.extname]. *)
Record scan : Type := {
  startDot : Z;
  startPart : Z;
  end_ : Z;
  matchedSlash : bool;
  preDotState : Z
}.

(** The loop of [path.extname], from the last character to the first;
    [chars] holds the characters still to visit, the one at index [i]
    first. *)
Fixpoint extname_loop (chars : list Z) (i : Z) (st : scan) : scan :=
  match chars with
  | [] => st
  | code :: rest =>
      if code =? 47 then
        if negb (matchedSlash st) then
          {| startDot := startDot st; startPart := i + 1; end_ := end_ st;
             matchedSlash := matchedSlash st; preDotState := preDotState st |}
        else extname_loop rest (i - 1) st
      else
        let st1 :=
          if end_ st =? -1 then
            {| startDot := startDot st; startPart := startPart st;
               end_ := i + 1; matchedSlash := false;
               preDotState := preDotState st |}
          else st in
        let st2 :=
          if code =? 46 then
            if startDot st1 =? -1 then
              {| startDot := i; startPart := startPart st1; end_ := end_ st1;
                 matchedSlash := matchedSlash st1;
                 preDotState := preDotState st1 |}
            else if negb (preDotState st1 =? 1) then
              {| startDot := startDot st1; startPart := startPart st1;
                 end_ := end_ st1; matchedSlash := matchedSlash st1;
                 preDotState := 1 |}
            else st1
          else if negb (startDot st1 =? -1) then
            {| startDot := startDot st1; startPart := startPart st1;
               end_ := end_ st1; matchedSlash := matchedSlash st1;
               preDotState := -1 |}
          else st1 in
        extname_loop rest (i - 1) st2
  end.

(** [s.slice(from, to)] for [0 <= from]. *)
Definition slice (s : list Z) (from to : Z) : list Z :=
  firstn (Z.to_nat (to - from)) (skipn (Z.to_nat from) s).

(** [path.extname(p)] *)
Definition extname (p : list Z) : list Z :=
  let st :=
    extname_loop (rev p) (Z.of_nat (length p) - 1)
      {| startDot := -1; startPart := 0; end_ := -1; matchedSlash := true;
         preDotState := 0 |} in
  if (startDot st =? -1) || (end_ st =? -1) || (preDotState st =? 0)
     || ((preDotState st =? 1) && (startDot st =? end_ st - 1)
         && (startDot st =? startPart st + 1))
  then []
  else slice p (startDot st) (end_ st).

(** The loop of [path.dirname], from the last character down to the one
    at index 1: the index of the slash that ends the directory part, or
    [-1]. *)
Fixpoint dirname_loop (chars : list Z) (i : Z) (matchedSlash : bool) : Z :=
  match chars with
  | [] => -1
  | code :: rest =>
      if code =? 47 then
        if negb matchedSlash then i else dirname_loop rest (i - 1) matchedSlash
      else dirname_loop rest (i - 1) false
  end.

(** [path.dirname(p)] *)
Definition dirname (p : list Z) : list Z :=
  match p with
  | [] => js "."
  | first :: others =>
      let hasRoot := first =? 47 in
      let end_ := dirname_loop (rev others) (Z.of_nat (length p) - 1) true in
      if end_ =? -1 then (if hasRoot then js "/" else js ".")
      else if hasRoot && (end_ =? 1) then js "//"
      else slice p 0 end_
  end.

End NodePath.

(* ===================================================================== *)
(** ** The route PUT /:videoId/rename                                      *)
(* ===================================================================== *)

Module Handler.
Import JS Route.

(** The collaborators of [GET /stream/:videoId] with the database as it
    answers: [db_execute] gives the rows of the server query, or [None]
    when [db.execute] (line 350) rejects. *)
Record env : Type := {
  db_execute : Z -> option (list Z);
  getVideoStream : Z -> list Z -> list Z -> Manager.streamResult + unit;
  stat_size : list Z -> option Z
}.

(** The collaborators as [Route.stream] sees them once the query has
    resolved with [rows]. *)
Definition resolved (E : env) (rows : list Z) : Route.env :=
  {| serverRows := fun _ => rows;
     vsm_getVideoStream := getVideoStream E;
     fs_stat := stat_size E |}.

(** The handler, lines 332-427.  A rejection of the query is caught by
    the outer [catch] (lines 419-426), which answers 500; after a query
    that has resolved the handler goes on as [Route.stream]. *)
Definition stream (E : env) (userId : Z) (userLogin videoId : list Z)
    (range : option (list Z)) : response * list effect :=
  let remotePath := VideoId.decode videoId in
  if negb (includes remotePath (js "/" ++ userLogin ++ js "/")) then
    (error_response 403 AccessDenied, [])
  else
    match db_execute E userId with
    | None => (error_response 500 InternalError, [DbQuery userId])
    | Some rows =>
        Route.stream (resolved E rows) userId userLogin videoId range
    end.

End Handler.

Module Rename.
Import JS.

Inductive answer : Type :=
  | NameRequired                 (* 400, 'Novo nome é obrigatório' *)
  | AccessDenied                 (* 403, 'Acesso negado' *)
  | Renamed (old_name new_name new_path : list Z)
                                 (* 200, 'Vídeo renomeado com sucesso' *)
  | Failed (details : list Z).   (* 500, 'Erro ao renomear vídeo' *)

(** What the route does outside the process. *)
Inductive effect : Type :=
  | DbServer (userId : Z)
  | Exec (serverId : Z) (command : list Z)
  | DbUpdate (newRelativePath video oldRelativePath : list Z).

(** The answers of its collaborators: the rows of the server query
    ([inr e] when [db.execute] rejects with [e]), and the error
    [SSHManager.executeCommand] throws, if it throws.  An error of the
    later [UPDATE] is caught and only logged. *)
Record env : Type := {
  serverRows : Z -> list Z + list Z;
  executeCommand : Z -> list Z -> option (list Z)
}.

Definition contentDir : list Z := js "/usr/local/WowzaStreamingEngine/content".

(** The handler, lines 169-245, for a body whose [novo_nome] is a string
    or is absent ([None]). *)
Definition rename (E : env) (userId : Z) (userLogin videoId : list Z)
    (novo_nome : option (list Z)) : answer * list effect :=
  match novo_nome with
  | None => (NameRequired, [])
  | Some novo =>
      if Path.is_empty novo || Path.is_empty (Text.trim novo)
      then (NameRequired, [])
      else
        let remotePath := VideoId.decode videoId in
        if negb (includes remotePath (js "/" ++ userLogin ++ js "/"))
        then (AccessDenied, [])
        else
          match serverRows E userId with
          | inr e => (Failed e, [DbServer userId])
          | inl rows =>
              let serverId := match rows with r :: _ => r | [] => 1 end in
              let pathParts := Path.split_on 47 remotePath in
              let oldFileName := List.last pathParts [] in
              let fileExtension := NodePath.extname oldFileName in
              let newFileName := Text.trim novo ++ fileExtension in
              let newRemotePath :=
                Path.join_with 47 (removelast pathParts ++ [newFileName]) in
              let renameCommand :=
                js "mv " ++ [Route.quote] ++ remotePath ++ [Route.quote]
                  ++ js " " ++ [Route.quote] ++ newRemotePath ++ [Route.quote] in
              let pre := [DbServer userId; Exec serverId renameCommand] in
              match executeCommand E serverId renameCommand with
              | Some e => (Failed e, pre)
              | None =>
                  let oldRelativePath :=
                    Route.remove_first contentDir remotePath in
                  let newRelativePath :=
                    Route.remove_first contentDir newRemotePath in
                  (Renamed oldFileName newFileName newRemotePath,
                   pre ++ [DbUpdate newRelativePath (Text.trim novo)
                             oldRelativePath])
              end
          end
  end.

End Rename.

(* ===================================================================== *)
(** ** VideoSSHManager: the listing of the videos of a user                *)
(* ===================================================================== *)

Module Listing.
Import JS.

(** One element of the listing; [lastModified], the time at which the
    element is built, is left out. *)
Record video : Type := {
  id : list Z;
  nome : list Z;
  path : list Z;
  fullPath : list Z;
  folder : list Z;
  size : Route.num;
  duration : Route.num;
  permissions : list Z;
  serverId : Z;
  userLogin : list Z
}.

(** What the server answers: the output of a command, [None] when
    [SSHManager.executeCommand] throws; and the number that lines 83-90
    leave in [duration] for a path (the floor of what [ffprobe] prints,
    0 when that is not a number or the command throws). *)
Record env : Type := {
  executeCommand : Z -> list Z -> option (list Z);
  durationOf : Z -> list Z -> Route.num
}.

Definition quoted (s : list Z) : list Z := [Route.quote] ++ s ++ [Route.quote].

Definition basePath (login : list Z) : list Z :=
  js "/usr/local/WowzaStreamingEngine/content/" ++ login.

(** The command of line 58. *)
Definition findCommand (searchPath : list Z) : list Z :=
  js "find " ++ quoted searchPath ++ js " -type f \( -iname "
    ++ quoted (js "*.mp4") ++ js " -o -iname " ++ quoted (js "*.avi")
    ++ js " -o -iname " ++ quoted (js "*.mov")
    ++ js " -o -iname " ++ quoted (js "*.wmv")
    ++ js " -o -iname " ++ quoted (js "*.flv")
    ++ js " -o -iname " ++ quoted (js "*.webm")
    ++ js " -o -iname " ++ quoted (js "*.mkv")
    ++ js " \) -exec ls -la {} \; 2>/dev/null || echo "
    ++ quoted (js "NO_VIDEOS").

(** The body of the loop of lines 69-105 for one line of the output;
    [None] when the line is passed over. *)
Definition videoOfLine (E : env) (server : Z) (login line : list Z)
  : option video :=
  if includes line (js "total ") || Path.is_empty (Text.trim line) then None
  else
    let parts := Text.split_ws (Text.trim line) in
    if (length parts <? 9)%nat then None
    else
      let full := Path.join_with 32 (skipn 8 parts) in
      let relativePath :=
        Route.remove_first (basePath login ++ js "/") full in
      let folderPath := NodePath.dirname relativePath in
      Some {| id := VideoId.encode full;
              nome := Path.basename full;
              path := relativePath;
              fullPath := full;
              folder := if str_eqb folderPath (js ".") then js "root"
                        else folderPath;
              size := Text.or_zero (Text.parseInt_auto (nth 4 parts []));
              duration := durationOf E server full;
              permissions := nth 0 parts [];
              serverId := server;
              userLogin := login |}.

(** [listVideosFromServer(serverId, userLogin, folderName)], lines 52-114;
    [folderName] is [None] for [null], and an empty name counts as
    none. *)
Definition listVideosFromServer (E : env) (server : Z) (login : list Z)
    (folderName : option (list Z)) : list video :=
  let searchPath :=
    match folderName with
    | Some f => if Path.is_empty f then basePath login
                else basePath login ++ js "/" ++ f
    | None => basePath login
    end in
  match executeCommand E server (findCommand searchPath) with
  | None => []
  | Some stdout =>
      if includes stdout (js "NO_VIDEOS") then []
      else
        let lines :=
          List.filter (fun line => negb (Path.is_empty (Text.trim line)))
            (Path.split_on 10 stdout) in
        omap (videoOfLine E server login) lines
  end.

(** A server with one file, whose name holds two spaces in a row. *)
Definition sampleOutput : list Z :=
  js "-rw-r--r-- 1 wowza wowza 1048576 Jan 10 12:00 /usr/local/WowzaStreamingEngine/content/alice/clips/my  video.mp4"
    ++ [10].

Definition sampleEnv : env :=
  {| executeCommand := fun _ _ => Some sampleOutput;
     durationOf := fun _ _ => Route.Int 12 |}.

(** What the listing holds for that file. *)
Definition sampleVideo : video :=
  let full :=
    js "/usr/local/WowzaStreamingEngine/content/alice/clips/my video.mp4" in
  {| id := VideoId.encode full;
     nome := js "my video.mp4";
     path := js "clips/my video.mp4";
     fullPath := full;
     folder := js "clips";
     size := Route.Int 1048576;
     duration := Route.Int 12;
     permissions := js "-rw-r--r--";
     serverId := 3;
     userLogin := js "alice" |}.

End Listing.
(* ===================================================================== *)
(** * Properties                                                           *)
(* ===================================================================== *)

(** ** Buffer: base64 and UTF-8 are inverted by their decoders             *)

Module BufferFacts.
Import JS Buffer.

(** Induction three elements at a time, as [toString_base64] recurses. *)
Lemma triples_ind (P : list Z -> Prop) :
  P [] -> (forall a, P [a]) -> (forall a b, P [a; b]) ->
  (forall a b c l, P l -> P (a :: b :: c :: l)) ->
  forall l, P l.
Proof.
  intros H0 H1 H2 H3 l.
  cut (P l /\ (forall a, P (a :: l)) /\ (forall a b, P (a :: b :: l))).
  { intros [H _]. exact H. }
  induction l as [|x l (IH0 & IH1 & IH2)].
  - repeat split; auto.
  - repeat split; auto.
Qed.

Lemma b64_char_value i :
  0 <= i < 64 -> unbase64 (b64_char i) = Some i.
Proof.
  intros H.
  assert (Hn : exists n, i = Z.of_nat n /\ (n < 64)%nat)
    by (exists (Z.to_nat i); lia).
  destruct Hn as (n & -> & Hn).
  do 64 (destruct n as [|n]; [reflexivity|]).
  lia.
Qed.

Lemma sextets_char i rest :
  0 <= i < 64 -> sextets (b64_char i :: rest) = i :: sextets rest.
Proof.
  intros H. cbn [sextets]. now rewrite (b64_char_value i H).
Qed.

Lemma sextets_pad rest : sextets (pad :: rest) = [].
Proof. reflexivity. Qed.

Ltac euclid := Z.to_euclidean_division_equations; lia.

(** [Buffer.from(buf.toString('base64'), 'base64')] gives the bytes back. *)
Lemma from_base64_toString bs :
  Forall is_byte bs -> from_base64 (toString_base64 bs) = bs.
Proof.
  unfold from_base64.
  induction bs as [|a|a b|a b c l IH] using triples_ind; intros Hb.
  - reflexivity.
  - inversion_clear Hb as [|? ? Ha _]. unfold is_byte in Ha.
    cbn [toString_base64].
    rewrite !sextets_char by euclid. rewrite sextets_pad.
    cbn [bytes_of_sextets]. f_equal. euclid.
  - inversion_clear Hb as [|? ? Ha Hb']. inversion_clear Hb' as [|? ? Hb _].
    unfold is_byte in Ha, Hb.
    cbn [toString_base64].
    rewrite !sextets_char by euclid. rewrite sextets_pad.
    cbn [bytes_of_sextets]. repeat f_equal; euclid.
  - inversion_clear Hb as [|? ? Ha Hb']. inversion_clear Hb' as [|? ? Hb Hc'].
    inversion_clear Hc' as [|? ? Hc Hl].
    unfold is_byte in Ha, Hb, Hc.
    cbn [toString_base64 app].
    rewrite !sextets_char by euclid.
    cbn [bytes_of_sextets app]. rewrite (IH Hl).
    repeat f_equal; euclid.
Qed.

Ltac split_tests :=
  repeat match goal with
    | |- context [Z.leb ?a ?b] => destruct (Z.leb_spec a b); try lia
    | |- context [Z.ltb ?a ?b] => destruct (Z.ltb_spec a b); try lia
    | |- context [Z.eqb ?a ?b] => destruct (Z.eqb_spec a b); try lia
    end.

Lemma utf8_run_cons st b rest :
  utf8_run st (b :: rest) =
  fst (utf8_step st b) ++ utf8_run (snd (utf8_step st b)) rest.
Proof. cbn [utf8_run]. now destruct (utf8_step st b). Qed.

Lemma start_ascii b : 0 <= b < 0x80 -> utf8_step D0 b = ([b], D0).
Proof. intros H. unfold utf8_step, utf8_start. now split_tests. Qed.

Lemma start_two q :
  2 <= q < 32 -> utf8_step D0 (0xC0 + q) = ([], DN 1 q 0x80 0xBF).
Proof.
  intros H. unfold utf8_step, utf8_start. split_tests. cbn.
  do 2 f_equal. lia.
Qed.

Lemma start_three a :
  0 <= a < 16 ->
  utf8_step D0 (0xE0 + a) =
  ([], DN 2 a (if a =? 0 then 0xA0 else 0x80) (if a =? 13 then 0x9F else 0xBF)).
Proof.
  intros H. unfold utf8_step, utf8_start. split_tests; cbn; do 2 f_equal; lia.
Qed.

Lemma start_four a :
  0 <= a <= 4 ->
  utf8_step D0 (0xF0 + a) =
  ([], DN 3 a (if a =? 0 then 0x90 else 0x80) (if a =? 4 then 0x8F else 0xBF)).
Proof.
  intros H. unfold utf8_step, utf8_start. split_tests; cbn; do 2 f_equal; lia.
Qed.

Lemma continue_last cp lo hi r :
  lo <= 0x80 + r <= hi ->
  utf8_step (DN 1 cp lo hi) (0x80 + r) = ([cp * 64 + r], D0).
Proof.
  intros H. unfold utf8_step. split_tests. cbn. do 2 f_equal. lia.
Qed.

Lemma continue_more n cp lo hi r :
  lo <= 0x80 + r <= hi ->
  utf8_step (DN (S (S n)) cp lo hi) (0x80 + r) =
  ([], DN (S n) (cp * 64 + r) 0x80 0xBF).
Proof.
  intros H. unfold utf8_step. split_tests. cbn. do 2 f_equal. lia.
Qed.

(** The decoder reads the bytes of a scalar value back as that value. *)
Lemma utf8_run_bytes cp bs :
  scalar cp -> utf8_run D0 (utf8_bytes cp ++ bs) = cp :: utf8_run D0 bs.
Proof.
  intros [Hr Hs]. unfold utf8_bytes.
  destruct (Z.ltb_spec cp 0x80); [|destruct (Z.ltb_spec cp 0x800);
    [|destruct (Z.ltb_spec cp 0x10000)]]; cbn [app].
  - rewrite utf8_run_cons, start_ascii by lia. reflexivity.
  - rewrite utf8_run_cons, start_two by euclid. cbn [fst snd app].
    rewrite utf8_run_cons, continue_last by euclid. cbn [fst snd app].
    f_equal. euclid.
  - rewrite utf8_run_cons, start_three by euclid. cbn [fst snd app].
    rewrite utf8_run_cons, continue_more.
    2:{ destruct (Z.eqb_spec (cp / 4096) 0), (Z.eqb_spec (cp / 4096) 13);
        euclid. }
    cbn [fst snd app].
    rewrite utf8_run_cons, continue_last by euclid. cbn [fst snd app].
    f_equal. euclid.
  - rewrite utf8_run_cons, start_four by euclid. cbn [fst snd app].
    rewrite utf8_run_cons, continue_more.
    2:{ destruct (Z.eqb_spec (cp / 262144) 0), (Z.eqb_spec (cp / 262144) 4);
        euclid. }
    cbn [fst snd app].
    rewrite utf8_run_cons, continue_more by euclid. cbn [fst snd app].
    rewrite utf8_run_cons, continue_last by euclid. cbn [fst snd app].
    f_equal. euclid.
Qed.

Lemma utf8_bytes_are_bytes cp :
  0 <= cp < 0x110000 -> Forall is_byte (utf8_bytes cp).
Proof.
  intros H. unfold utf8_bytes, is_byte.
  destruct (Z.ltb_spec cp 0x80); [|destruct (Z.ltb_spec cp 0x800);
    [|destruct (Z.ltb_spec cp 0x10000)]];
    repeat (apply List.Forall_cons; [euclid|]); apply List.Forall_nil.
Qed.

Lemma replacement_bytes : Forall is_byte replacement.
Proof. unfold replacement, is_byte. repeat constructor; lia. Qed.

Lemma isHigh_range u : isHigh u = true <-> 0xD800 <= u <= 0xDBFF.
Proof. unfold isHigh. rewrite andb_true_iff, !Z.leb_le. tauto. Qed.

Lemma isLow_range u : isLow u = true <-> 0xDC00 <= u <= 0xDFFF.
Proof. unfold isLow. rewrite andb_true_iff, !Z.leb_le. tauto. Qed.

Lemma isHigh_false u : isHigh u = false <-> ~ (0xD800 <= u <= 0xDBFF).
Proof. rewrite <- isHigh_range. destruct (isHigh u); intuition congruence. Qed.

Lemma isLow_false u : isLow u = false <-> ~ (0xDC00 <= u <= 0xDFFF).
Proof. rewrite <- isLow_range. destruct (isLow u); intuition congruence. Qed.

(** The code point of a surrogate pair, and its two code units. *)
Lemma pair_scalar u v :
  0xD800 <= u <= 0xDBFF -> 0xDC00 <= v <= 0xDFFF ->
  scalar (0x10000 + (u - 0xD800) * 1024 + (v - 0xDC00)).
Proof. unfold scalar. lia. Qed.

Lemma pair_units u v :
  0xD800 <= u <= 0xDBFF -> 0xDC00 <= v <= 0xDFFF ->
  utf16_units (0x10000 + (u - 0xD800) * 1024 + (v - 0xDC00)) = [u; v].
Proof.
  intros Hu Hv. unfold utf16_units.
  destruct (Z.ltb_spec (0x10000 + (u - 0xD800) * 1024 + (v - 0xDC00)) 0x10000);
    [lia|].
  repeat f_equal; euclid.
Qed.

(** Every byte [Buffer.from(str)] writes is a byte. *)
Lemma from_string_bytes s :
  Forall (fun u => 0 <= u < 65536) s -> Forall is_byte (from_string s).
Proof.
  cut (forall n s, (length s <= n)%nat ->
         Forall (fun u => 0 <= u < 65536) s -> Forall is_byte (from_string s)).
  { intros H. apply (H (length s)). lia. }
  clear s. induction n as [|n IH]; intros [|u rest] Hlen Hs;
    try (cbn in Hlen; lia); try apply List.Forall_nil.
  cbn [length] in Hlen. inversion_clear Hs as [|? ? Hu Hrest].
  cbn [from_string].
  destruct (isHigh u) eqn:Eh.
  - apply isHigh_range in Eh. destruct rest as [|v rest'].
    + apply replacement_bytes.
    + inversion Hrest as [|? ? Hv Hrest']; subst.
      destruct (isLow v) eqn:El.
      * apply isLow_range in El. apply List.Forall_app; split.
        -- apply utf8_bytes_are_bytes. lia.
        -- apply IH; [cbn [length] in Hlen; lia | assumption].
      * apply List.Forall_app; split; [apply replacement_bytes|].
        apply IH; [lia | assumption].
  - destruct (isLow u) eqn:El.
    + apply List.Forall_app; split; [apply replacement_bytes|].
      apply IH; [lia | assumption].
    + apply List.Forall_app; split; [apply utf8_bytes_are_bytes; lia|].
      apply IH; [lia | assumption].
Qed.

Lemma isWellFormed_units s :
  isWellFormed s = true -> Forall (fun u => 0 <= u < 65536) s.
Proof.
  cut (forall n s, (length s <= n)%nat -> isWellFormed s = true ->
         Forall (fun u => 0 <= u < 65536) s).
  { intros H. apply (H (length s)). lia. }
  clear s. induction n as [|n IH]; intros [|u rest] Hlen Hw;
    try (cbn in Hlen; lia); try apply List.Forall_nil.
  cbn [length] in Hlen. cbn [isWellFormed] in Hw.
  apply andb_true_iff in Hw as [Hu Hw].
  apply andb_true_iff in Hu as [Hu0 Hu1].
  apply Z.leb_le in Hu0. apply Z.ltb_lt in Hu1.
  apply List.Forall_cons; [lia|].
  destruct (isHigh u).
  - destruct rest as [|v rest']; [discriminate|].
    apply andb_true_iff in Hw as [Hv Hw]. apply isLow_range in Hv.
    apply List.Forall_cons; [lia|].
    apply IH; [cbn [length] in Hlen; lia | exact Hw].
  - apply andb_true_iff in Hw as [_ Hw]. apply IH; [lia | exact Hw].
Qed.

(** [Buffer.from(str).toString()] is [str] when [str] is well formed. *)
Lemma toString_from_string s :
  isWellFormed s = true -> toString (from_string s) = s.
Proof.
  unfold toString.
  cut (forall n s, (length s <= n)%nat -> isWellFormed s = true ->
         flat_map utf16_units (utf8_run D0 (from_string s)) = s).
  { intros H. apply (H (length s)). lia. }
  clear s. induction n as [|n IH]; intros [|u rest] Hlen Hw;
    try (cbn in Hlen; lia); try reflexivity.
  cbn [length] in Hlen. cbn [isWellFormed] in Hw.
  apply andb_true_iff in Hw as [Hu Hw].
  apply andb_true_iff in Hu as [Hu0 Hu1].
  apply Z.leb_le in Hu0. apply Z.ltb_lt in Hu1.
  cbn [from_string].
  destruct (isHigh u) eqn:Eh.
  - apply isHigh_range in Eh. destruct rest as [|v rest']; [discriminate|].
    apply andb_true_iff in Hw as [Hv Hw]. rewrite Hv.
    apply isLow_range in Hv.
    rewrite utf8_run_bytes by (apply pair_scalar; assumption).
    cbn [flat_map]. rewrite pair_units by assumption.
    cbn [app]. do 2 f_equal. apply IH; [cbn [length] in Hlen; lia | exact Hw].
  - apply andb_true_iff in Hw as [Hl Hw]. apply negb_true_iff in Hl.
    rewrite Hl. apply isHigh_false in Eh. apply isLow_false in Hl.
    rewrite utf8_run_bytes by (unfold scalar; lia).
    cbn [flat_map]. unfold utf16_units at 1.
    destruct (Z.ltb_spec u 0x10000); [|lia].
    cbn [app]. f_equal. apply IH; [lia | exact Hw].
Qed.

(** *** What the decoders give is always in the domain *)

Lemma unbase64_range c v : unbase64 c = Some v -> 0 <= v < 64.
Proof.
  unfold unbase64.
  repeat match goal with
    | |- context [Z.leb ?a ?b] => destruct (Z.leb_spec a b)
    | |- context [Z.eqb ?a ?b] => destruct (Z.eqb_spec a b)
    end; cbn [andb orb]; intros [= <-]; lia.
Qed.

Lemma sextets_range s : Forall (fun v => 0 <= v < 64) (sextets s).
Proof.
  induction s as [|c s IH]; cbn [sextets]; [constructor|].
  destruct (unbase64 c) as [v|] eqn:E.
  - constructor; [now apply (unbase64_range c) | exact IH].
  - destruct (c =? pad); [constructor | exact IH].
Qed.

Lemma bytes_of_sextets_bytes l :
  Forall (fun v => 0 <= v < 64) l -> Forall is_byte (bytes_of_sextets l).
Proof.
  cut (forall n l, (length l <= n)%nat -> Forall (fun v => 0 <= v < 64) l ->
         Forall is_byte (bytes_of_sextets l)).
  { intros H. apply (H (length l)). lia. }
  clear l. unfold is_byte.
  induction n as [|n IH]; intros l Hlen Hl.
  - destruct l; [constructor | cbn in Hlen; lia].
  - destruct l as [|a [|b [|c [|d rest]]]]; cbn [bytes_of_sextets];
      try constructor;
      repeat match goal with
        | H : Forall _ (_ :: _) |- _ => inversion_clear H
        end;
      try euclid; try (repeat constructor; euclid).
    cbn [app]. repeat (constructor; [euclid|]).
    apply IH; [cbn [length] in Hlen; lia | assumption].
Qed.

(** [Buffer.from(str, 'base64')] gives bytes, whatever [str] is. *)
Lemma from_base64_bytes s : Forall is_byte (from_base64 s).
Proof. apply bytes_of_sextets_bytes, sextets_range. Qed.

Lemma utf8_start_ok b :
  0 <= b ->
  Forall scalar (fst (utf8_start b)) /\ dstate_ok (snd (utf8_start b)).
Proof.
  intros Hb. unfold utf8_start, scalar.
  destruct (Z.leb_spec b 0x7F); [cbn; split; [repeat constructor; lia | exact I]|].
  destruct (Z.leb_spec 0xC2 b), (Z.leb_spec b 0xDF); cbn [andb];
    try (cbn; split; [constructor | lia]).
  all: destruct (Z.leb_spec 0xE0 b), (Z.leb_spec b 0xEF); cbn [andb];
    try (cbn [fst snd dstate_ok]; split; [constructor|];
         destruct (Z.eqb_spec b 0xE0), (Z.eqb_spec b 0xED); lia).
  all: destruct (Z.leb_spec 0xF0 b), (Z.leb_spec b 0xF4); cbn [andb];
    try (cbn [fst snd dstate_ok]; split; [constructor|];
         destruct (Z.eqb_spec b 0xF0), (Z.eqb_spec b 0xF4); lia).
  all: cbn; split; [repeat constructor; lia | exact I].
Qed.

Lemma utf8_step_ok st b :
  dstate_ok st -> 0 <= b ->
  Forall scalar (fst (utf8_step st b)) /\ dstate_ok (snd (utf8_step st b)).
Proof.
  intros Hst Hb. destruct st as [|n cp lo hi]; [now apply utf8_start_ok|].
  cbn [utf8_step].
  destruct (Z.leb_spec lo b), (Z.leb_spec b hi); cbn [andb];
    try (destruct (utf8_start_ok b Hb) as [Ho Hs];
         destruct (utf8_start b) as [out st']; cbn [fst snd] in *;
         split; [constructor; [unfold scalar; lia | exact Ho] | exact Hs]).
  destruct n as [|[|[|[|n]]]]; cbn [dstate_ok] in Hst; try contradiction;
    cbn [fst snd dstate_ok]; unfold scalar.
  - split; [repeat constructor; lia | exact I].
  - split; [constructor | lia].
  - split; [constructor | lia].
Qed.

Lemma utf8_run_scalars bs st :
  dstate_ok st -> Forall is_byte bs -> Forall scalar (utf8_run st bs).
Proof.
  revert st. induction bs as [|b bs IH]; intros st Hst Hbs.
  - cbn [utf8_run]. destruct st; repeat constructor; unfold scalar; lia.
  - inversion_clear Hbs as [|? ? Hb Hrest]. unfold is_byte in Hb.
    rewrite utf8_run_cons.
    destruct (utf8_step_ok st b Hst ltac:(lia)) as [Ho Hs].
    apply List.Forall_app; split; [exact Ho | now apply IH].
Qed.

Lemma units_well_formed cps :
  Forall scalar cps -> isWellFormed (flat_map utf16_units cps) = true.
Proof.
  induction 1 as [|cp cps [Hr Hs] _ IH]; [reflexivity|].
  cbn [flat_map]. unfold utf16_units at 1.
  destruct (Z.ltb_spec cp 0x10000); cbn [app isWellFormed].
  - rewrite IH.
    replace (isHigh cp) with false by (symmetry; apply isHigh_false; lia).
    replace (isLow cp) with false by (symmetry; apply isLow_false; lia).
    destruct (Z.leb_spec 0 cp); [|lia]. destruct (Z.ltb_spec cp 65536); [|lia].
    reflexivity.
  - rewrite IH.
    set (h := 0xD800 + (cp - 0x10000) / 1024).
    set (l := 0xDC00 + (cp - 0x10000) mod 1024).
    assert (Hh : 0xD800 <= h <= 0xDBFF) by (subst h; euclid).
    assert (Hl : 0xDC00 <= l <= 0xDFFF) by (subst l; euclid).
    rewrite (proj2 (isHigh_range h) Hh), (proj2 (isLow_range l) Hl).
    destruct (Z.leb_spec 0 h); [|lia]. destruct (Z.ltb_spec h 65536); [|lia].
    reflexivity.
Qed.

(** [buf.toString()] is a well-formed string, whatever the bytes. *)
Lemma toString_well_formed bs :
  Forall is_byte bs -> isWellFormed (toString bs) = true.
Proof.
  intros H. apply units_well_formed, utf8_run_scalars; [exact I | exact H].
Qed.

End BufferFacts.

(** ** C1: identifiers decode to the path they were made from *)

Module VideoIdFacts.
Import JS.

(** C1.  For every absolute remote path [P] (a well-formed string: 16-bit
    code units, every surrogate paired), decoding the identifier that the
    listing produces for [P] yields [P] again:
    [decode (encode P) = P]. *)
Theorem decode_encode (P : list Z) :
  isWellFormed P = true -> VideoId.decode (VideoId.encode P) = P.
Proof.
  intros Hw. unfold VideoId.decode, VideoId.encode.
  rewrite BufferFacts.from_base64_toString.
  - apply BufferFacts.toString_from_string. exact Hw.
  - apply BufferFacts.from_string_bytes, BufferFacts.isWellFormed_units.
    exact Hw.
Qed.

(** The theorem at a path with an accented letter and a character outside
    the basic plane. *)
Lemma decode_encode_witness :
  let P := js "/usr/local/WowzaStreamingEngine/content/alice/clips/"
             ++ [0x76; 0xED; 0x64; 0x65; 0x6F; 0xD83C; 0xDFAC] ++ js ".mp4" in
  isWellFormed P = true /\ VideoId.decode (VideoId.encode P) = P.
Proof.
  split; [reflexivity | apply decode_encode; reflexivity].
Defined.

(** Every path a route decodes from an identifier is in that domain,
    whatever the identifier; the cache key [deleteVideoFromServer]
    computes from it designates the same path. *)
Lemma decode_well_formed (videoId : list Z) :
  isWellFormed (VideoId.decode videoId) = true.
Proof.
  apply BufferFacts.toString_well_formed, BufferFacts.from_base64_bytes.
Qed.

Lemma decode_encode_decode (videoId : list Z) :
  VideoId.decode (VideoId.encode (VideoId.decode videoId))
  = VideoId.decode videoId.
Proof.
  pose proof (decode_well_formed videoId) as Hw.
  unfold VideoId.encode. unfold VideoId.decode at 1.
  rewrite BufferFacts.from_base64_toString
    by now apply BufferFacts.from_string_bytes, BufferFacts.isWellFormed_units.
  now apply BufferFacts.toString_from_string.
Qed.

(** Outside that domain the encoding is lossy by construction: a
    surrogate without its partner is not text, and [Buffer.from] writes
    U+FFFD for it. *)
Example unpaired_surrogate_replaced :
  VideoId.decode (VideoId.encode [47; 0xD800]) = [47; 0xFFFD].
Proof. reflexivity. Qed.

End VideoIdFacts.

(** ** The stream route *)

Module RouteFacts.
Import JS Route.

(** *** Reading a header of the form [bytes=<digits>-<digits>] *)

Lemma isDigit_range c : isDigit c = true <-> 48 <= c <= 57.
Proof. unfold isDigit. rewrite andb_true_iff, !Z.leb_le. tauto. Qed.

Lemma digit_not_space c : isDigit c = true -> isWhiteSpace c = false.
Proof.
  intros H. apply isDigit_range in H. unfold isWhiteSpace.
  repeat match goal with
    | |- context [Z.leb ?a ?b] => destruct (Z.leb_spec a b); try lia
    | |- context [Z.eqb ?a ?b] => destruct (Z.eqb_spec a b); try lia
    end; reflexivity.
Qed.

Lemma split_on_absent sep s :
  forallb (fun c => negb (c =? sep)) s = true -> Path.split_on sep s = [s].
Proof.
  induction s as [|c s IH]; intros H; [reflexivity|].
  cbn [forallb] in H. apply andb_true_iff in H as [Hc Hs].
  cbn [Path.split_on]. apply negb_true_iff in Hc. rewrite Hc.
  now rewrite (IH Hs).
Qed.

Lemma split_on_once sep a b :
  forallb (fun c => negb (c =? sep)) a = true ->
  forallb (fun c => negb (c =? sep)) b = true ->
  Path.split_on sep (a ++ sep :: b) = [a; b].
Proof.
  intros Ha Hb. induction a as [|c a IH].
  - cbn [app Path.split_on]. rewrite Z.eqb_refl.
    now rewrite (split_on_absent sep b Hb).
  - cbn [forallb] in Ha. apply andb_true_iff in Ha as [Hc Ha].
    cbn [app Path.split_on]. apply negb_true_iff in Hc. rewrite Hc.
    now rewrite (IH Ha).
Qed.

Lemma digits_have_no_dash s :
  forallb isDigit s = true -> forallb (fun c => negb (c =? 45)) s = true.
Proof.
  induction s as [|c s IH]; intros H; [reflexivity|].
  cbn [forallb] in *. apply andb_true_iff in H as [Hc Hs].
  rewrite (IH Hs), andb_true_r. apply isDigit_range in Hc.
  apply negb_true_iff, Z.eqb_neq. lia.
Qed.

Lemma digits_value_nonneg s acc : 0 <= acc -> 0 <= digits_value acc s.
Proof.
  revert acc. induction s as [|c s IH]; intros acc H; cbn [digits_value].
  - exact H.
  - destruct (isDigit c) eqn:Ec; [|exact H].
    apply isDigit_range in Ec. apply IH. lia.
Qed.

Lemma all_digits_cons s :
  all_digits s = true ->
  exists c r, s = c :: r /\ isDigit c = true /\ forallb isDigit s = true.
Proof.
  unfold all_digits. intros H. apply andb_true_iff in H as [Hn Hd].
  destruct s as [|c r]; [discriminate|].
  exists c, r. repeat split; [|exact Hd].
  cbn [forallb] in Hd. now apply andb_true_iff in Hd as [Hc _].
Qed.

(** [parseInt] of a decimal numeral is its value, when that is a safe
    integer. *)
Lemma parseInt_digits s :
  all_digits s = true ->
  parseInt s =
  if digits_value 0 s <=? maxSafe then Int (digits_value 0 s) else Huge.
Proof.
  intros H. destruct (all_digits_cons s H) as (c & r & -> & Hc & _).
  unfold parseInt. cbn [skip_ws]. rewrite (digit_not_space c Hc).
  pose proof (proj1 (isDigit_range c) Hc) as Hr.
  destruct (Z.eqb_spec c 45); [lia|]. destruct (Z.eqb_spec c 43); [lia|].
  cbn [orb]. rewrite Hc. reflexivity.
Qed.


Lemma in_setHeader_new h hs : In h (setHeader h hs).
Proof. unfold setHeader. apply in_or_app. right. now left. Qed.

Lemma in_setHeader_old h h' hs :
  same_name h h' = false -> In h' hs -> In h' (setHeader h hs).
Proof.
  intros Hn Hin. unfold setHeader. apply in_or_app. left.
  apply List.filter_In. split; [exact Hin | now rewrite Hn].
Qed.

(** When the ownership test fails the route answers 403 and does nothing
    else. *)
Lemma stream_denied E userId userLogin videoId range :
  includes (VideoId.decode videoId) (js "/" ++ userLogin ++ js "/") = false ->
  stream E userId userLogin videoId range = (error_response 403 AccessDenied, []).
Proof. intros H. unfold stream. now rewrite H. Qed.


(** *** A request that is served from the cache *)

Section Served.

Variables (E : env) (userId : Z) (userLogin videoId localPath : list Z).
Variable size : Z.
Hypothesis Hserved : served E userId userLogin videoId localPath size.

(** The answer to a request that is served, by case on its Range header. *)
Lemma stream_served range :
  fst (stream E userId userLogin videoId range) =
  match range with
  | None =>
      {| status := 200; headers := base_headers (VideoId.decode videoId) size;
         content := Pipe localPath None |}
  | Some r =>
      if Path.is_empty r then
        {| status := 200; headers := base_headers (VideoId.decode videoId) size;
           content := Pipe localPath None |}
      else
        let parts := Path.split_on 45 (remove_first (js "bytes=") r) in
        let start := parseInt (nth 0 parts []) in
        let end_ :=
          match nth_error parts 1 with
          | Some p1 => if Path.is_empty p1 then Int (size - 1) else parseInt p1
          | None => Int (size - 1)
          end in
        match createReadStream start end_ with
        | Some se =>
            {| status := 206;
               headers :=
                 setHeader (ContentLength (num_succ (num_sub end_ start)))
                   (setHeader (ContentRange start end_ size)
                      (base_headers (VideoId.decode videoId) size));
               content := Pipe localPath (Some se) |}
        | None => error_response 500 LocalFileError
        end
  end.
Proof using Hserved.
  destruct Hserved as (Hinc & [c Hget] & Hstat & Hval).
  unfold stream. rewrite Hinc. cbn [negb]. rewrite Hget.
  cbn [Manager.sr_success Manager.sr_type Manager.sr_path negb].
  unfold serve_local. rewrite Hstat, Hval. cbn [negb].
  fold (base_headers (VideoId.decode videoId) size).
  destruct range as [r|]; [|reflexivity].
  destruct (Path.is_empty r); [reflexivity|].
  cbv zeta.
  destruct (createReadStream _ _); reflexivity.
Qed.



End Served.





(** C8, at the failing input.  The path
    [/usr/local/WowzaStreamingEngine/content/bob/alice/clip.mp4] belongs
    to [bob]; the caller is [alice].  The ownership test of the route
    looks for [/alice/] anywhere in the path, finds the folder of that
    name, and the request goes on to the download instead of being
    answered 403. *)
Theorem owner_test_accepts_foreign_path E userId range :
  let remotePath :=
    js "/usr/local/WowzaStreamingEngine/content/bob/alice/clip.mp4" in
  let videoId := VideoId.encode remotePath in
  let answer := stream E userId (js "alice") videoId range in
  owner_segment (VideoId.decode videoId) = Some (js "bob") /\
  status (fst answer) <> 403 /\
  existsb is_remote (snd answer) = true.
Proof.
  intros remotePath videoId answer.
  assert (Hdec : VideoId.decode videoId = remotePath) by reflexivity.
  split; [now rewrite Hdec|].
  subst answer. unfold stream. rewrite Hdec.
  change (includes remotePath (js "/" ++ js "alice" ++ js "/")) with true.
  cbn [negb].
  destruct (vsm_getVideoStream E _ remotePath videoId) as [sr|];
    [|split; [discriminate | reflexivity]].
  destruct (negb (Manager.sr_success sr));
    [split; [discriminate | reflexivity]|].
  destruct (Manager.sr_type sr); [|split; [discriminate | reflexivity]].
  destruct (serve_local E remotePath (Manager.sr_path sr) range) as [r effs] eqn:Es.
  split; [|reflexivity].
  cbn [fst]. unfold serve_local in Es.
  destruct (fs_stat E _); [|injection Es as <- _; discriminate].
  destruct (negb (valid_header_value _)); [injection Es as <- _; discriminate|].
  destruct range as [rg|]; [|injection Es as <- _; discriminate].
  destruct (Path.is_empty rg); [injection Es as <- _; discriminate|].
  cbv zeta in Es.
  destruct (createReadStream _ _); injection Es as <- _; discriminate.
Qed.

End RouteFacts.

(** ** The proxy gateway *)

Module ProxyFacts.
Import JS Proxy.

(** No path is both of the on-demand class and of the streaming class. *)
Lemma video_not_stream p : isVideoFile p = true -> isStreamFile p = false.
Proof.
  unfold isVideoFile, isStreamFile, has_extension, endsWith.
  generalize (rev (List.map lower p)). intros [|c X] H.
  - reflexivity.
  - cbv -[Z.eqb] in H |- *.
    destruct (Z.eqb_spec 56 c) as [<-|]; [cbv in H; discriminate|].
    destruct (Z.eqb_spec 115 c) as [<-|]; [cbv in H; discriminate|].
    reflexivity.
Qed.

(** The path the middleware works with starts with a slash. *)
Lemma requestPath_absolute p :
  exists p', (if startsWith p (js "/") then p else js "/" ++ p) = 47 :: p'.
Proof.
  change (js "/") with [47].
  destruct p as [|c p]; [exists []; reflexivity|].
  cbn [startsWith]. destruct (Z.eqb_spec 47 c) as [<-|].
  - exists p. reflexivity.
  - exists (c :: p). reflexivity.
Qed.

Lemma alternativeUrl_no_userinfo isProduction p :
  userinfo (alternativeUrl isProduction (47 :: p)) = None.
Proof. destruct isProduction; reflexivity. Qed.

Lemma wowzaUrl_userinfo isProduction p :
  isStreamFile (47 :: p) = false ->
  userinfo (wowzaUrl isProduction (47 :: p))
  = Some (wowzaUser ++ js ":" ++ wowzaPassword).
Proof.
  intros H. unfold wowzaUrl. rewrite H. destruct isProduction; reflexivity.
Qed.

(** C9.  When the first upstream answer to an on-demand request is 401 or
    403, the middleware calls [fetch] exactly once more, for the same
    path on the content port, with a URL that carries no credentials (the
    first one carries [admin:<password>]); the credentials travel in the
    [Authorization: Basic] header only.  It gives up only after that
    call: its answer is the piped body when the retry succeeds, 404 when
    the retry is refused, 500 when the retry throws. *)
Theorem unauthorized_retried_once isProduction net req status1 headers1 :
  let requestPath :=
    if startsWith (path req) (js "/") then path req else js "/" ++ path req in
  let hs := headersFor requestPath (range req) in
  let first :=
    {| url := wowzaUrl isProduction requestPath; method := reqMethod req;
       requestHeaders := hs; timeout := 30000 |} in
  let second :=
    {| url := js "http://" ++ wowzaHost isProduction ++ js ":6980" ++ requestPath;
       method := reqMethod req; requestHeaders := hs; timeout := 30000 |} in
  includes requestPath (js "/api/videos-ssh/") = false ->
  isVideoFile requestPath = true ->
  net 0%nat first = Response status1 headers1 ->
  status1 = 401 \/ status1 = 403 ->
  snd (middleware isProduction net req) = [first; second] /\
  userinfo (url first) = Some (wowzaUser ++ js ":" ++ wowzaPassword) /\
  userinfo (url second) = None /\
  In (js "Authorization",
      js "Basic " ++ Buffer.toString_base64
                       (Buffer.from_string (wowzaUser ++ js ":" ++ wowzaPassword)))
     (requestHeaders second) /\
  fst (middleware isProduction net req) =
    match net 1%nat second with
    | Response status2 headers2 =>
        if ok status2 then PipeUpstream 1 headers2
        else SendJson 404
               (VideoNotFound requestPath
                  (wowzaHost isProduction ++ js ":6980/content" ++ requestPath)
                  status1)
    | Failure => SendJson 500 StreamingServerError
    end.
Proof.
  intros requestPath hs first second Hssh Hvideo Hnet Hstatus.
  pose proof (video_not_stream requestPath Hvideo) as Hstream.
  assert (Hok : ok status1 = false) by (destruct Hstatus; subst; reflexivity).
  assert (Hretry : (status1 =? 401) || (status1 =? 403) = true)
    by (destruct Hstatus; subst; reflexivity).
  assert (Hmid : middleware isProduction net req =
                 match net 1%nat second with
                 | Response status2 headers2 =>
                     if ok status2 then (PipeUpstream 1 headers2, [first; second])
                     else (SendJson 404
                             (VideoNotFound requestPath
                                (wowzaHost isProduction ++ js ":6980/content"
                                   ++ requestPath) status1), [first; second])
                 | Failure => (SendJson 500 StreamingServerError, [first; second])
                 end).
  { unfold middleware. fold requestPath. rewrite Hssh, Hvideo, Hstream.
    cbn [negb andb]. fold hs. fold first. rewrite Hnet, Hok, Hretry.
    unfold alternativeUrl. fold second. reflexivity. }
  destruct (requestPath_absolute (path req)) as [p' Hp]. fold requestPath in Hp.
  repeat split.
  - rewrite Hmid. destruct (net 1%nat second) as [s2 h2|];
      [destruct (ok s2)|]; reflexivity.
  - cbn [url first]. rewrite Hp. apply wowzaUrl_userinfo. now rewrite <- Hp.
  - cbn [url second]. rewrite Hp.
    apply (alternativeUrl_no_userinfo isProduction p').
  - cbn [requestHeaders second]. subst hs. unfold headersFor. rewrite Hstream.
    apply in_or_app. right. now left.
  - rewrite Hmid. destruct (net 1%nat second) as [s2 h2|];
      [destruct (ok s2)|]; reflexivity.
Qed.

(** The theorem at [GET /content/alice/clips/a.mp4] with an origin that
    answers 401, then 403. *)
Lemma unauthorized_retried_once_witness :
  length (snd (middleware false Sample.refusing Sample.request)) = 2%nat /\
  fst (middleware false Sample.refusing Sample.request) =
    SendJson 404
      (VideoNotFound (js "/alice/clips/a.mp4")
         (js "51.222.156.223:6980/content/alice/clips/a.mp4") 401).
Proof.
  pose proof (unauthorized_retried_once false Sample.refusing Sample.request
                401 [] eq_refl eq_refl eq_refl (or_introl eq_refl))
    as (Hcalls & _ & _ & _ & Hanswer).
  split.
  - rewrite Hcalls. reflexivity.
  - rewrite Hanswer. reflexivity.
Defined.

End ProxyFacts.

(** ** The disk cache *)

Module CacheFacts.
Import JS Manager.

Lemma split_on_nonempty sep s : Path.split_on sep s <> [].
Proof.
  induction s as [|c s IH]; cbn [Path.split_on]; [discriminate|].
  destruct (c =? sep); [discriminate|].
  destruct (Path.split_on sep s); [contradiction | discriminate].
Qed.

(** [(a + sep + b).split(sep)] is [a.split(sep)] followed by
    [b.split(sep)]. *)
Lemma split_on_app sep a b :
  Path.split_on sep (a ++ sep :: b) = Path.split_on sep a ++ Path.split_on sep b.
Proof.
  induction a as [|c a IH]; cbn [app Path.split_on].
  - now rewrite Z.eqb_refl.
  - destruct (c =? sep); [now rewrite IH|].
    rewrite IH. pose proof (split_on_nonempty sep a) as Hne.
    destruct (Path.split_on sep a); [contradiction | reflexivity].
Qed.

Lemma no_slash name :
  includes name [Path.slash] = false ->
  forallb (fun c => negb (c =? Path.slash)) name = true.
Proof.
  induction name as [|c name IH]; intros H; [reflexivity|].
  cbn [includes startsWith] in H. apply orb_false_iff in H as [Hc Hrest].
  rewrite andb_true_r in Hc. cbn [forallb].
  rewrite (IH Hrest), andb_true_r.
  apply negb_true_iff. rewrite Z.eqb_sym. exact Hc.
Qed.

Lemma split_on_file_name name :
  includes name [Path.slash] = false -> Path.split_on Path.slash name = [name].
Proof.
  intros H. apply no_slash in H. revert H.
  induction name as [|c name IH]; intros H; [reflexivity|].
  cbn [forallb] in H. apply andb_true_iff in H as [Hc Hs].
  cbn [Path.split_on]. apply negb_true_iff in Hc. rewrite Hc.
  now rewrite (IH Hs).
Qed.

(** [path.join(tempDir, name)] of a file name is [tempDir + "/" + name]. *)
Lemma join_file_name name :
  is_file_name name = true ->
  Path.join tempDir name = tempDir ++ Path.slash :: name.
Proof.
  unfold is_file_name. intros H.
  apply andb_true_iff in H as [H Hdd]. apply andb_true_iff in H as [H Hd].
  apply andb_true_iff in H as [He Hs].
  apply negb_true_iff in He, Hs, Hd, Hdd.
  unfold Path.join, Path.normalize_abs.
  rewrite split_on_app, (split_on_file_name name Hs).
  change (Path.split_on Path.slash tempDir)
    with [[]; js "tmp"; js "video-cache"].
  cbn [app fold_left]. unfold Path.push_segment at 1. rewrite He, Hd, Hdd.
  reflexivity.
Qed.

Lemma entry_name_join name :
  is_file_name name = true -> entry_name (Path.join tempDir name) = Some name.
Proof.
  intros H. rewrite (join_file_name name H). unfold entry_name.
  change (startsWith (tempDir ++ Path.slash :: name) (tempDir ++ [Path.slash]))
    with true.
  change (skipn (length (tempDir ++ [Path.slash])) (tempDir ++ Path.slash :: name))
    with name.
  now rewrite H.
Qed.

Lemma entry_name_is_file_name p name :
  entry_name p = Some name -> is_file_name name = true.
Proof.
  unfold entry_name. destruct (startsWith p _); [|discriminate].
  destruct (is_file_name _) eqn:E; [|discriminate].
  intros [= <-]. exact E.
Qed.

(** *** Operations on an entry *)

Lemma stat_entry (d : gmap (list Z) file) name :
  is_file_name name = true -> stat d (Path.join tempDir name) = d !! name.
Proof. intros H. unfold stat. now rewrite (entry_name_join name H). Qed.

Lemma unlink_entry (d : gmap (list Z) file) name (f : file) :
  is_file_name name = true -> d !! name = Some f ->
  unlink d (Path.join tempDir name) = Some (delete name d).
Proof.
  intros H Hf. unfold unlink. now rewrite (entry_name_join name H), Hf.
Qed.

(** [fs.unlink] removes the file it names and no other; where it throws
    there is no file of that name. *)
Lemma unlink_spec (d d' : gmap (list Z) file) p :
  unlink d p = Some d' ->
  exists name, entry_name p = Some name /\ d' = delete name d.
Proof.
  unfold unlink. destruct (entry_name p) as [name|]; [|discriminate].
  destruct (d !! name); [|discriminate]. intros [= <-]. now exists name.
Qed.

Lemma unlink_quiet_gone (d : gmap (list Z) file) p :
  stat (unlink_quiet d p) p = None.
Proof.
  unfold stat, unlink_quiet, unlink.
  destruct (entry_name p) as [name|]; [|reflexivity].
  destruct (d !! name) eqn:E; [apply lookup_delete_eq | exact E].
Qed.

(** *** Reading the directory *)

Lemma elem_of_readdir (d : gmap (list Z) file) n :
  n ∈ readdir d <-> is_Some (d !! n).
Proof.
  unfold readdir. rewrite list_elem_of_fmap. split.
  - intros ([m f] & -> & Hin). apply elem_of_map_to_list in Hin.
    now exists f.
  - intros [f Hf]. exists (n, f). split; [reflexivity|].
    now apply elem_of_map_to_list.
Qed.

Lemma NoDup_readdir (d : gmap (list Z) file) : NoDup (readdir d).
Proof. apply NoDup_fst_map_to_list. Qed.

Lemma length_readdir (d : gmap (list Z) file) : length (readdir d) = size d.
Proof. unfold readdir. now rewrite length_fmap, length_map_to_list. Qed.

End CacheFacts.

(** ** The download coordinator *)

Module CoordinatorFacts.
Import JS Manager.

(** *** Waking the continuations of a promise *)

Lemma resume_woken (p : nat) (o : outcome) (ts : list task)
    (q : gmap (list Z) nat) (k : nat) (v : list Z) :
  ts !! k = Some (AtAwait v p) ->
  fst (resume p o ts q) !! k = Some (Settled o).
Proof.
  revert q k. induction ts as [|t ts IH]; intros q k H; [discriminate|].
  destruct k as [|k]; cbn [resume].
  - injection H as ->. rewrite Nat.eqb_refl.
    now destruct (resume p o ts (delete v q)).
  - cbn in H.
    destruct t as [? ? ? ?|v' p'| |];
      try (specialize (IH q k H); destruct (resume p o ts q); exact IH).
    destruct (Nat.eqb p' p).
    + specialize (IH (delete v' q) k H).
      destruct (resume p o ts (delete v' q)). exact IH.
    + specialize (IH q k H). destruct (resume p o ts q). exact IH.
Qed.

Lemma resume_other (p : nat) (o : outcome) (ts : list task)
    (q : gmap (list Z) nat) (k : nat) (t : task) :
  ts !! k = Some t -> (forall v, t <> AtAwait v p) ->
  fst (resume p o ts q) !! k = Some t.
Proof.
  revert q k. induction ts as [|t' ts IH]; intros q k H Hne; [discriminate|].
  destruct k as [|k]; cbn [resume].
  - injection H as ->.
    destruct t as [? ? ? ?|v' p'| |];
      try (now destruct (resume p o ts q)).
    destruct (Nat.eqb_spec p' p) as [->|]; [now destruct (Hne v')|].
    now destruct (resume p o ts q).
  - cbn in H.
    destruct t' as [? ? ? ?|v' p'| |];
      try (specialize (IH q k H Hne); destruct (resume p o ts q); exact IH).
    destruct (Nat.eqb p' p).
    + specialize (IH (delete v' q) k H Hne).
      destruct (resume p o ts (delete v' q)). exact IH.
    + specialize (IH q k H Hne). destruct (resume p o ts q). exact IH.
Qed.

Lemma resume_queue_none (p : nat) (o : outcome) (ts : list task)
    (q : gmap (list Z) nat) (v : list Z) :
  q !! v = None -> snd (resume p o ts q) !! v = None.
Proof.
  revert q. induction ts as [|t ts IH]; intros q H; [exact H|].
  cbn [resume].
  destruct t as [? ? ? ?|v' p'| |];
    try (specialize (IH q H); destruct (resume p o ts q); exact IH).
  destruct (Nat.eqb p' p).
  - assert (H' : delete v' q !! v = None).
    { destruct (decide (v' = v)) as [->|Hne];
        [apply lookup_delete_eq | now rewrite lookup_delete_ne]. }
    specialize (IH (delete v' q) H').
    destruct (resume p o ts (delete v' q)). exact IH.
  - specialize (IH q H). destruct (resume p o ts q). exact IH.
Qed.

(** The continuation of [await downloadPromise] deletes its identifier
    from [downloadQueue]. *)
Lemma resume_unregisters (p : nat) (o : outcome) (ts : list task)
    (q : gmap (list Z) nat) (k : nat) (v : list Z) :
  ts !! k = Some (AtAwait v p) -> snd (resume p o ts q) !! v = None.
Proof.
  revert q k. induction ts as [|t ts IH]; intros q k H; [discriminate|].
  destruct k as [|k]; cbn [resume].
  - injection H as ->. rewrite Nat.eqb_refl.
    pose proof (resume_queue_none p o ts (delete v q) v
                  (lookup_delete_eq q v)) as Hq.
    now destruct (resume p o ts (delete v q)).
  - cbn in H.
    destruct t as [? ? ? ?|v' p'| |];
      try (specialize (IH q k H); destruct (resume p o ts q); exact IH).
    destruct (Nat.eqb p' p).
    + specialize (IH (delete v' q) k H).
      destruct (resume p o ts (delete v' q)). exact IH.
    + specialize (IH q k H). destruct (resume p o ts q). exact IH.
Qed.

Lemma settle_pending (p : nat) (o : outcome) (st : state) (dl : download) :
  downloads st !! p = Some dl -> d_settled dl = None ->
  settle p o st =
  {| now := now st; disk := disk st; next_ino := next_ino st;
     downloadQueue := snd (resume p o (tasks st) (downloadQueue st));
     downloads := <[p := with_settled o dl]> (downloads st);
     tasks := fst (resume p o (tasks st) (downloadQueue st));
     jobs := jobs st |}.
Proof.
  intros Hdl Hs. unfold settle. rewrite Hdl, Hs.
  now destruct (resume p o (tasks st) (downloadQueue st)).
Qed.

Lemma disk_settle (p : nat) (o : outcome) (st : state) : disk (settle p o st) = disk st.
Proof.
  unfold settle. destruct (downloads st !! p) as [dl|]; [|reflexivity].
  destruct (d_settled dl); [reflexivity|].
  now destruct (resume p o (tasks st) (downloadQueue st)).
Qed.

Lemma jobs_settle (p : nat) (o : outcome) (st : state) : jobs (settle p o st) = jobs st.
Proof.
  unfold settle. destruct (downloads st !! p) as [dl|]; [|reflexivity].
  destruct (d_settled dl); [reflexivity|].
  now destruct (resume p o (tasks st) (downloadQueue st)).
Qed.

Lemma now_settle (p : nat) (o : outcome) (st : state) : now (settle p o st) = now st.
Proof.
  unfold settle. destruct (downloads st !! p) as [dl|]; [|reflexivity].
  destruct (d_settled dl); [reflexivity|].
  now destruct (resume p o (tasks st) (downloadQueue st)).
Qed.

(** *** The jobs *)

(** The completion of an operation of a job touches the directory and
    the job, nothing else. *)
Lemma fs_done_frame (j : nat) (st : state) :
  tasks (fs_done j st) = tasks st /\ downloads (fs_done j st) = downloads st /\
  downloadQueue (fs_done j st) = downloadQueue st /\
  now (fs_done j st) = now st /\ next_ino (fs_done j st) = next_ino st.
Proof.
  unfold fs_done.
  destruct (jobs st !! j) as [[path| |now0 file rest|now0 file rest|
                               |count file rest| |count file rest total details
                               | |r|r]|];
    cbn [cleanupOldFiles clearCache getCacheStatus];
    try (repeat split; reflexivity).
  - destruct (stat _ _) as [stats|]; [|repeat split; reflexivity].
    destruct (_ >? _); repeat split; reflexivity.
  - destruct (unlink _ _); repeat split; reflexivity.
  - destruct (unlink _ _); repeat split; reflexivity.
  - destruct (stat _ _); repeat split; reflexivity.
Qed.

Lemma unlink_subset (d d' : gmap (list Z) file) p (n : list Z) :
  unlink d p = Some d' -> is_Some (d' !! n) -> is_Some (d !! n).
Proof.
  intros H. apply CacheFacts.unlink_spec in H as (name & _ & ->).
  destruct (decide (name = n)) as [->|Hne].
  - rewrite lookup_delete_eq. now intros [? ?].
  - now rewrite lookup_delete_ne.
Qed.

Lemma unlink_quiet_subset (d : gmap (list Z) file) p (n : list Z) :
  is_Some (unlink_quiet d p !! n) -> is_Some (d !! n).
Proof.
  unfold unlink_quiet. destruct (unlink d p) as [d'|] eqn:E; [|auto].
  exact (unlink_subset d d' p n E).
Qed.

(** A job only removes files. *)
Lemma fs_done_subset (j : nat) (st : state) (n : list Z) :
  is_Some (disk (fs_done j st) !! n) -> is_Some (disk st !! n).
Proof.
  unfold fs_done.
  destruct (jobs st !! j) as [[path| |now0 file rest|now0 file rest|
                               |count file rest| |count file rest total details
                               | |r|r]|];
    cbn [cleanupOldFiles clearCache getCacheStatus];
    try (intros H; exact H).
  - apply unlink_quiet_subset.
  - destruct (stat _ _) as [stats|]; [|auto]. destruct (_ >? _); auto.
  - destruct (unlink _ _) as [d'|] eqn:E; [|auto].
    exact (unlink_subset (disk st) d' _ n E).
  - destruct (unlink _ _) as [d'|] eqn:E; [|auto].
    exact (unlink_subset (disk st) d' _ n E).
  - destruct (stat _ _); auto.
Qed.

(** Both error handlers leave the directory as it is: the unlink they
    issue acts later. *)
Lemma on_error_disk (p : nat) (dl : download) (ph : phase) (e : list Z)
    (st : state) :
  disk (on_error p dl ph e st) = disk st.
Proof. unfold on_error. now rewrite disk_settle. Qed.

Lemma on_error_jobs (p : nat) (dl : download) (ph : phase) (e : list Z)
    (st : state) :
  jobs (on_error p dl ph e st) = jobs st ++ [Unlinking (d_local dl)].
Proof. unfold on_error. now rewrite jobs_settle. Qed.

(** *** Every entry of the cache directory has a file name *)

Lemma names_ok_insert (d : gmap (list Z) file) name (f : file) :
  names_ok d -> is_file_name name = true -> names_ok (<[name := f]> d).
Proof.
  intros Hok Hname n Hn. destruct (decide (name = n)) as [<-|Hne];
    [exact Hname|]. rewrite lookup_insert_ne in Hn by exact Hne. now apply Hok.
Qed.

Lemma names_ok_subset (d d' : gmap (list Z) file) :
  names_ok d -> (forall n, is_Some (d' !! n) -> is_Some (d !! n)) ->
  names_ok d'.
Proof. intros Hok Hsub n Hn. apply Hok, Hsub, Hn. Qed.

Lemma step_names_ok st ev :
  names_ok (disk st) -> names_ok (disk (step st ev)).
Proof.
  intros Hok.
  destruct ev as [sid rp vid|k|ms|p e|p|p n|p e|p e|p| | | |j]; cbn [step];
    try exact Hok.
  - unfold stat_done. destruct (tasks st !! k) as [[sid rp vid lp|? ?|?|?]|];
      try exact Hok.
    destruct (stat (disk st) lp) as [f|]; [|exact Hok].
    destruct (_ <? _); exact Hok.
  - unfold conn_fail. destruct (downloads st !! p) as [dl|]; [|exact Hok].
    destruct (d_phase dl); try exact Hok. now rewrite disk_settle.
  - unfold sftp_ready. destruct (downloads st !! p) as [dl|]; [|exact Hok].
    destruct (d_phase dl); try exact Hok.
    unfold open_write.
    destruct (entry_name (d_local dl)) as [name|] eqn:En; [|exact Hok].
    apply CacheFacts.entry_name_is_file_name in En.
    destruct (disk st !! name); cbn [disk set_download set_disk];
      now apply names_ok_insert.
  - unfold data. destruct (downloads st !! p) as [dl|]; [|exact Hok].
    destruct (d_phase dl) as [|fd|[|] w|]; try exact Hok.
    unfold write_chunk. destruct fd as [i|]; [|exact Hok].
    destruct (entry_name (d_local dl)) as [name|] eqn:En; [|exact Hok].
    apply CacheFacts.entry_name_is_file_name in En.
    cbn [disk set_download].
    destruct (disk st !! name) as [f|]; [|exact Hok].
    destruct (Nat.eqb (f_ino f) i); [|exact Hok].
    cbn [disk set_disk]. now apply names_ok_insert.
  - unfold read_error. destruct (downloads st !! p) as [dl|]; [|exact Hok].
    destruct (d_phase dl) as [|fd|[|] w|]; try exact Hok;
      now rewrite on_error_disk.
  - unfold write_error. destruct (downloads st !! p) as [dl|]; [|exact Hok].
    destruct (d_phase dl) as [|fd|r [|]|]; try exact Hok;
      now rewrite on_error_disk.
  - unfold finish. destruct (downloads st !! p) as [dl|]; [|exact Hok].
    destruct (d_phase dl) as [|[i|]|r w|]; try exact Hok. now rewrite disk_settle.
  - eapply names_ok_subset; [exact Hok|]. intros n. apply fs_done_subset.
Qed.

Lemma run_names_ok evs st :
  names_ok (disk st) -> names_ok (disk (run st evs)).
Proof.
  revert st. induction evs as [|ev evs IH]; intros st Hok; [exact Hok|].
  cbn [run fold_left]. apply IH, step_names_ok, Hok.
Qed.

Lemma reachable_names_ok st : reachable st -> names_ok (disk st).
Proof.
  intros [evs ->]. apply run_names_ok. intros n [f Hf].
  cbn in Hf. now rewrite lookup_empty in Hf.
Qed.

(** *** Every pending promise has its initiator *)







(** *** Runs *)

Lemma run_app (st : state) (evs evs' : list event) :
  run st (evs ++ evs') = run (run st evs) evs'.
Proof. apply fold_left_app. Qed.

Lemma run_cons (st : state) (ev : event) (evs : list event) :
  run st (ev :: evs) = run (step st ev) evs.
Proof. reflexivity. Qed.

Lemma run_idle (st : state) (ev : event) (m : nat) :
  step st ev = st -> run st (repeat ev m) = st.
Proof.
  intros H. induction m as [|m IH]; [reflexivity|].
  cbn [repeat]. now rewrite run_cons, H.
Qed.

(** *** A job changes at its own completions only *)

Lemma job_set (st : state) (j : nat) (b b' : job) :
  jobs st !! j = Some b -> jobs (set_job j b' st) !! j = Some b'.
Proof.
  intros H. cbn [set_job jobs]. apply list_lookup_insert_eq.
  eapply lookup_lt_Some. exact H.
Qed.

Lemma fs_done_jobs (j : nat) (st : state) :
  jobs (fs_done j st) = jobs st \/
  exists b, jobs (fs_done j st) = <[j := b]> (jobs st).
Proof.
  unfold fs_done.
  destruct (jobs st !! j) as [[path| |now0 file rest|now0 file rest|
                               |count file rest| |count file rest total details
                               | |r|r]|];
    cbn [cleanupOldFiles clearCache getCacheStatus]; try (now left);
    try (right; eexists; reflexivity).
  - destruct (stat _ _) as [stats|]; [|right; eexists; reflexivity].
    destruct (_ >? _); right; eexists; reflexivity.
  - destruct (unlink _ _); right; eexists; reflexivity.
  - destruct (unlink _ _); right; eexists; reflexivity.
  - destruct (stat _ _); right; eexists; reflexivity.
Qed.

Lemma step_jobs (st : state) (ev : event) :
  jobs (step st ev) = jobs st \/
  (exists b, jobs (step st ev) = jobs st ++ [b]) \/
  (exists j b, ev = Fs j /\ jobs (step st ev) = <[j := b]> (jobs st)).
Proof.
  destruct ev as [sid rp vid|k|ms|p e|p|p n|p e|p e|p| | | |j]; cbn [step];
    try (now left); try (right; left; eexists; reflexivity).
  - left. unfold stat_done.
    destruct (tasks st !! k) as [[sid rp vid lp| | |]|]; try reflexivity.
    destruct (stat (disk st) lp) as [f|]; [|reflexivity].
    destruct (_ <? _); reflexivity.
  - left. unfold conn_fail. destruct (downloads st !! p) as [dl|]; [|reflexivity].
    destruct (d_phase dl); try reflexivity. now rewrite jobs_settle.
  - left. unfold sftp_ready. destruct (downloads st !! p) as [dl|]; [|reflexivity].
    destruct (d_phase dl); try reflexivity. unfold open_write.
    destruct (entry_name (d_local dl)) as [name|]; [|reflexivity].
    destruct (disk st !! name); reflexivity.
  - left. unfold data. destruct (downloads st !! p) as [dl|]; [|reflexivity].
    destruct (d_phase dl) as [|fd|[|] w|]; try reflexivity.
    unfold write_chunk. destruct fd as [i|]; [|reflexivity].
    destruct (entry_name (d_local dl)) as [name|]; [|reflexivity].
    cbn [disk set_download]. destruct (disk st !! name) as [f|]; [|reflexivity].
    destruct (Nat.eqb (f_ino f) i); reflexivity.
  - unfold read_error. destruct (downloads st !! p) as [dl|]; [|now left].
    destruct (d_phase dl) as [|fd|[|] w|]; try (now left);
      right; left; eexists; apply on_error_jobs.
  - unfold write_error. destruct (downloads st !! p) as [dl|]; [|now left].
    destruct (d_phase dl) as [|fd|r [|]|]; try (now left);
      right; left; eexists; apply on_error_jobs.
  - left. unfold finish. destruct (downloads st !! p) as [dl|]; [|reflexivity].
    destruct (d_phase dl) as [|[i|]|r w|]; try reflexivity. now rewrite jobs_settle.
  - destruct (fs_done_jobs j st) as [H|[b H]]; [now left|].
    right. right. now exists j, b.
Qed.

Lemma step_keeps_job (st : state) (ev : event) (j : nat) (b : job) :
  ev <> Fs j -> jobs st !! j = Some b -> jobs (step st ev) !! j = Some b.
Proof.
  intros Hev Hj.
  destruct (step_jobs st ev) as [->|[[b' ->]|(j' & b' & -> & ->)]].
  - exact Hj.
  - now apply lookup_app_l_Some.
  - rewrite list_lookup_insert_ne; [exact Hj|]. intros ->. now apply Hev.
Qed.


(** *** The passes, step by step *)


Lemma fs_sweep_readdir (st : state) (j : nat) :
  jobs st !! j = Some SweepReaddir ->
  step st (Fs j) = set_job j (sweep_next (now st) (readdir (disk st))) st.
Proof. intros H. cbn [step]. unfold fs_done. now rewrite H. Qed.

Lemma fs_sweep_stat (st : state) (j : nat) (now0 : Z) (n : list Z)
    (rest : list (list Z)) :
  jobs st !! j = Some (SweepStat now0 n rest) ->
  step st (Fs j) =
  match stat (disk st) (Path.join tempDir n) with
  | Some stats =>
      if now0 - f_mtime stats >? maxAge
      then set_job j (SweepUnlink now0 n rest) st
      else set_job j (sweep_next now0 rest) st
  | None => set_job j Ended st
  end.
Proof. intros H. cbn [step]. unfold fs_done. now rewrite H. Qed.

Lemma fs_sweep_unlink (st : state) (j : nat) (now0 : Z) (n : list Z)
    (rest : list (list Z)) :
  jobs st !! j = Some (SweepUnlink now0 n rest) ->
  step st (Fs j) =
  match unlink (disk st) (Path.join tempDir n) with
  | Some d' => set_job j (sweep_next now0 rest) (set_disk d' st)
  | None => set_job j Ended st
  end.
Proof. intros H. cbn [step]. unfold fs_done. now rewrite H. Qed.

Lemma fs_clear_readdir (st : state) (j : nat) :
  jobs st !! j = Some ClearReaddir ->
  step st (Fs j) =
  set_job j (clear_next (length (readdir (disk st))) (readdir (disk st))) st.
Proof. intros H. cbn [step]. unfold fs_done. now rewrite H. Qed.

Lemma fs_clear_unlink (st : state) (j : nat) (count : nat) (n : list Z)
    (rest : list (list Z)) :
  jobs st !! j = Some (ClearUnlink count n rest) ->
  step st (Fs j) =
  match unlink (disk st) (Path.join tempDir n) with
  | Some d' => set_job j (clear_next count rest) (set_disk d' st)
  | None => set_job j (Cleared None) st
  end.
Proof. intros H. cbn [step]. unfold fs_done. now rewrite H. Qed.

Lemma fs_status_readdir (st : state) (j : nat) :
  jobs st !! j = Some StatusReaddir ->
  step st (Fs j) =
  set_job j (status_next (length (readdir (disk st))) (readdir (disk st)) 0 []) st.
Proof. intros H. cbn [step]. unfold fs_done. now rewrite H. Qed.

Lemma fs_status_stat (st : state) (j : nat) (count : nat) (n : list Z)
    (rest : list (list Z)) (total : Z) (details : list fileDetail) :
  jobs st !! j = Some (StatusStat count n rest total details) ->
  step st (Fs j) =
  match stat (disk st) (Path.join tempDir n) with
  | Some stats =>
      set_job j
        (status_next count rest (total + f_size stats)
           (details ++ [{| fd_name := n; fd_size := f_size stats;
                           fd_age := now st - f_mtime stats |}])) st
  | None => set_job j (Reported status_fallback) st
  end.
Proof. intros H. cbn [step]. unfold fs_done. now rewrite H. Qed.

(** A job that is over stays as it is. *)
Lemma fs_over (st : state) (j : nat) (b : job) :
  jobs st !! j = Some b ->
  match b with Ended | Cleared _ | Reported _ => True | _ => False end ->
  forall m, run st (repeat (Fs j) m) = st.
Proof.
  intros H Hb m. apply run_idle. cbn [step]. unfold fs_done. rewrite H.
  destruct b; try contradiction; reflexivity.
Qed.

(** *** A pass of the sweep that nothing interleaves with *)

Lemma sweep_pass (now0 : Z) (j : nat) (names : list (list Z)) :
  forall (st : state) (m : nat),
  NoDup names ->
  (forall n, n ∈ names -> is_file_name n = true /\ is_Some (disk st !! n)) ->
  jobs st !! j = Some (sweep_next now0 names) ->
  (2 * length names <= m)%nat ->
  jobs (run st (repeat (Fs j) m)) !! j = Some Ended /\
  forall name,
    disk (run st (repeat (Fs j) m)) !! name =
    match disk st !! name with
    | Some f =>
        if decide (name ∈ names)
        then (if now0 - f_mtime f >? maxAge then None else Some f)
        else Some f
    | None => None
    end.
Proof.
  induction names as [|n names IH]; intros st m Hnd Hall Hj Hm.
  - cbn [sweep_next] in Hj. rewrite (fs_over st j Ended Hj I m).
    split; [exact Hj|]. intros name.
    destruct (disk st !! name); [|reflexivity].
    destruct (decide (name ∈ [])) as [H|_]; [|reflexivity].
    now apply elem_of_nil in H.
  - apply NoDup_cons in Hnd as [Hn Hnd].
    destruct (Hall n ltac:(left)) as [Hname [f Hf]].
    cbn [sweep_next] in Hj. cbn [length] in Hm.
    destruct m as [|m]; [lia|]. cbn [repeat]. rewrite run_cons.
    rewrite (fs_sweep_stat st j now0 n names Hj).
    rewrite (CacheFacts.stat_entry (disk st) n Hname), Hf.
    assert (Hrest : forall d' : gmap (list Z) file,
               (forall k, k <> n -> d' !! k = disk st !! k) ->
               forall k, k ∈ names -> is_file_name k = true /\ is_Some (d' !! k)).
    { intros d' Hd' k Hk. destruct (Hall k ltac:(now right)) as [Hk1 Hk2].
      split; [exact Hk1|]. rewrite Hd'; [exact Hk2|]. now intros ->. }
    destruct (now0 - f_mtime f >? maxAge) eqn:Hold.
    + set (st1 := set_job j (SweepUnlink now0 n names) st).
      assert (Hj1 : jobs st1 !! j = Some (SweepUnlink now0 n names))
        by apply (job_set st j _ _ Hj).
      destruct m as [|m]; [lia|]. cbn [repeat]. rewrite run_cons.
      rewrite (fs_sweep_unlink st1 j now0 n names Hj1).
      change (disk st1) with (disk st).
      rewrite (CacheFacts.unlink_entry (disk st) n f Hname Hf).
      set (st2 := set_job j (sweep_next now0 names)
                    (set_disk (delete n (disk st)) st1)).
      destruct (IH st2 m Hnd) as [Hend Hdisk].
      { intros k Hk. change (disk st2) with (delete n (disk st)).
        apply (Hrest (delete n (disk st))); [|exact Hk].
        intros k' Hk'. now apply lookup_delete_ne. }
      { apply (job_set (set_disk (delete n (disk st)) st1) j
                 (SweepUnlink now0 n names)). exact Hj1. }
      { lia. }
      split; [exact Hend|]. intros name. rewrite Hdisk.
      change (disk st2) with (delete n (disk st)).
      destruct (decide (name = n)) as [->|Hne].
      * rewrite lookup_delete_eq, Hf.
        destruct (decide (n ∈ n :: names)) as [_|Hnot];
          [now rewrite Hold | destruct Hnot; now left].
      * rewrite lookup_delete_ne by now apply not_eq_sym.
        destruct (disk st !! name) as [g|]; [|reflexivity].
        destruct (decide (name ∈ names)) as [Hin|Hnin];
          destruct (decide (name ∈ n :: names)) as [Hin'|Hnin'];
          try reflexivity.
        -- destruct Hnin'. now right.
        -- apply elem_of_cons in Hin' as [?|?]; contradiction.
    + set (st1 := set_job j (sweep_next now0 names) st).
      destruct (IH st1 m Hnd) as [Hend Hdisk].
      { intros k Hk. change (disk st1) with (disk st).
        apply (Hrest (disk st)); [reflexivity | exact Hk]. }
      { apply (job_set st j _ _ Hj). }
      { lia. }
      split; [exact Hend|]. intros name. rewrite Hdisk.
      change (disk st1) with (disk st).
      destruct (disk st !! name) as [g|] eqn:Hg; [|reflexivity].
      destruct (decide (name = n)) as [->|Hne].
      * rewrite Hf in Hg. injection Hg as <-.
        destruct (decide (n ∈ names)) as [Hin|_]; [contradiction|].
        destruct (decide (n ∈ n :: names)) as [_|Hnot];
          [now rewrite Hold | destruct Hnot; now left].
      * destruct (decide (name ∈ names)) as [Hin|Hnin];
          destruct (decide (name ∈ n :: names)) as [Hin'|Hnin'];
          try reflexivity.
        -- destruct Hnin'. now right.
        -- apply elem_of_cons in Hin' as [?|?]; contradiction.
Qed.

(** The pass from the call on: every file older than [maxAge] at the
    call is removed, no other is touched. *)
Lemma sweep_run (st : state) (m : nat) :
  names_ok (disk st) -> (2 * size (disk st) < m)%nat ->
  let st' := run st (Sweep :: repeat (Fs (length (jobs st))) m) in
  jobs st' !! length (jobs st) = Some Ended /\
  forall name,
    disk st' !! name =
    match disk st !! name with
    | Some f => if now st - f_mtime f >? maxAge then None else Some f
    | None => None
    end.
Proof.
  intros Hok Hm. cbv zeta. set (j := length (jobs st)).
  rewrite run_cons. cbn [step]. set (st0 := add_job SweepReaddir st).
  assert (Hj0 : jobs st0 !! j = Some SweepReaddir)
    by (subst st0 j; cbn [add_job jobs]; apply list_lookup_middle; reflexivity).
  destruct m as [|m]; [lia|]. cbn [repeat]. rewrite run_cons.
  rewrite (fs_sweep_readdir st0 j Hj0).
  change (now st0) with (now st). change (disk st0) with (disk st).
  set (st1 := set_job j (sweep_next (now st) (readdir (disk st))) st0).
  destruct (sweep_pass (now st) j (readdir (disk st)) st1 m) as [Hend Hdisk].
  - apply CacheFacts.NoDup_readdir.
  - intros n Hn. apply CacheFacts.elem_of_readdir in Hn.
    split; [now apply Hok | exact Hn].
  - apply (job_set st0 j _ _ Hj0).
  - rewrite CacheFacts.length_readdir. lia.
  - split; [exact Hend|]. intros name. rewrite Hdisk.
    change (disk st1) with (disk st).
    destruct (disk st !! name) as [f|] eqn:Hf; [|reflexivity].
    destruct (decide (name ∈ readdir (disk st))) as [_|Hnot]; [reflexivity|].
    destruct Hnot. apply CacheFacts.elem_of_readdir. now exists f.
Qed.

(** *** A clearing that nothing interleaves with *)

Lemma clear_pass (count : nat) (j : nat) (names : list (list Z)) :
  forall (st : state) (m : nat),
  NoDup names ->
  (forall n, n ∈ names -> is_file_name n = true /\ is_Some (disk st !! n)) ->
  jobs st !! j = Some (clear_next count names) ->
  (length names <= m)%nat ->
  jobs (run st (repeat (Fs j) m)) !! j = Some (Cleared (Some (Z.of_nat count))) /\
  forall name,
    disk (run st (repeat (Fs j) m)) !! name =
    if decide (name ∈ names) then None else disk st !! name.
Proof.
  induction names as [|n names IH]; intros st m Hnd Hall Hj Hm.
  - cbn [clear_next] in Hj. rewrite (fs_over st j _ Hj I m).
    split; [exact Hj|]. intros name.
    destruct (decide (name ∈ [])) as [H|_]; [|reflexivity].
    now apply elem_of_nil in H.
  - apply NoDup_cons in Hnd as [Hn Hnd].
    destruct (Hall n ltac:(left)) as [Hname [f Hf]].
    cbn [clear_next] in Hj. cbn [length] in Hm.
    destruct m as [|m]; [lia|]. cbn [repeat]. rewrite run_cons.
    rewrite (fs_clear_unlink st j count n names Hj).
    rewrite (CacheFacts.unlink_entry (disk st) n f Hname Hf).
    set (st1 := set_job j (clear_next count names)
                  (set_disk (delete n (disk st)) st)).
    destruct (IH st1 m Hnd) as [Hend Hdisk].
    { intros k Hk. destruct (Hall k ltac:(now right)) as [Hk1 Hk2].
      split; [exact Hk1|]. change (disk st1) with (delete n (disk st)).
      rewrite lookup_delete_ne; [exact Hk2|]. now intros ->. }
    { apply (job_set (set_disk (delete n (disk st)) st) j
               (ClearUnlink count n names)). exact Hj. }
    { lia. }
    split; [exact Hend|]. intros name. rewrite Hdisk.
    change (disk st1) with (delete n (disk st)).
    destruct (decide (name = n)) as [->|Hne].
    + destruct (decide (n ∈ names)) as [Hin|_]; [contradiction|].
      destruct (decide (n ∈ n :: names)) as [_|Hnot];
        [apply lookup_delete_eq | destruct Hnot; now left].
    + destruct (decide (name ∈ names)) as [Hin|Hnin];
        destruct (decide (name ∈ n :: names)) as [Hin'|Hnin'];
        try reflexivity.
      * destruct Hnin'. now right.
      * apply elem_of_cons in Hin' as [?|?]; contradiction.
      * apply lookup_delete_ne. now apply not_eq_sym.
Qed.

Lemma clear_run (st : state) (m : nat) :
  names_ok (disk st) -> (size (disk st) < m)%nat ->
  let st' := run st (Clear :: repeat (Fs (length (jobs st))) m) in
  jobs st' !! length (jobs st)
    = Some (Cleared (Some (Z.of_nat (size (disk st))))) /\
  disk st' = ∅.
Proof.
  intros Hok Hm. cbv zeta. set (j := length (jobs st)).
  rewrite run_cons. cbn [step]. set (st0 := add_job ClearReaddir st).
  assert (Hj0 : jobs st0 !! j = Some ClearReaddir)
    by (subst st0 j; cbn [add_job jobs]; apply list_lookup_middle; reflexivity).
  destruct m as [|m]; [lia|]. cbn [repeat]. rewrite run_cons.
  rewrite (fs_clear_readdir st0 j Hj0).
  change (disk st0) with (disk st).
  set (st1 := set_job j _ st0).
  destruct (clear_pass (length (readdir (disk st))) j (readdir (disk st)) st1 m)
    as [Hend Hdisk].
  - apply CacheFacts.NoDup_readdir.
  - intros n Hn. apply CacheFacts.elem_of_readdir in Hn.
    split; [now apply Hok | exact Hn].
  - apply (job_set st0 j _ _ Hj0).
  - rewrite CacheFacts.length_readdir. lia.
  - rewrite CacheFacts.length_readdir in Hend. split; [exact Hend|].
    apply map_eq. intros name. rewrite Hdisk, lookup_empty.
    change (disk st1) with (disk st).
    destruct (decide (name ∈ readdir (disk st))) as [_|Hnot]; [reflexivity|].
    destruct (disk st !! name) as [f|] eqn:Hf; [|reflexivity].
    destruct Hnot. apply CacheFacts.elem_of_readdir. now exists f.
Qed.

(** *** C6 and C7: the sweep and the clearing *)



(** A pass of the sweep never gets to unlink a file that it sees younger
    than [maxAge]. *)
Lemma sweep_sparing_step (st : state) (j : nat) (now0 : Z) (name : list Z)
    (f : file) :
  now0 - f_mtime f <= maxAge -> disk st !! name = Some f ->
  Coordination.sweep_sparing j now0 name st ->
  disk (step st (Fs j)) !! name = Some f /\
  Coordination.sweep_sparing j now0 name (step st (Fs j)).
Proof.
  intros Hage Hf [[Hj Hnow]|[(n & rest & Hj)|[(n & rest & Hj & Hne)|Hj]]].
  - rewrite (fs_sweep_readdir st j Hj), Hnow. split; [exact Hf|].
    pose proof (job_set st j _ (sweep_next now0 (readdir (disk st))) Hj) as Hj'.
    destruct (readdir (disk st)) as [|n rest]; cbn [sweep_next] in *.
    + right. right. now right.
    + right. left. now exists n, rest.
  - rewrite (fs_sweep_stat st j now0 n rest Hj).
    destruct (stat (disk st) (Path.join tempDir n)) as [stats|] eqn:Hstat.
    + destruct (Z.gtb_spec (now0 - f_mtime stats) maxAge) as [Hold|Hyoung].
      * split; [exact Hf|]. right. right. left. exists n, rest.
        split; [apply (job_set st j _ _ Hj)|].
        intros Hn. unfold stat in Hstat. rewrite Hn, Hf in Hstat.
        injection Hstat as <-. lia.
      * split; [exact Hf|].
        pose proof (job_set st j _ (sweep_next now0 rest) Hj) as Hj'.
        destruct rest as [|n' rest]; cbn [sweep_next] in *.
        -- right. right. now right.
        -- right. left. now exists n', rest.
    + split; [exact Hf|]. right. right. right. apply (job_set st j _ _ Hj).
  - rewrite (fs_sweep_unlink st j now0 n rest Hj).
    destruct (unlink (disk st) (Path.join tempDir n)) as [d'|] eqn:Hun.
    + apply CacheFacts.unlink_spec in Hun as (m & Hm & ->).
      split.
      * cbn [set_job set_disk disk]. rewrite lookup_delete_ne; [exact Hf|].
        intros ->. now apply Hne.
      * pose proof (job_set (set_disk (delete m (disk st)) st) j
                      (SweepUnlink now0 n rest) (sweep_next now0 rest) Hj) as Hj'.
        destruct rest as [|n' rest]; cbn [sweep_next] in *.
        -- right. right. now right.
        -- right. left. now exists n', rest.
    + split; [exact Hf|]. right. right. right. apply (job_set st j _ _ Hj).
  - assert (Hs : step st (Fs j) = st)
      by (cbn [step]; unfold fs_done; now rewrite Hj).
    rewrite Hs. split; [exact Hf|]. right. right. now right.
Qed.

Lemma sweep_sparing_run (m : nat) (st : state) (j : nat) (now0 : Z)
    (name : list Z) (f : file) :
  now0 - f_mtime f <= maxAge -> disk st !! name = Some f ->
  Coordination.sweep_sparing j now0 name st ->
  disk (run st (repeat (Fs j) m)) !! name = Some f.
Proof.
  intros Hage. revert st. induction m as [|m IH]; intros st Hf Hinv;
    [exact Hf|].
  cbn [repeat]. rewrite run_cons.
  destruct (sweep_sparing_step st j now0 name f Hage Hf Hinv) as [Hf' Hinv'].
  now apply IH.
Qed.

(** C7 (as amended).  A pass of [cleanupOldFiles] that nothing
    interleaves with leaves, at every point of the pass, every file as it
    is whose modification time is at most [maxAge] before the call,
    whether a download writes to it or not; and whatever runs in between,
    a file whose [fs.stat] shows the pass such a modification time is
    passed over without an unlink.  [clearCache] unlinks every name that
    [readdir] gave it, with no look at the file: when its unlink of a name
    completes, no file of that name is left, and a clearing that nothing
    interleaves with leaves the directory empty. *)
Theorem sweep_keeps_recent_clear_removes_all (st : state) :
  reachable st ->
  let j := length (jobs st) in
  (forall m name f,
     disk st !! name = Some f -> now st - f_mtime f <= maxAge ->
     disk (run st (Sweep :: repeat (Fs j) m)) !! name = Some f) /\
  (forall st1 j1 now0 n rest stats,
     jobs st1 !! j1 = Some (SweepStat now0 n rest) ->
     stat (disk st1) (Path.join tempDir n) = Some stats ->
     now0 - f_mtime stats <= maxAge ->
     step st1 (Fs j1) = set_job j1 (sweep_next now0 rest) st1) /\
  (forall st1 j1 count n rest,
     jobs st1 !! j1 = Some (ClearUnlink count n rest) ->
     stat (disk (step st1 (Fs j1))) (Path.join tempDir n) = None) /\
  (forall m, (size (disk st) < m)%nat ->
     disk (run st (Clear :: repeat (Fs j) m)) = ∅).
Proof.
  intros Hreach j. split; [|split; [|split]].
  - intros m name f Hf Hage. rewrite run_cons. cbn [step].
    apply (sweep_sparing_run m (add_job SweepReaddir st) j (now st) name f
             Hage Hf).
    left. split; [|reflexivity]. subst j. cbn [add_job jobs].
    now apply list_lookup_middle.
  - intros st1 j1 now0 n rest stats Hj Hstat Hage.
    rewrite (fs_sweep_stat st1 j1 now0 n rest Hj), Hstat.
    destruct (Z.gtb_spec (now0 - f_mtime stats) maxAge); [lia | reflexivity].
  - intros st1 j1 count n rest Hj.
    rewrite (fs_clear_unlink st1 j1 count n rest Hj).
    pose proof (CacheFacts.unlink_quiet_gone (disk st1) (Path.join tempDir n))
      as Hgone.
    unfold unlink_quiet in Hgone.
    destruct (unlink (disk st1) (Path.join tempDir n)); exact Hgone.
  - intros m Hm.
    now apply (clear_run st m (reachable_names_ok st Hreach)).
Qed.

(** The theorem while a transfer is writing the cache file. *)
Lemma sweep_keeps_recent_clear_removes_all_witness :
  disk (run Sample.downloading (Sweep :: repeat (Fs 0) 3)) !! Sample.name
    = Some {| f_mtime := 0; f_size := 100; f_ino := 0 |} /\
  disk (run Sample.downloading (Clear :: repeat (Fs 0) 2)) = ∅.
Proof.
  destruct (sweep_keeps_recent_clear_removes_all Sample.downloading)
    as (Hsweep & _ & _ & Hclear).
  - eexists. reflexivity.
  - split.
    + apply (Hsweep 3%nat); [reflexivity | vm_compute; discriminate].
    + apply (Hclear 2%nat). vm_compute. lia.
Defined.

(** C7 as stated fails: [clearCache] removes the file a
    download in flight is writing, and so does the sweep once that file
    has not been written to for more than an hour. *)
Lemma clear_removes_active_target :
  let clearing := run Sample.downloading [Clear; Fs 0] in
  active_target clearing Sample.name = true /\
  jobs clearing = [ClearUnlink 1 Sample.name []] /\
  disk (step clearing (Fs 0)) !! Sample.name = None /\
  let sweeping := run Sample.downloading [Tick 3600001; Sweep; Fs 0; Fs 0] in
  active_target sweeping Sample.name = true /\
  jobs sweeping = [SweepUnlink 3600001 Sample.name []] /\
  disk (step sweeping (Fs 0)) !! Sample.name = None.
Proof. repeat split; reflexivity. Qed.

(** *** C3: the cache hit *)

(** A call for an identifier that is in [downloadQueue] returns the
    queued promise and starts nothing. *)
Lemma call_joins_registered (st : state) serverId remotePath videoId (p : nat) :
  downloadQueue st !! videoId = Some p ->
  let st' := call serverId remotePath videoId st in
  tasks st' = tasks st ++ [Returned p] /\
  downloads st' = downloads st /\ downloadQueue st' = downloadQueue st.
Proof. intros H. unfold call. rewrite H. cbn. auto. Qed.

(** What a task does when it resumes from [await fs.stat(localPath)]. *)
Lemma stat_done_spec (st : state) (k : nat) serverId remotePath videoId lp :
  tasks st !! k = Some (AtStat serverId remotePath videoId lp) ->
  stat_done k st =
  match stat (disk st) lp with
  | Some f =>
      if now st - f_mtime f <? freshnessThreshold then
        set_task k
          (Settled (Fulfilled {| success := true; localPath := lp;
                                 downloadedBytes := None; cached := true |})) st
      else start_download k serverId remotePath videoId lp st
  | None => start_download k serverId remotePath videoId lp st
  end.
Proof. intros H. unfold stat_done. now rewrite H. Qed.




(** *** C4: a failed download *)




(** *** C2: concurrent first requests *)

(** A caller that arrives while the identifier is in [downloadQueue]
    observes what the registered promise is settled with. *)
Lemma joined_caller_observes_promise
    (st : state) serverId remotePath videoId (p : nat) :
  downloadQueue st !! videoId = Some p ->
  let st' := call serverId remotePath videoId st in
  tasks st' !! length (tasks st) = Some (Returned p) /\
  downloads st' = downloads st.
Proof.
  intros H st'. destruct (call_joins_registered st serverId remotePath videoId p H)
    as (Ht & Hd & _).
  subst st'. rewrite Ht, Hd. split; [apply list_lookup_middle|]; reflexivity.
Qed.

(** Any number of callers that arrive while the identifier is in
    [downloadQueue] start no transfer and all hold the same promise. *)
Lemma callers_share_registered_promise
    (n : nat) (st : state) serverId remotePath videoId (p : nat) :
  downloadQueue st !! videoId = Some p ->
  let st' := run st (repeat (Call serverId remotePath videoId) n) in
  tasks st' = tasks st ++ repeat (Returned p) n /\
  downloads st' = downloads st /\ downloadQueue st' = downloadQueue st.
Proof.
  revert st. induction n as [|n IH]; intros st Hq.
  - cbn. now rewrite app_nil_r.
  - cbn [repeat run fold_left step].
    destruct (call_joins_registered st serverId remotePath videoId p Hq)
      as (Ht & Hd & Hqueue).
    destruct (IH (call serverId remotePath videoId st)) as (Ht' & Hd' & Hq').
    { now rewrite Hqueue. }
    unfold run in Ht', Hd', Hq'. rewrite Ht', Hd', Hq', Ht, Hd, Hqueue.
    now rewrite <- app_assoc.
Qed.

(** C2, at the failing input.  Two requests for the same identifier,
    with no cache file, both call [downloadVideoToTemp] before the
    [fs.stat] of either has completed: each finds [downloadQueue] empty,
    and each starts a transfer of its own.  When the first transfer
    finishes, its continuation deletes the entry of the second from
    [downloadQueue]; a third caller arriving then, with the second
    transfer still in flight, is not joined to it: it is given the file
    as a cache hit, and the file is removed when the second transfer
    fails and the unlink of its handler completes. *)
Theorem racing_requests_start_two_transfers :
  transfers_of Sample.racing Sample.remotePath = 2%nat /\
  List.map in_flight (downloads Sample.racing) = [true; true] /\
  tasks Sample.racing = [AtAwait Sample.videoId 0; AtAwait Sample.videoId 1] /\
  let later :=
    run Sample.racing [SftpReady 0; SftpReady 1; Data 0 100; Finish 0] in
  downloadQueue later !! Sample.videoId = None /\
  List.map in_flight (downloads later) = [false; true] /\
  let third :=
    run later [Call 1 Sample.remotePath Sample.videoId; StatDone 2;
               ReadError 1 (js "ECONNRESET"); Fs 0] in
  List.map (observed third) (tasks third) =
    [Some (Fulfilled {| success := true; localPath := Sample.localPath;
                        downloadedBytes := Some 100; cached := false |});
     Some (Rejected (js "ECONNRESET"));
     Some (Fulfilled {| success := true; localPath := Sample.localPath;
                        downloadedBytes := None; cached := true |})] /\
  stat (disk third) Sample.localPath = None.
Proof. repeat split; reflexivity. Qed.

End CoordinatorFacts.

(* ===================================================================== *)
(** ** Further properties of the identifiers                              *)
(* ===================================================================== *)

Module VideoIdProps.
Import JS Buffer BufferFacts.

(** The bytes a route reads from the identifier of a path are the UTF-8
    bytes of the path. *)
Lemma bytes_of_identifier (P : list Z) :
  isWellFormed P = true -> from_base64 (VideoId.encode P) = from_string P.
Proof.
  intros Hw. unfold VideoId.encode. apply from_base64_toString.
  now apply from_string_bytes, isWellFormed_units.
Qed.

(** X1.  The identifier is unique per path, as the comment on its
    construction says: two different well-formed paths never get the same
    identifier. *)
Theorem distinct_paths_have_distinct_identifiers (P Q : list Z) :
  isWellFormed P = true -> isWellFormed Q = true -> P <> Q ->
  VideoId.encode P <> VideoId.encode Q.
Proof.
  intros HP HQ Hne Heq. apply Hne.
  rewrite <- (toString_from_string P HP), <- (toString_from_string Q HQ).
  rewrite <- (bytes_of_identifier P HP), <- (bytes_of_identifier Q HQ).
  now rewrite Heq.
Qed.

(** The theorem at two files of one folder. *)
Lemma distinct_paths_have_distinct_identifiers_witness :
  VideoId.encode (js "/usr/local/WowzaStreamingEngine/content/alice/clips/a.mp4")
  <> VideoId.encode (js "/usr/local/WowzaStreamingEngine/content/alice/clips/b.mp4").
Proof.
  apply distinct_paths_have_distinct_identifiers;
    [reflexivity | reflexivity | intros H; vm_compute in H; discriminate H].
Defined.

Lemma base64_length (bs : list Z) :
  Z.of_nat (length (toString_base64 bs)) = 4 * ((Z.of_nat (length bs) + 2) / 3).
Proof.
  induction bs as [| a | a b | a b c l IH] using triples_ind;
    try reflexivity.
  cbn [toString_base64 app length]. rewrite !Nat2Z.inj_succ, IH.
  Z.to_euclidean_division_equations; lia.
Qed.

Lemma b64_char_in (i : Z) : In (b64_char i) b64_alphabet \/ b64_char i = pad.
Proof.
  unfold b64_char.
  destruct (nth_in_or_default (Z.to_nat i) b64_alphabet 61); [left | right];
    assumption.
Qed.

Lemma base64_alphabet (bs : list Z) :
  List.Forall (fun c => In c b64_alphabet \/ c = pad) (toString_base64 bs).
Proof.
  induction bs as [| a | a b | a b c l IH] using triples_ind;
    cbn [toString_base64 app];
    repeat (apply List.Forall_cons;
            [first [apply b64_char_in | right; reflexivity]|]);
    first [exact IH | apply List.Forall_nil].
Qed.

(** X2.  An identifier is written with the letters, the digits, [+], [/]
    and [=] only, four characters for every three UTF-8 bytes of the path
    (the last group padded): the characters [/], [+] and [=] can occur in
    the cache file name and in the URL that carry it. *)
Theorem identifier_shape (P : list Z) :
  let id := VideoId.encode P in
  Z.of_nat (length id) = 4 * ((Z.of_nat (length (from_string P)) + 2) / 3) /\
  List.Forall (fun c => In c b64_alphabet \/ c = pad) id.
Proof.
  split; [apply base64_length | apply base64_alphabet].
Qed.

End VideoIdProps.

(* ===================================================================== *)
(** ** Further properties of the stream route                             *)
(* ===================================================================== *)

Module StreamProps.
Import JS Route RouteFacts.

(** The route as the composition of its admission test, the download and
    [serve_local]. *)
Lemma stream_admitted E userId userLogin videoId range :
  includes (VideoId.decode videoId) (js "/" ++ userLogin ++ js "/") = true ->
  let remotePath := VideoId.decode videoId in
  let serverId := match serverRows E userId with r :: _ => r | [] => 1 end in
  let pre := [DbQuery userId; GetVideoStream serverId remotePath videoId] in
  stream E userId userLogin videoId range =
  match vsm_getVideoStream E serverId remotePath videoId with
  | inr _ => (error_response 500 InternalError, pre)
  | inl sr =>
      if negb (Manager.sr_success sr) then (error_response 500 StreamError, pre)
      else
        match Manager.sr_type sr with
        | Manager.Local =>
            (fst (serve_local E remotePath (Manager.sr_path sr) range),
             pre ++ snd (serve_local E remotePath (Manager.sr_path sr) range))
        | Manager.Other => (error_response 500 UnsupportedStream, pre)
        end
  end.
Proof.
  intros H remotePath serverId pre. unfold stream. rewrite H. cbn [negb].
  fold remotePath. fold serverId. fold pre.
  destruct (vsm_getVideoStream E serverId remotePath videoId) as [sr|];
    [|reflexivity].
  destruct (negb (Manager.sr_success sr)); [reflexivity|].
  destruct (Manager.sr_type sr); [|reflexivity].
  now destruct (serve_local E remotePath (Manager.sr_path sr) range).
Qed.

Lemma serve_local_status E remotePath localPath range :
  let r := fst (serve_local E remotePath localPath range) in
  status r = 200 \/ status r = 206 \/ status r = 500.
Proof.
  unfold serve_local.
  destruct (fs_stat E localPath) as [size|]; [|auto].
  destruct (negb (valid_header_value _)); [auto|].
  destruct range as [r|]; [|auto].
  destruct (Path.is_empty r); [auto|]. cbv zeta.
  destruct (createReadStream _ _); auto.
Qed.

Lemma serve_local_effects E remotePath localPath range :
  existsb is_remote (snd (serve_local E remotePath localPath range)) = false.
Proof.
  unfold serve_local.
  destruct (fs_stat E localPath) as [size|]; [|reflexivity].
  destruct (negb (valid_header_value _)); [reflexivity|].
  destruct range as [r|]; [|reflexivity].
  destruct (Path.is_empty r); [reflexivity|]. cbv zeta.
  destruct (createReadStream _ _); reflexivity.
Qed.

(** X3.  Whatever the identifier, the caller, the Range header and the
    answers of the database, the download and the file system, the route
    answers 200, 206, 403 or 500: it has no 404 for an unknown video and
    no 416 for a range it cannot satisfy. *)
Theorem stream_status_codes E userId userLogin videoId range :
  let r := fst (stream E userId userLogin videoId range) in
  status r = 200 \/ status r = 206 \/ status r = 403 \/ status r = 500.
Proof.
  intros r. subst r.
  destruct (includes (VideoId.decode videoId) (js "/" ++ userLogin ++ js "/"))
    eqn:Hinc.
  - rewrite (stream_admitted E userId userLogin videoId range Hinc). cbv zeta.
    destruct (vsm_getVideoStream _ _ _ _) as [sr|]; [|cbn; auto].
    destruct (negb (Manager.sr_success sr)); [cbn; auto|].
    destruct (Manager.sr_type sr); [|cbn; auto].
    cbn [fst].
    destruct (serve_local_status E (VideoId.decode videoId)
                (Manager.sr_path sr) range) as [H|[H|H]]; auto.
  - rewrite (stream_denied E userId userLogin videoId range Hinc). cbn. auto.
Qed.

(** After a query that has resolved: the database, then the manager,
    and nothing remote after that. *)
Lemma admitted_effects E userId userLogin videoId range :
  includes (VideoId.decode videoId) (js "/" ++ userLogin ++ js "/") = true ->
  let remotePath := VideoId.decode videoId in
  let serverId := match serverRows E userId with r :: _ => r | [] => 1 end in
  let r := stream E userId userLogin videoId range in
  status (fst r) <> 403 /\
  exists rest,
    snd r = DbQuery userId :: GetVideoStream serverId remotePath videoId :: rest
    /\ existsb is_remote rest = false.
Proof.
  intros Hinc remotePath serverId r. subst r remotePath.
  rewrite (stream_admitted E userId userLogin videoId range Hinc). cbv zeta.
  fold serverId.
  destruct (vsm_getVideoStream _ _ _ _) as [sr|];
    [|split; [discriminate | exists []; split; reflexivity]].
  destruct (negb (Manager.sr_success sr));
    [split; [discriminate | exists []; split; reflexivity]|].
  destruct (Manager.sr_type sr);
    [|split; [discriminate | exists []; split; reflexivity]].
  cbn [fst snd]. split.
  - destruct (serve_local_status E (VideoId.decode videoId)
                (Manager.sr_path sr) range) as [H|[H|H]];
      rewrite H; discriminate.
  - eexists. split; [reflexivity|]. apply serve_local_effects.
Qed.

(** X4.  A request that fails the ownership test is answered 403 without
    any operation outside the process.  A request that passes it queries
    the database once.  When the query rejects, the answer is the 500 of
    the outer [catch] and nothing else is done.  When it resolves, the
    manager is asked for the video once, on the server of the first row
    (server 1 when there is no row), and nothing remote is done after
    that, whatever the manager and the file system answer.  A request
    that passes the test is never answered 403. *)
Theorem one_remote_operation_per_request
    (E : Handler.env) userId userLogin videoId range :
  let remotePath := VideoId.decode videoId in
  let r := Handler.stream E userId userLogin videoId range in
  if includes remotePath (js "/" ++ userLogin ++ js "/") then
    status (fst r) <> 403 /\
    match Handler.db_execute E userId with
    | None => r = (error_response 500 InternalError, [DbQuery userId])
    | Some rows =>
        let serverId := match rows with s :: _ => s | [] => 1 end in
        exists rest,
          snd r =
            DbQuery userId :: GetVideoStream serverId remotePath videoId :: rest
          /\ existsb is_remote rest = false
    end
  else r = (error_response 403 AccessDenied, []).
Proof.
  intros remotePath r. subst r remotePath. unfold Handler.stream.
  destruct (includes (VideoId.decode videoId) (js "/" ++ userLogin ++ js "/"))
    eqn:Hinc; cbn [negb]; [|reflexivity].
  destruct (Handler.db_execute E userId) as [rows|].
  - destruct (admitted_effects (Handler.resolved E rows) userId userLogin
                videoId range Hinc) as [Hst Heffs].
    split; [exact Hst | exact Heffs].
  - split; [discriminate | reflexivity].
Qed.

(** *** Ranges *)

Section Served.

Variables (E : env) (userId : Z) (userLogin videoId localPath : list Z).
Variable size : Z.
Hypothesis Hserved : served E userId userLogin videoId localPath size.

(** X5.  An open-ended range [bytes=s-] runs to the last byte of the file:
    the answer is 206 with [Content-Range: bytes s-(size-1)/size] and
    [Content-Length: size-s] when [s] is an offset of the file.  When [s]
    is at or beyond the end of the file (always so for an empty file) the
    read stream cannot be opened and the answer is 500. *)
Theorem open_ended_range (first : list Z) :
  all_digits first = true ->
  let s := digits_value 0 first in
  let r := fst (stream E userId userLogin videoId
                  (Some (js "bytes=" ++ first ++ js "-"))) in
  (s <= size - 1 <= maxSafe ->
     status r = 206 /\
     In (ContentRange (Int s) (Int (size - 1)) size) (headers r) /\
     In (ContentLength (Int (size - s))) (headers r) /\
     content r = Pipe localPath (Some (s, size - 1))) /\
  (size - 1 < s -> status r = 500).
Proof using Hserved.
  intros Hf s r. subst r.
  rewrite (stream_served E userId userLogin videoId localPath size Hserved).
  change (Path.is_empty (js "bytes=" ++ first ++ js "-")) with false.
  cbv iota zeta.
  destruct (all_digits_cons first Hf) as (_ & _ & _ & _ & Hdf).
  change (remove_first (js "bytes=") (js "bytes=" ++ first ++ js "-"))
    with (first ++ 45 :: []).
  rewrite (split_on_once 45 first [] (digits_have_no_dash first Hdf) eq_refl).
  cbn [nth nth_error Path.is_empty].
  rewrite (parseInt_digits first Hf). fold s.
  pose proof (digits_value_nonneg first 0 ltac:(lia)) as Hs0. fold s in Hs0.
  split.
  - intros [Hse He].
    rewrite (proj2 (Z.leb_le s maxSafe) ltac:(lia)).
    unfold createReadStream. cbn [valid_position].
    rewrite (proj2 (Z.leb_le 0 s) Hs0), (proj2 (Z.leb_le s maxSafe) ltac:(lia)).
    rewrite (proj2 (Z.leb_le 0 (size - 1)) ltac:(lia)).
    rewrite (proj2 (Z.leb_le (size - 1) maxSafe) He).
    cbn [andb]. rewrite (proj2 (Z.leb_le s (size - 1)) Hse).
    cbn [status headers content num_sub num_succ].
    replace (size - 1 - s + 1) with (size - s) by lia.
    repeat split.
    + apply in_setHeader_old; [reflexivity | apply in_setHeader_new].
    + apply in_setHeader_new.
  - intros Hbad. unfold createReadStream.
    destruct (valid_position (if s <=? maxSafe then Int s else Huge))
      as [s'|] eqn:Es; [|reflexivity].
    destruct (valid_position (Int (size - 1))) as [e'|] eqn:Ee; [|reflexivity].
    destruct (Z.leb_spec s maxSafe); [|discriminate].
    cbn [valid_position] in Es, Ee.
    destruct ((0 <=? s) && (s <=? maxSafe)); [|discriminate].
    destruct ((0 <=? size - 1) && (size - 1 <=? maxSafe)); [|discriminate].
    injection Es as <-. injection Ee as <-.
    destruct (Z.leb_spec s (size - 1)); [lia | reflexivity].
Qed.

(** X6.  A suffix range [bytes=-n] (the last [n] bytes) is not understood:
    the start is read from the empty text before the dash, which is not a
    number, and the answer is 500, whatever follows the dash. *)
Theorem suffix_range_is_an_error (t : list Z) :
  fst (stream E userId userLogin videoId (Some (js "bytes=-" ++ t)))
  = error_response 500 LocalFileError.
Proof using Hserved.
  rewrite (stream_served E userId userLogin videoId localPath size Hserved).
  change (Path.is_empty (js "bytes=-" ++ t)) with false. cbv iota zeta.
  change (remove_first (js "bytes=") (js "bytes=-" ++ t)) with (45 :: t).
  change (Path.split_on 45 (45 :: t)) with ([] :: Path.split_on 45 t).
  reflexivity.
Qed.

End Served.

(** The theorems at a file of 1000 bytes: [bytes=100-], then [bytes=1000-]
    and [bytes=-500]. *)
Lemma sample_served :
  served (Sample.env 1000) 7 (js "alice") Sample.videoId Sample.localPath 1000.
Proof.
  repeat split; try reflexivity. eexists. reflexivity.
Defined.

Lemma open_ended_range_witness :
  let r := fst (stream (Sample.env 1000) 7 (js "alice") Sample.videoId
                  (Some (js "bytes=100-"))) in
  let r' := fst (stream (Sample.env 1000) 7 (js "alice") Sample.videoId
                   (Some (js "bytes=1000-"))) in
  (status r = 206 /\ In (ContentRange (Int 100) (Int 999) 1000) (headers r) /\
   In (ContentLength (Int 900)) (headers r) /\
   content r = Pipe Sample.localPath (Some (100, 999))) /\
  status r' = 500.
Proof.
  split.
  - apply (proj1 (open_ended_range (Sample.env 1000) 7 (js "alice")
                    Sample.videoId Sample.localPath 1000 sample_served
                    (js "100") eq_refl)).
    vm_compute. split; discriminate.
  - apply (proj2 (open_ended_range (Sample.env 1000) 7 (js "alice")
                    Sample.videoId Sample.localPath 1000 sample_served
                    (js "1000") eq_refl)).
    vm_compute. reflexivity.
Defined.

Lemma suffix_range_is_an_error_witness :
  fst (stream (Sample.env 1000) 7 (js "alice") Sample.videoId
         (Some (js "bytes=-500")))
  = error_response 500 LocalFileError.
Proof.
  apply (suffix_range_is_an_error (Sample.env 1000) 7 (js "alice")
           Sample.videoId Sample.localPath 1000 sample_served (js "500")).
Defined.




(** *** File names *)

Lemma disposition_needs_valid_name (fileName : list Z) (c : Z) :
  In c fileName -> valid_header_char c = false ->
  valid_header_value (js "inline; filename=" ++ quote :: fileName ++ [quote])
  = false.
Proof.
  intros Hin Hc. unfold valid_header_value.
  rewrite forallb_app. apply andb_false_iff. right.
  cbn [forallb]. apply andb_false_iff. right.
  rewrite forallb_app. apply andb_false_iff. left.
  destruct (forallb valid_header_char fileName) eqn:Hall; [|reflexivity].
  rewrite forallb_forall in Hall. rewrite (Hall c Hin) in Hc. discriminate.
Qed.

(** X8.  The file name goes into the [Content-Disposition] header as it
    is.  When it holds a character that Node refuses in a header value (a
    control character, or any character above U+00FF) the header cannot
    be set: the video has been downloaded and [fs.stat] has succeeded, yet
    the answer is 500 and no read stream is opened, for every request,
    with or without a Range header. *)
Theorem unprintable_file_name_is_an_error
    E userId userLogin videoId localPath size cached (c : Z) range :
  let remotePath := VideoId.decode videoId in
  let serverId := match serverRows E userId with r :: _ => r | [] => 1 end in
  includes remotePath (js "/" ++ userLogin ++ js "/") = true ->
  vsm_getVideoStream E serverId remotePath videoId =
    inl {| Manager.sr_success := true; Manager.sr_type := Manager.Local;
           Manager.sr_path := localPath; Manager.sr_cached := cached |} ->
  fs_stat E localPath = Some size ->
  In c (Path.basename remotePath) -> valid_header_char c = false ->
  stream E userId userLogin videoId range =
  (error_response 500 LocalFileError,
   [DbQuery userId; GetVideoStream serverId remotePath videoId;
    FsStat localPath]).
Proof.
  intros remotePath serverId Hinc Hget Hstat Hin Hc.
  rewrite (stream_admitted E userId userLogin videoId range Hinc). cbv zeta.
  fold remotePath. fold serverId. rewrite Hget.
  cbn [Manager.sr_success Manager.sr_type Manager.sr_path negb].
  unfold serve_local. rewrite Hstat.
  rewrite (disposition_needs_valid_name _ c Hin Hc). reflexivity.
Qed.

(** The theorem at a file with a Cyrillic name. *)
Lemma unprintable_file_name_is_an_error_witness :
  let remotePath :=
    js "/usr/local/WowzaStreamingEngine/content/alice/clips/"
      ++ [0x43A; 0x43B; 0x438; 0x43F] ++ js ".mp4" in
  let videoId := VideoId.encode remotePath in
  stream (Sample.env 1000) 7 (js "alice") videoId (Some (js "bytes=0-99")) =
  (error_response 500 LocalFileError,
   [DbQuery 7; GetVideoStream 1 remotePath videoId; FsStat Sample.localPath]).
Proof.
  intros remotePath videoId.
  replace remotePath with (VideoId.decode videoId) at 2 by reflexivity.
  apply (unprintable_file_name_is_an_error (Sample.env 1000) 7 (js "alice")
           videoId Sample.localPath 1000 true 0x43A (Some (js "bytes=0-99")));
    try reflexivity.
  vm_compute. tauto.
Defined.

End StreamProps.

(* ===================================================================== *)
(** ** Further properties of the proxy gateway                            *)
(* ===================================================================== *)

Module ProxyProps.
Import JS Proxy ProxyFacts.

(** The middleware by cases on what the origin gives back. *)
Lemma middleware_cases isProduction net req :
  let requestPath :=
    if startsWith (path req) (js "/") then path req else js "/" ++ path req in
  let hs := headersFor requestPath (range req) in
  let first :=
    {| url := wowzaUrl isProduction requestPath; method := reqMethod req;
       requestHeaders := hs;
       timeout := if isStreamFile requestPath then 5000 else 30000 |} in
  let second :=
    {| url := alternativeUrl isProduction requestPath;
       method := reqMethod req; requestHeaders := hs; timeout := 30000 |} in
  let notFound status1 :=
    SendJson 404
      (VideoNotFound requestPath
         (wowzaHost isProduction ++ js ":6980/content" ++ requestPath)
         status1) in
  let r := middleware isProduction net req in
  r = (Next, []) \/
  r = (SendJson 404 UnsupportedFile, []) \/
  (net 0%nat first = Failure /\ r = (SendJson 500 StreamingServerError, [first])) \/
  (exists status1 headers1,
     net 0%nat first = Response status1 headers1 /\
     ((ok status1 = true /\ r = (PipeUpstream 0 headers1, [first])) \/
      (ok status1 = false /\ status1 <> 401 /\ status1 <> 403 /\
       r = (notFound status1, [first])) \/
      (ok status1 = false /\ (status1 = 401 \/ status1 = 403) /\
       ((net 1%nat second = Failure /\
         r = (SendJson 500 StreamingServerError, [first; second])) \/
        (exists status2 headers2,
           net 1%nat second = Response status2 headers2 /\
           ((ok status2 = true /\ r = (PipeUpstream 1 headers2, [first; second]))
            \/ (ok status2 = false /\ r = (notFound status1, [first; second])))))))).
Proof.
  intros requestPath hs first second notFound r. subst r.
  unfold middleware. fold requestPath.
  destruct (includes requestPath (js "/api/videos-ssh/")); [now left|].
  destruct (negb (isVideoFile requestPath) && negb (isStreamFile requestPath));
    [right; now left|].
  fold hs. fold first. right. right.
  destruct (net 0%nat first) as [status1 headers1|] eqn:Hnet; [right | now left].
  exists status1, headers1. split; [reflexivity|].
  destruct (ok status1) eqn:Hok; [now left | right].
  destruct (Z.eqb_spec status1 401) as [H401|H401].
  - right. split; [reflexivity|]. split; [now left|].
    cbn [orb]. fold second. fold (notFound status1).
    destruct (net 1%nat second) as [status2 headers2|] eqn:Hnet2; [right | now left].
    exists status2, headers2. split; [reflexivity|].
    destruct (ok status2); [left | right]; split; reflexivity.
  - cbn [orb]. destruct (Z.eqb_spec status1 403) as [H403|H403].
    + right. split; [reflexivity|]. split; [now right|].
      fold second. fold (notFound status1).
      destruct (net 1%nat second) as [status2 headers2|] eqn:Hnet2;
        [right | now left].
      exists status2, headers2. split; [reflexivity|].
      destruct (ok status2); [left | right]; split; reflexivity.
    + left. repeat split; assumption.
Qed.

(** Every upstream call is made with the method of the request and the
    headers prepared for it, to one of the two URLs of its path. *)
Lemma calls_shape isProduction net req :
  let requestPath :=
    if startsWith (path req) (js "/") then path req else js "/" ++ path req in
  List.Forall
    (fun c => method c = reqMethod req /\
              requestHeaders c = headersFor requestPath (range req) /\
              (url c = wowzaUrl isProduction requestPath \/
               url c = js "http://" ++ wowzaHost isProduction ++ js ":6980"
                         ++ requestPath))
    (snd (middleware isProduction net req)).
Proof.
  intros requestPath.
  destruct (middleware_cases isProduction net req)
    as [H|[H|[[Hn H]|(s1 & h1 & Hn & [[Hok H]|[(Hok & H1 & H3 & H)|
         (Hok & Hs & [[Hn2 H]|(s2 & h2 & Hn2 & [[Hok2 H]|[Hok2 H]])])]])]]];
    rewrite H; cbn [snd];
    repeat (apply List.Forall_cons; [cbn [method requestHeaders url]; auto|]);
    apply List.Forall_nil.
Qed.

(** X9.  Whatever the origin answers, one request makes at most two
    upstream calls.  Each goes to the configured host for the path of the
    request, with the method of the request and the same headers; a second
    call is made only after the first was answered 401 or 403. *)
Theorem at_most_two_upstream_calls isProduction net req :
  let requestPath :=
    if startsWith (path req) (js "/") then path req else js "/" ++ path req in
  let calls := snd (middleware isProduction net req) in
  (length calls <= 2)%nat /\
  List.Forall
    (fun c => method c = reqMethod req /\
              requestHeaders c = headersFor requestPath (range req) /\
              (url c = wowzaUrl isProduction requestPath \/
               url c = js "http://" ++ wowzaHost isProduction ++ js ":6980"
                         ++ requestPath))
    calls /\
  (length calls = 2%nat ->
   exists c status1 headers1,
     nth_error calls 0 = Some c /\ net 0%nat c = Response status1 headers1 /\
     (status1 = 401 \/ status1 = 403)).
Proof.
  intros requestPath calls. subst calls.
  split; [|split; [apply calls_shape|]];
    destruct (middleware_cases isProduction net req)
      as [H|[H|[[Hn H]|(s1 & h1 & Hn & [[Hok H]|[(Hok & H1 & H3 & H)|
           (Hok & Hs & [[Hn2 H]|(s2 & h2 & Hn2 & [[Hok2 H]|[Hok2 H]])])]])]]];
    rewrite H; cbn [snd length nth_error]; try lia;
    try (intros Hlen; discriminate Hlen);
    intros _; eexists _, s1, h1; (split; [reflexivity|]); split; assumption.
Qed.

Lemma stream_url_no_userinfo isProduction p :
  isStreamFile (47 :: p) = true ->
  userinfo (wowzaUrl isProduction (47 :: p)) = None.
Proof.
  intros H. unfold wowzaUrl. rewrite H. destruct isProduction; reflexivity.
Qed.

Lemma stream_headers_no_authorization requestPath rangeHeader h :
  isStreamFile requestPath = true ->
  In h (headersFor requestPath rangeHeader) -> fst h <> js "Authorization".
Proof.
  intros Hs. unfold headersFor. rewrite Hs. cbn [In].
  intros [<-|[<-|[<-|[<-|[<-|[]]]]]]; cbn [fst]; intros E;
    vm_compute in E; discriminate E.
Qed.

(** X10.  The administrator's credentials are sent for on-demand files
    only.  For a playlist or a segment ([.m3u8], [.ts]) no upstream call
    carries them, neither in its URL nor in an [Authorization] header;
    this holds for the retry as well. *)
Theorem stream_files_carry_no_credentials isProduction net req :
  let requestPath :=
    if startsWith (path req) (js "/") then path req else js "/" ++ path req in
  isStreamFile requestPath = true ->
  List.Forall
    (fun c => userinfo (url c) = None /\
              forall h, In h (requestHeaders c) -> fst h <> js "Authorization")
    (snd (middleware isProduction net req)).
Proof.
  intros requestPath Hs.
  pose proof (calls_shape isProduction net req) as Hall.
  cbv zeta in Hall. fold requestPath in Hall.
  eapply List.Forall_impl; [|exact Hall].
  intros c (_ & Hh & Hu).
  destruct (requestPath_absolute (path req)) as [p' Hp]. fold requestPath in Hp.
  split.
  - destruct Hu as [-> | ->]; rewrite Hp.
    + apply stream_url_no_userinfo. now rewrite <- Hp.
    + apply (alternativeUrl_no_userinfo isProduction p').
  - intros h Hin. rewrite Hh in Hin.
    now apply (stream_headers_no_authorization requestPath (range req)).
Qed.

(** The theorem at a playlist whose origin answers 401, then 403. *)
Lemma stream_files_carry_no_credentials_witness :
  List.Forall
    (fun c => userinfo (url c) = None /\
              forall h, In h (requestHeaders c) -> fst h <> js "Authorization")
    (snd (middleware false Sample.refusing
            {| path := js "/alice/live/playlist.m3u8"; reqMethod := js "GET";
               range := None |})).
Proof.
  apply (stream_files_carry_no_credentials false Sample.refusing
           {| path := js "/alice/live/playlist.m3u8"; reqMethod := js "GET";
              range := None |}).
  reflexivity.
Defined.

(** X11.  A body is piped to the client only from a 2xx reply, and always
    from the last call made (after a retry, never from the first reply).
    Every other reply of the origin, 5xx included, is turned into a 404
    that carries the status of the first reply; an exception of [fetch]
    becomes a 500.  Without a call the answer is the 404 for a path that
    is neither an on-demand file nor a stream file, or the request is
    passed on. *)
Theorem piped_reply_is_a_success isProduction net req :
  let r := middleware isProduction net req in
  let calls := snd r in
  match fst r with
  | Next | SendJson _ UnsupportedFile => calls = []
  | PipeUpstream n copied =>
      length calls = S n /\
      exists c status,
        nth_error calls n = Some c /\ net n c = Response status copied /\
        ok status = true
  | SendJson code (VideoNotFound _ _ status1) =>
      code = 404 /\
      exists c headers1,
        nth_error calls 0 = Some c /\ net 0%nat c = Response status1 headers1 /\
        ok status1 = false
  | SendJson code StreamingServerError =>
      code = 500 /\
      exists n c,
        length calls = S n /\ nth_error calls n = Some c /\ net n c = Failure
  end.
Proof.
  intros r calls. subst calls r.
  destruct (middleware_cases isProduction net req)
    as [H|[H|[[Hn H]|(s1 & h1 & Hn & [[Hok H]|[(Hok & H1 & H3 & H)|
         (Hok & Hs & [[Hn2 H]|(s2 & h2 & Hn2 & [[Hok2 H]|[Hok2 H]])])]])]]];
    rewrite H; cbn [fst snd length nth_error]; try reflexivity.
  - split; [reflexivity|]. eexists 0%nat, _. repeat split. exact Hn.
  - split; [reflexivity|]. eexists _, s1. repeat split; assumption.
  - split; [reflexivity|]. eexists _, h1. repeat split; assumption.
  - split; [reflexivity|]. eexists 1%nat, _. repeat split. exact Hn2.
  - split; [reflexivity|]. eexists _, s2. repeat split; assumption.
  - split; [reflexivity|]. eexists _, h1. repeat split; assumption.
Qed.

End ProxyProps.

(* ===================================================================== *)
(** ** Further properties of the disk cache                               *)
(* ===================================================================== *)

Module CacheProps.
Import JS Manager CacheFacts.

(** *** The local path of a download *)

Lemma str_eqb_eq (a b : list Z) : str_eqb a b = true -> a = b.
Proof.
  revert b. induction a as [|x a IH]; intros [|y b] H; try discriminate;
    [reflexivity|].
  cbn [str_eqb] in H. apply andb_true_iff in H as [Hxy Hab].
  apply Z.eqb_eq in Hxy. subst y. f_equal. now apply IH.
Qed.

Lemma includes_no_slash (s : list Z) :
  forallb (fun c => negb (c =? Path.slash)) s = true ->
  includes s [Path.slash] = false.
Proof.
  induction s as [|c s IH]; intros H; [reflexivity|].
  cbn [forallb] in H. apply andb_true_iff in H as [Hc Hs].
  cbn [includes startsWith]. rewrite (IH Hs), andb_true_r, orb_false_r.
  apply negb_true_iff in Hc. now rewrite Z.eqb_sym.
Qed.

Lemma split_on_segments (sep : Z) (s : list Z) :
  List.Forall (fun seg => forallb (fun c => negb (c =? sep)) seg = true)
    (Path.split_on sep s).
Proof.
  induction s as [|c s IH]; [repeat constructor|].
  cbn [Path.split_on]. destruct (Z.eqb_spec c sep) as [->|Hne].
  - constructor; [reflexivity | exact IH].
  - destruct (Path.split_on sep s) as [|seg segs]; [repeat constructor|].
    + cbn [forallb]. rewrite andb_true_r. apply negb_true_iff.
      now apply Z.eqb_neq.
    + inversion_clear IH as [|? ? Hseg Hsegs]. constructor; [|exact Hsegs].
      cbn [forallb]. rewrite Hseg, andb_true_r. apply negb_true_iff.
      now apply Z.eqb_neq.
Qed.

(** [path.basename] never gives a name with a slash in it. *)
Lemma basename_no_slash (p : list Z) :
  forallb (fun c => negb (c =? Path.slash)) (Path.basename p) = true.
Proof.
  unfold Path.basename.
  pose proof (split_on_segments Path.slash p) as H.
  induction (Path.split_on Path.slash p) as [|seg segs IH]; [reflexivity|].
  inversion_clear H as [|? ? Hseg Hsegs]. specialize (IH Hsegs).
  cbn [List.filter]. destruct (negb (Path.is_empty seg)); [|exact IH].
  cbn [List.last].
  destruct (List.filter (fun seg => negb (Path.is_empty seg)) segs);
    [exact Hseg | exact IH].
Qed.

Lemma local_name_is_file_name (videoId fileName : list Z) :
  includes videoId [Path.slash] = false ->
  forallb (fun c => negb (c =? Path.slash)) fileName = true ->
  is_file_name (videoId ++ js "_" ++ fileName) = true.
Proof.
  intros Hid Hfile. apply no_slash in Hid.
  assert (Hin : In 95 (videoId ++ js "_" ++ fileName))
    by (apply in_or_app; right; now left).
  unfold is_file_name. repeat (apply andb_true_iff; split).
  - destruct videoId; reflexivity.
  - apply negb_true_iff, includes_no_slash.
    rewrite forallb_app, Hid. cbn [andb]. exact Hfile.
  - apply negb_true_iff.
    destruct (str_eqb _ (js ".")) eqn:E; [|reflexivity].
    apply str_eqb_eq in E. rewrite E in Hin.
    destruct Hin as [H|[]]. discriminate H.
  - apply negb_true_iff.
    destruct (str_eqb _ (js "..")) eqn:E; [|reflexivity].
    apply str_eqb_eq in E. rewrite E in Hin.
    destruct Hin as [H|[H|[]]]; discriminate H.
Qed.

Lemma local_path_facts (remotePath videoId : list Z) :
  includes videoId [Path.slash] = false ->
  let name := videoId ++ js "_" ++ Path.basename remotePath in
  is_file_name name = true /\
  Path.join tempDir name = tempDir ++ js "/" ++ name /\
  entry_name (Path.join tempDir name) = Some name.
Proof.
  intros Hid name.
  assert (Hname : is_file_name name = true)
    by (apply local_name_is_file_name; [exact Hid | apply basename_no_slash]).
  split; [exact Hname|]. split.
  - apply (join_file_name name Hname).
  - apply (entry_name_join name Hname).
Qed.

(** X14.  Only the last component of the remote path goes into the local
    path.  For an identifier without a slash, whatever the remote path
    is, the file a download writes lies directly in the cache directory
    and is named [<videoId>_<basename>]: it is the entry that [fs.stat],
    the sweep and the clearing see under that name. *)
Theorem local_path_is_a_cache_entry (remotePath videoId : list Z) :
  includes videoId [Path.slash] = false ->
  let name := videoId ++ js "_" ++ Path.basename remotePath in
  is_file_name name = true /\
  Path.join tempDir name = tempDir ++ js "/" ++ name /\
  entry_name (Path.join tempDir name) = Some name.
Proof. exact (local_path_facts remotePath videoId). Qed.

(** The theorem at a remote path that climbs out of its folder. *)
Lemma local_path_is_a_cache_entry_witness :
  let name := js "abc_passwd" in
  is_file_name name = true /\
  Path.join tempDir (js "abc" ++ js "_" ++ Path.basename (js "../../etc/passwd"))
    = js "/tmp/video-cache/abc_passwd" /\
  entry_name
    (Path.join tempDir (js "abc" ++ js "_" ++ Path.basename (js "../../etc/passwd")))
    = Some name.
Proof.
  apply (local_path_is_a_cache_entry (js "../../etc/passwd") (js "abc")).
  reflexivity.
Defined.

End CacheProps.

(* ===================================================================== *)
(** ** Further properties of the download coordinator                     *)
(* ===================================================================== *)

Module CoordinatorProps.
Import JS Manager CoordinatorFacts.

(** *** The queue holds pending downloads only *)

Lemma resume_queue_subset (p : nat) (o : outcome) (ts : list task)
    (q : gmap (list Z) nat) (v : list Z) (p' : nat) :
  snd (resume p o ts q) !! v = Some p' -> q !! v = Some p'.
Proof.
  revert q. induction ts as [|t ts IH]; intros q; [auto|].
  cbn [resume].
  destruct t as [? ? ? ?|v' p0| |];
    try (specialize (IH q); destruct (resume p o ts q); exact IH).
  destruct (Nat.eqb p0 p).
  - specialize (IH (delete v' q)).
    destruct (resume p o ts (delete v' q)). cbn [snd] in *.
    intros H. specialize (IH H).
    destruct (decide (v' = v)) as [->|Hne].
    + now rewrite lookup_delete_eq in IH.
    + now rewrite lookup_delete_ne in IH.
  - specialize (IH q). destruct (resume p o ts q). exact IH.
Qed.

Lemma queue_ok_same (st st' : state) :
  tasks st' = tasks st -> downloads st' = downloads st ->
  downloadQueue st' = downloadQueue st ->
  Coordination.queue_ok st -> Coordination.queue_ok st'.
Proof. intros Ht Hd Hq H v p. rewrite Ht, Hd, Hq. apply H. Qed.

Lemma queue_ok_set_download (st : state) (p : nat) (dl dl' : download) :
  downloads st !! p = Some dl -> d_settled dl' = d_settled dl ->
  Coordination.queue_ok st -> Coordination.queue_ok (set_download p dl' st).
Proof.
  intros Hdl Hsame H v p'. cbn [set_download downloads tasks downloadQueue].
  intros Hq. destruct (H v p' Hq) as [(dl0 & Hdl0 & Hpend) Hk].
  split; [|exact Hk].
  assert (Hp : (p < length (downloads st))%nat)
    by (eapply lookup_lt_Some; exact Hdl).
  destruct (decide (p = p')) as [<-|Hne].
  - exists dl'. rewrite (list_lookup_insert_eq _ _ _ Hp). split; [reflexivity|].
    congruence.
  - exists dl0. now rewrite list_lookup_insert_ne by exact Hne.
Qed.

Lemma queue_ok_settle (p : nat) (o : outcome) (st : state) :
  Coordination.queue_ok st -> Coordination.queue_ok (settle p o st).
Proof.
  intros H. unfold settle.
  destruct (downloads st !! p) as [dl|] eqn:Hdl; [|exact H].
  destruct (d_settled dl) eqn:Hs; [exact H|].
  pose proof (resume_other p o (tasks st) (downloadQueue st)) as Hother.
  pose proof (resume_unregisters p o (tasks st) (downloadQueue st)) as Hunreg.
  pose proof (resume_queue_subset p o (tasks st) (downloadQueue st)) as Hsub.
  destruct (resume p o (tasks st) (downloadQueue st)) as [ts q].
  cbn [fst snd] in Hother, Hunreg, Hsub.
  intros v p'. cbn [downloads tasks downloadQueue]. intros Hq.
  destruct (H v p' (Hsub v p' Hq)) as [(dl0 & Hdl0 & Hpend) [k Hk]].
  destruct (decide (p = p')) as [<-|Hne].
  - rewrite (Hunreg k v Hk) in Hq. discriminate.
  - split.
    + exists dl0. now rewrite list_lookup_insert_ne by exact Hne.
    + exists k. apply Hother; [exact Hk|]. intros v' [= _ ->]. now apply Hne.
Qed.

Lemma queue_ok_on_error (st : state) (p : nat) (dl : download)
    (ph : phase) (e : list Z) :
  downloads st !! p = Some dl -> Coordination.queue_ok st ->
  Coordination.queue_ok (on_error p dl ph e st).
Proof.
  intros Hdl H. unfold on_error. apply queue_ok_settle.
  apply (queue_ok_set_download _ p dl); [exact Hdl | reflexivity|].
  now apply (queue_ok_same st).
Qed.

Lemma step_queue_ok (st : state) (ev : event) :
  Coordination.queue_ok st -> Coordination.queue_ok (step st ev).
Proof.
  intros H.
  destruct ev as [sid rp vid|k|ms|p e|p|p n|p e|p e|p| | | |j];
    cbn [step]; try (now apply (queue_ok_same st)).
  - (* Call *)
    intros v p Hq. destruct (H v p Hq) as [Hdl [k Hk]].
    split; [exact Hdl|]. exists k. unfold call. cbn [tasks].
    now apply lookup_app_l_Some.
  - (* StatDone *)
    unfold stat_done.
    destruct (tasks st !! k) as [[sid rp vid lp| | |]|] eqn:Hk; try exact H.
    assert (Hkeep : forall t, Coordination.queue_ok (set_task k t st)).
    { intros t v p Hq. destruct (H v p Hq) as [Hdl [k' Hk']].
      split; [exact Hdl|]. exists k'. cbn [set_task tasks].
      rewrite list_lookup_insert_ne; [exact Hk'|]. intros ->. congruence. }
    assert (Hstart : Coordination.queue_ok (start_download k sid rp vid lp st)).
    { intros v p. unfold start_download. cbn [downloads tasks downloadQueue].
      intros Hq. destruct (decide (vid = v)) as [<-|Hne].
      - rewrite lookup_insert_eq in Hq. injection Hq as <-. split.
        + eexists. split;
            [rewrite lookup_app_r by lia; rewrite Nat.sub_diag; reflexivity
            |reflexivity].
        + exists k. apply list_lookup_insert_eq.
          eapply lookup_lt_Some. exact Hk.
      - rewrite lookup_insert_ne in Hq by exact Hne.
        destruct (H v p Hq) as [(dl & Hdl & Hpend) [k' Hk']]. split.
        + exists dl. split; [|exact Hpend]. now apply lookup_app_l_Some.
        + exists k'. rewrite list_lookup_insert_ne; [exact Hk'|].
          intros ->. congruence. }
    destruct (stat (disk st) lp) as [f|]; [|exact Hstart].
    destruct (_ <? _); [apply Hkeep | exact Hstart].
  - (* ConnFail *)
    unfold conn_fail. destruct (downloads st !! p) as [dl|] eqn:Hdl; [|exact H].
    destruct (d_phase dl); try exact H.
    apply queue_ok_settle.
    now apply (queue_ok_set_download st p dl).
  - (* SftpReady *)
    unfold sftp_ready. destruct (downloads st !! p) as [dl|] eqn:Hdl; [|exact H].
    destruct (d_phase dl); try exact H.
    destruct (open_write (d_local dl) st) as [st1 fd] eqn:Eo.
    assert (Hsame : tasks st1 = tasks st /\ downloads st1 = downloads st
                    /\ downloadQueue st1 = downloadQueue st).
    { unfold open_write in Eo.
      destruct (entry_name (d_local dl)); [|now injection Eo as <- _].
      destruct (disk st !! l); now injection Eo as <- _. }
    destruct Hsame as (Ht & Hd & Hq).
    apply (queue_ok_set_download st1 p dl); [now rewrite Hd | reflexivity|].
    now apply (queue_ok_same st).
  - (* Data *)
    unfold data. destruct (downloads st !! p) as [dl|] eqn:Hdl; [|exact H].
    destruct (d_phase dl) as [|fd|[|] w|]; try exact H;
      [|now apply (queue_ok_set_download st p dl)].
    set (st1 := set_download p (with_bytes (d_bytes dl + n) dl) st).
    assert (H1 : Coordination.queue_ok st1)
      by now apply (queue_ok_set_download st p dl).
    apply (queue_ok_same st1); [| | |exact H1];
      unfold write_chunk; destruct fd; try reflexivity;
      destruct (entry_name (d_local dl)); try reflexivity;
      destruct (disk st1 !! l) as [f|]; try reflexivity;
      destruct (Nat.eqb (f_ino f) n0); reflexivity.
  - (* ReadError *)
    unfold read_error.
    destruct (downloads st !! p) as [dl|] eqn:Hdl; [|exact H].
    destruct (d_phase dl) as [|fd|[|] w|]; try exact H;
      now apply queue_ok_on_error.
  - (* WriteError *)
    unfold write_error.
    destruct (downloads st !! p) as [dl|] eqn:Hdl; [|exact H].
    destruct (d_phase dl) as [|fd|r [|]|]; try exact H;
      now apply queue_ok_on_error.
  - (* Finish *)
    unfold finish. destruct (downloads st !! p) as [dl|] eqn:Hdl; [|exact H].
    destruct (d_phase dl) as [|[i|]|r w|]; try exact H.
    apply queue_ok_settle.
    now apply (queue_ok_set_download st p dl).
  - (* Fs *)
    destruct (fs_done_frame j st) as (Ht & Hd & Hq & _).
    now apply (queue_ok_same st).
Qed.

Lemma reachable_queue_ok (st : state) : reachable st -> Coordination.queue_ok st.
Proof.
  intros [evs ->].
  assert (Hrun : forall evs st0,
             Coordination.queue_ok st0 -> Coordination.queue_ok (run st0 evs)).
  { clear evs. induction evs as [|ev evs IH]; intros st0 H0; [exact H0|].
    cbn [run fold_left]. apply IH, step_queue_ok, H0. }
  apply Hrun. intros v p Hq. cbn in Hq. now rewrite lookup_empty in Hq.
Qed.

(** X12.  [downloadQueue] never holds a promise that is already settled:
    in every state the event loop can reach, an identifier in the queue
    maps to a download whose promise is pending and on which a call made
    for that identifier is waiting.  A caller that is handed the queued
    promise is therefore always joined to a transfer that is still under
    way, never to the result of an old one. *)
Theorem queue_holds_pending_downloads (st : state) (videoId : list Z) (p : nat) :
  reachable st -> downloadQueue st !! videoId = Some p ->
  (exists dl, downloads st !! p = Some dl /\ d_settled dl = None) /\
  (exists k, tasks st !! k = Some (AtAwait videoId p)) /\
  forall serverId remotePath,
    let st' := call serverId remotePath videoId st in
    tasks st' !! length (tasks st) = Some (Returned p) /\
    observed st' (Returned p) = None.
Proof.
  intros Hr Hq.
  destruct (reachable_queue_ok st Hr videoId p Hq) as [(dl & Hdl & Hpend) Hk].
  split; [now exists dl|]. split; [exact Hk|].
  intros serverId remotePath st'. subst st'. unfold call. rewrite Hq.
  cbn [tasks]. split.
  - rewrite lookup_app_r by lia. now rewrite Nat.sub_diag.
  - unfold observed. cbn [downloads]. now rewrite Hdl.
Qed.

(** The theorem at a transfer that has written its first bytes. *)
Lemma queue_holds_pending_downloads_witness :
  (exists dl, downloads Sample.downloading !! 0%nat = Some dl
              /\ d_settled dl = None) /\
  (exists k, tasks Sample.downloading !! k = Some (AtAwait Sample.videoId 0)) /\
  forall serverId remotePath,
    let st' := call serverId remotePath Sample.videoId Sample.downloading in
    tasks st' !! length (tasks Sample.downloading) = Some (Returned 0) /\
    observed st' (Returned 0) = None.
Proof.
  apply (queue_holds_pending_downloads Sample.downloading Sample.videoId 0).
  - eexists. reflexivity.
  - reflexivity.
Defined.

(** *** A promise is settled once *)

Lemma observed_set_download (st : state) (p p0 : nat) (dl0 dl0' : download)
    (o : outcome) :
  downloads st !! p0 = Some dl0 -> d_settled dl0' = d_settled dl0 ->
  observed st (Returned p) = Some o ->
  observed (set_download p0 dl0' st) (Returned p) = Some o.
Proof.
  intros Hdl0 Hsame. unfold observed. cbn [set_download downloads].
  assert (Hp : (p0 < length (downloads st))%nat)
    by (eapply lookup_lt_Some; exact Hdl0).
  destruct (decide (p0 = p)) as [->|Hne].
  - rewrite (list_lookup_insert_eq _ _ _ Hp), Hdl0. congruence.
  - now rewrite list_lookup_insert_ne by exact Hne.
Qed.

Lemma observed_settle (st : state) (p p0 : nat) (o o0 : outcome) :
  observed st (Returned p) = Some o ->
  observed (settle p0 o0 st) (Returned p) = Some o.
Proof.
  unfold settle.
  destruct (downloads st !! p0) as [dl0|] eqn:Hdl0; [|auto].
  destruct (d_settled dl0) eqn:Hs; [auto|].
  destruct (resume p0 o0 (tasks st) (downloadQueue st)) as [ts q].
  unfold observed. cbn [downloads].
  assert (Hp : (p0 < length (downloads st))%nat)
    by (eapply lookup_lt_Some; exact Hdl0).
  destruct (decide (p0 = p)) as [->|Hne].
  - rewrite Hdl0, Hs. discriminate.
  - now rewrite list_lookup_insert_ne by exact Hne.
Qed.

Lemma observed_same (st st' : state) (p : nat) (o : outcome) :
  downloads st' = downloads st ->
  observed st (Returned p) = Some o -> observed st' (Returned p) = Some o.
Proof. unfold observed. now intros ->. Qed.

Lemma observed_on_error (st : state) (p p0 : nat) (dl0 : download)
    (ph : phase) (e : list Z) (o : outcome) :
  downloads st !! p0 = Some dl0 ->
  observed st (Returned p) = Some o ->
  observed (on_error p0 dl0 ph e st) (Returned p) = Some o.
Proof.
  intros Hdl0 H. unfold on_error. apply observed_settle.
  apply (observed_set_download _ p p0 dl0); [exact Hdl0 | reflexivity|].
  now apply (observed_same st).
Qed.

Lemma step_keeps_outcome (st : state) (ev : event) (p : nat) (o : outcome) :
  observed st (Returned p) = Some o ->
  observed (step st ev) (Returned p) = Some o.
Proof.
  intros H.
  destruct ev as [sid rp vid|k|ms|p0 e|p0|p0 n|p0 e|p0 e|p0| | | |j];
    cbn [step]; try (now apply (observed_same st)).
  - (* StatDone *)
    unfold stat_done.
    destruct (tasks st !! k) as [[sid rp vid lp| | |]|] eqn:Hk; try exact H.
    assert (Hstart : observed (start_download k sid rp vid lp st) (Returned p)
                     = Some o).
    { unfold observed, start_download in *. cbn [downloads].
      destruct (downloads st !! p) as [dl|] eqn:Hdl; [|discriminate].
      now rewrite (lookup_app_l_Some _ _ _ _ Hdl). }
    destruct (stat (disk st) lp) as [f|]; [|exact Hstart].
    destruct (_ <? _); [exact H | exact Hstart].
  - (* ConnFail *)
    unfold conn_fail. destruct (downloads st !! p0) as [dl0|] eqn:Hdl0; [|exact H].
    destruct (d_phase dl0); try exact H.
    apply observed_settle. now apply (observed_set_download st p p0 dl0).
  - (* SftpReady *)
    unfold sftp_ready. destruct (downloads st !! p0) as [dl0|] eqn:Hdl0; [|exact H].
    destruct (d_phase dl0); try exact H.
    destruct (open_write (d_local dl0) st) as [st1 fd] eqn:Eo.
    assert (Hd : downloads st1 = downloads st).
    { unfold open_write in Eo.
      destruct (entry_name (d_local dl0)); [|now injection Eo as <- _].
      destruct (disk st !! l); now injection Eo as <- _. }
    apply (observed_set_download st1 p p0 dl0); [now rewrite Hd | reflexivity|].
    now apply (observed_same st).
  - (* Data *)
    unfold data. destruct (downloads st !! p0) as [dl0|] eqn:Hdl0; [|exact H].
    destruct (d_phase dl0) as [|fd|[|] w|]; try exact H;
      [|now apply (observed_set_download st p p0 dl0)].
    set (st1 := set_download p0 (with_bytes (d_bytes dl0 + n) dl0) st).
    assert (H1 : observed st1 (Returned p) = Some o)
      by now apply (observed_set_download st p p0 dl0).
    apply (observed_same st1); [|exact H1].
    unfold write_chunk; destruct fd; try reflexivity;
      destruct (entry_name (d_local dl0)); try reflexivity;
      destruct (disk st1 !! l) as [f|]; try reflexivity;
      destruct (Nat.eqb (f_ino f) n0); reflexivity.
  - (* ReadError *)
    unfold read_error.
    destruct (downloads st !! p0) as [dl0|] eqn:Hdl0; [|exact H].
    destruct (d_phase dl0) as [|fd|[|] w|]; try exact H;
      now apply observed_on_error.
  - (* WriteError *)
    unfold write_error.
    destruct (downloads st !! p0) as [dl0|] eqn:Hdl0; [|exact H].
    destruct (d_phase dl0) as [|fd|r [|]|]; try exact H;
      now apply observed_on_error.
  - (* Finish *)
    unfold finish. destruct (downloads st !! p0) as [dl0|] eqn:Hdl0; [|exact H].
    destruct (d_phase dl0) as [|[i|]|r w|]; try exact H.
    apply observed_settle. now apply (observed_set_download st p p0 dl0).
  - (* Fs *)
    destruct (fs_done_frame j st) as (_ & Hd & _).
    now apply (observed_same st).
Qed.

(** X13.  A download promise is settled once.  After the first [resolve]
    or [reject], no later event changes what the holders of the promise
    observe: not a second error of the same transfer (the read stream and
    the write stream can both fail), not a later transfer, not the sweep
    or the clearing of the cache. *)
Theorem settled_promise_is_final
    (st : state) (p : nat) (o : outcome) (evs : list event) :
  observed st (Returned p) = Some o ->
  observed (run st evs) (Returned p) = Some o.
Proof.
  revert st. induction evs as [|ev evs IH]; intros st H; [exact H|].
  cbn [run fold_left]. apply IH. now apply step_keeps_outcome.
Qed.

(** The theorem at a transfer that has failed: a second error, a new
    request and the clearing of the cache leave the rejection as it is. *)
Lemma settled_promise_is_final_witness :
  let st := step Sample.downloading (ReadError 0 (js "ECONNRESET")) in
  observed
    (run st [WriteError 0 (js "EIO"); Call 1 Sample.remotePath Sample.videoId;
             StatDone 1; SftpReady 1; Finish 1; Clear; Finish 0])
    (Returned 0)
  = Some (Rejected (js "ECONNRESET")).
Proof.
  intros st. apply (settled_promise_is_final st 0). reflexivity.
Defined.

(** *** The sweep, exactly *)

(** X15.  A pass of the sweep that nothing interleaves with, from the
    call to the end of its loop, removes exactly the files that are older
    than one hour at the call: in every state the event loop can reach, a
    file is gone after such a pass if and only if its age exceeded
    [maxAge], every other file is as it was, and the pass has come to its
    end.  When a name that [readdir] gave is gone at its [fs.stat]
    (another pass, a clearing or an error handler has removed it in
    between), the pass ends there and looks at no further file. *)
Theorem sweep_removes_exactly_the_old_files (st : state) (name : list Z)
    (m : nat) :
  reachable st -> (2 * size (disk st) < m)%nat ->
  let j := length (jobs st) in
  let st' := run st (Sweep :: repeat (Fs j) m) in
  jobs st' !! j = Some Ended /\
  disk st' !! name =
    match disk st !! name with
    | Some f => if now st - f_mtime f >? maxAge then None else Some f
    | None => None
    end /\
  forall st1 j1 now0 n rest evs,
    jobs st1 !! j1 = Some (SweepStat now0 n rest) ->
    stat (disk st1) (Path.join tempDir n) = None ->
    jobs (step st1 (Fs j1)) !! j1 = Some Ended /\
    disk (step st1 (Fs j1)) = disk st1 /\
    jobs (run (step st1 (Fs j1)) evs) !! j1 = Some Ended.
Proof.
  intros Hr Hm j st'.
  destruct (sweep_run st m (reachable_names_ok st Hr) Hm) as [Hend Hdisk].
  split; [exact Hend|]. split; [apply Hdisk|].
  intros st1 j1 now0 n rest evs Hj Hstat.
  rewrite (fs_sweep_stat st1 j1 now0 n rest Hj), Hstat.
  pose proof (job_set st1 j1 _ Ended Hj) as Hj'.
  split; [exact Hj'|]. split; [reflexivity|].
  set (st2 := set_job j1 Ended st1) in *. clearbody st2.
  revert st2 Hj'. induction evs as [|ev evs IH]; intros st2 Hj'; [exact Hj'|].
  rewrite run_cons. apply IH.
  destruct ev as [sid rp vid|k|ms|p e|p|p c|p e|p e|p| | | |j2];
    try (apply step_keeps_job; [discriminate | exact Hj']).
  destruct (Nat.eq_dec j2 j1) as [->|Hne].
  - cbn [step]. unfold fs_done. now rewrite Hj'.
  - apply step_keeps_job; [|exact Hj']. intros [= ?]. contradiction.
Qed.

(** The theorem at a finished download, one hour and one millisecond
    later. *)
Lemma sweep_removes_exactly_the_old_files_witness :
  let st := step Sample.downloaded (Tick 3600001) in
  disk st !! Sample.name = Some {| f_mtime := 0; f_size := 100; f_ino := 0 |} /\
  disk (run st [Sweep; Fs 0; Fs 0; Fs 0]) !! Sample.name = None.
Proof.
  intros st. split; [reflexivity|].
  destruct (sweep_removes_exactly_the_old_files st Sample.name 3)
    as (_ & H & _).
  - exists [Call 1 Sample.remotePath Sample.videoId; StatDone 0; SftpReady 0;
            Data 0 100; Finish 0; Tick 3600001].
    reflexivity.
  - vm_compute. lia.
  - exact H.
Defined.

(** *** A transfer from the call to its result *)

(** A chunk that reaches the file the write stream holds open. *)
Lemma data_writes (st : state) (p : nat) (dl : download) (name : list Z)
    (i : nat) (n : Z) (f : file) :
  downloads st !! p = Some dl -> d_phase dl = Streaming (Some i) ->
  entry_name (d_local dl) = Some name ->
  disk st !! name = Some f -> f_ino f = i ->
  data p n st =
  {| now := now st;
     disk := <[name := {| f_mtime := now st; f_size := f_size f + n;
                          f_ino := i |}]> (disk st);
     next_ino := next_ino st; downloadQueue := downloadQueue st;
     downloads := <[p := with_bytes (d_bytes dl + n) dl]> (downloads st);
     tasks := tasks st; jobs := jobs st |}.
Proof.
  intros Hdl Hph Hname Hf Hi. unfold data. rewrite Hdl, Hph.
  unfold write_chunk. rewrite Hname. cbn [with_bytes d_local].
  cbn [disk set_download]. rewrite Hf, Hi, Nat.eqb_refl. reflexivity.
Qed.

Lemma data_run (p : nat) (name : list Z) (i : nat) (chunks : list Z) :
  forall (st : state) (dl : download) (size : Z),
  downloads st !! p = Some dl -> d_phase dl = Streaming (Some i) ->
  entry_name (d_local dl) = Some name ->
  disk st !! name = Some {| f_mtime := now st; f_size := size; f_ino := i |} ->
  let st' := run st (List.map (Data p) chunks) in
  let total := fold_right Z.add 0 chunks in
  downloads st' !! p = Some (with_bytes (d_bytes dl + total) dl) /\
  disk st' !! name
    = Some {| f_mtime := now st; f_size := size + total; f_ino := i |} /\
  now st' = now st /\ tasks st' = tasks st /\
  downloadQueue st' = downloadQueue st.
Proof.
  induction chunks as [|n chunks IH]; intros st dl size Hdl Hph Hname Hf.
  - cbn [List.map run fold_left fold_right]. rewrite !Z.add_0_r.
    repeat split; try assumption. rewrite Hdl. now destruct dl.
  - cbn [List.map fold_right]. rewrite run_cons. cbn [step]. rewrite (data_writes st p dl name i n _ Hdl Hph Hname Hf eq_refl).
    cbn [f_size].
    assert (Hp : (p < length (downloads st))%nat)
      by (eapply lookup_lt_Some; exact Hdl).
    match goal with |- context [run ?s _] => set (st1 := s) end.
    destruct (IH st1 (with_bytes (d_bytes dl + n) dl) (size + n))
      as (H1 & H2 & H3 & H4 & H5).
    + subst st1. cbn [downloads]. now apply list_lookup_insert_eq.
    + exact Hph.
    + exact Hname.
    + subst st1. cbn [disk now]. apply lookup_insert_eq.
    + cbv zeta. rewrite H1, H2, H3, H4, H5. subst st1. cbn [now tasks downloadQueue].
      cbn [with_bytes d_bytes d_server d_remote d_local d_phase d_settled].
      replace (d_bytes dl + n + fold_right Z.add 0 chunks)
        with (d_bytes dl + (n + fold_right Z.add 0 chunks)) by lia.
      replace (size + n + fold_right Z.add 0 chunks)
        with (size + (n + fold_right Z.add 0 chunks)) by lia.
      repeat split.
Qed.

(** X16.  A download that runs undisturbed, from the call to the
    [finish] of the write stream.  For an identifier without a slash that
    is not in the queue, and a cache entry that is absent or stale: the
    caller gets [success] with [cached: false] and [downloadedBytes] equal
    to the sum of the chunk lengths; the cache entry holds exactly that
    many bytes, stamped with the time of the transfer; and the identifier
    has left the queue. *)
Theorem undisturbed_download
    (st : state) (serverId : Z) (remotePath videoId : list Z)
    (chunks : list Z) :
  includes videoId [Path.slash] = false ->
  downloadQueue st !! videoId = None ->
  let name := videoId ++ js "_" ++ Path.basename remotePath in
  let lp := Path.join tempDir name in
  (forall f, disk st !! name = Some f ->
             freshnessThreshold <= now st - f_mtime f) ->
  let k := length (tasks st) in
  let p := length (downloads st) in
  let st' :=
    run st (Call serverId remotePath videoId :: StatDone k :: SftpReady p
              :: List.map (Data p) chunks ++ [Finish p]) in
  let total := fold_right Z.add 0 chunks in
  tasks st' !! k =
    Some (Settled (Fulfilled {| success := true; localPath := lp;
                                downloadedBytes := Some total;
                                cached := false |})) /\
  downloadQueue st' !! videoId = None /\
  exists i, disk st' !! name
            = Some {| f_mtime := now st; f_size := total; f_ino := i |}.
Proof.
  intros Hid Hq name lp Hstale k p st' total.
  destruct (CacheProps.local_path_facts remotePath videoId Hid)
    as (Hname & _ & Hentry).
  fold name in Hname, Hentry. fold lp in Hentry.
  set (dl0 := {| d_server := serverId; d_remote := remotePath; d_local := lp;
                 d_phase := Connecting; d_bytes := 0; d_settled := None |}).
  set (ts2 := <[k := AtAwait videoId p]>
                (tasks st ++ [AtStat serverId remotePath videoId lp])).
  (* the call and the end of [fs.stat] *)
  assert (H2 : run st [Call serverId remotePath videoId; StatDone k] =
               {| now := now st; disk := disk st; next_ino := next_ino st;
                  downloadQueue := <[videoId := p]> (downloadQueue st);
                  downloads := downloads st ++ [dl0]; tasks := ts2;
                  jobs := jobs st |}).
  { cbn [run fold_left step]. unfold call. rewrite Hq. fold name. fold lp.
    match goal with |- stat_done k ?s = _ => set (st1 := s) end.
    assert (Hk : tasks st1 !! k = Some (AtStat serverId remotePath videoId lp)).
    { subst st1 k. cbn [tasks]. rewrite lookup_app_r by lia.
      now rewrite Nat.sub_diag. }
    rewrite (stat_done_spec st1 k _ _ _ _ Hk).
    assert (Hstat : stat (disk st1) lp = disk st !! name)
      by (unfold stat; now rewrite Hentry).
    rewrite Hstat.
    destruct (disk st !! name) as [f|] eqn:Hf; [|reflexivity].
    subst st1. cbn [now].
    destruct (Z.ltb_spec (now st - f_mtime f) freshnessThreshold) as [Hlt|_];
      [|reflexivity].
    specialize (Hstale f eq_refl). lia. }
  (* the streams are opened *)
  assert (H3 : exists i ino,
             run st [Call serverId remotePath videoId; StatDone k; SftpReady p] =
             {| now := now st;
                disk := <[name := {| f_mtime := now st; f_size := 0;
                                     f_ino := i |}]> (disk st);
                next_ino := ino;
                downloadQueue := <[videoId := p]> (downloadQueue st);
                downloads := <[p := with_phase (Streaming (Some i)) dl0]>
                               (downloads st ++ [dl0]);
                tasks := ts2; jobs := jobs st |}).
  { change [Call serverId remotePath videoId; StatDone k; SftpReady p]
      with ([Call serverId remotePath videoId; StatDone k] ++ [SftpReady p]).
    rewrite run_app, H2. cbn [run fold_left step]. unfold sftp_ready.
    cbn [downloads]. subst p. rewrite lookup_app_r by lia.
    rewrite Nat.sub_diag. cbn [lookup list_lookup d_phase dl0].
    unfold open_write. cbn [d_local dl0]. rewrite Hentry. cbn [disk now next_ino].
    destruct (disk st !! name) as [f|]; eexists _, _; reflexivity. }
  destruct H3 as (i & ino & H3).
  assert (Hp : (p < length (downloads st ++ [dl0]))%nat)
    by (rewrite length_app; cbn; subst p; lia).
  assert (Hk : (k < length (tasks st ++ [AtStat serverId remotePath videoId lp]))%nat)
    by (rewrite length_app; cbn; subst k; lia).
  (* the chunks *)
  subst st'.
  change (Call serverId remotePath videoId :: StatDone k :: SftpReady p
            :: List.map (Data p) chunks ++ [Finish p])
    with ([Call serverId remotePath videoId; StatDone k; SftpReady p]
            ++ (List.map (Data p) chunks ++ [Finish p])).
  rewrite run_app, H3, run_app.
  match goal with |- context [run ?s (List.map _ _)] => set (st3 := s) end.
  destruct (data_run p name i chunks st3
              (with_phase (Streaming (Some i)) dl0) 0)
    as (Hd & Hf & Hnow & Ht & Hqueue).
  { subst st3. cbn [downloads]. now apply list_lookup_insert_eq. }
  { reflexivity. }
  { exact Hentry. }
  { subst st3. cbn [disk now]. apply lookup_insert_eq. }
  fold total in Hd, Hf. cbn [d_bytes with_phase dl0] in Hd.
  rewrite Z.add_0_l in Hd, Hf.
  set (st4 := run st3 (List.map (Data p) chunks)) in *.
  (* the end of the write stream *)
  cbn [run fold_left step]. unfold finish. rewrite Hd.
  cbn [d_phase with_bytes with_phase].
  match goal with |- context [settle p ?o ?s] =>
    set (r := o); set (st5 := s) end.
  rewrite (settle_pending p r st5 _
             ltac:(subst st5; cbn [set_download downloads];
                   apply list_lookup_insert_eq;
                   eapply lookup_lt_Some; exact Hd) eq_refl).
  cbn [tasks downloadQueue disk]. subst st5. cbn [set_download tasks downloadQueue disk].
  rewrite Ht, Hqueue. subst st3. cbn [tasks downloadQueue now] in *.
  assert (Hawait : ts2 !! k = Some (AtAwait videoId p))
    by (subst ts2; now apply list_lookup_insert_eq).
  split; [|split].
  - rewrite (resume_woken p r ts2 _ k videoId Hawait). reflexivity.
  - apply (resume_unregisters p r ts2 _ k videoId Hawait).
  - exists i. exact Hf.
Qed.

(** The theorem at the first request for a video, received in three
    chunks. *)
Lemma undisturbed_download_witness :
  let st' :=
    run init [Call 1 Sample.remotePath Sample.videoId; StatDone 0; SftpReady 0;
              Data 0 100; Data 0 200; Data 0 50; Finish 0] in
  tasks st' !! 0%nat =
    Some (Settled (Fulfilled {| success := true; localPath := Sample.localPath;
                                downloadedBytes := Some 350;
                                cached := false |})) /\
  downloadQueue st' !! Sample.videoId = None /\
  exists i, disk st' !! Sample.name
            = Some {| f_mtime := 0; f_size := 350; f_ino := i |}.
Proof.
  apply (undisturbed_download init 1 Sample.remotePath Sample.videoId
           [100; 200; 50]).
  - reflexivity.
  - reflexivity.
  - intros f Hf. cbn [init disk] in Hf. rewrite lookup_empty in Hf.
    discriminate Hf.
Defined.

(** *** Clearing the cache under a transfer *)

Lemma data_without_file (st : state) (p : nat) (dl : download)
    (fd : option nat) (n : Z) :
  downloads st !! p = Some dl -> d_phase dl = Streaming fd ->
  stat (disk st) (d_local dl) = None ->
  data p n st = set_download p (with_bytes (d_bytes dl + n) dl) st.
Proof.
  intros Hdl Hph Hgone. unfold data. rewrite Hdl, Hph. unfold write_chunk.
  destruct fd as [i|]; [|reflexivity].
  unfold stat in Hgone. cbn [d_local with_bytes].
  destruct (entry_name (d_local dl)) as [name|]; [|reflexivity].
  cbn [disk set_download]. now rewrite Hgone.
Qed.

Lemma data_run_without_file (p : nat) (fd : option nat) (chunks : list Z) :
  forall (st : state) (dl : download),
  downloads st !! p = Some dl -> d_phase dl = Streaming fd ->
  stat (disk st) (d_local dl) = None ->
  let st' := run st (List.map (Data p) chunks) in
  downloads st' !! p
    = Some (with_bytes (d_bytes dl + fold_right Z.add 0 chunks) dl) /\
  disk st' = disk st /\ tasks st' = tasks st /\
  downloadQueue st' = downloadQueue st.
Proof.
  induction chunks as [|n chunks IH]; intros st dl Hdl Hph Hgone.
  - cbn [List.map run fold_left fold_right]. rewrite Z.add_0_r.
    repeat split; try assumption. rewrite Hdl. now destruct dl.
  - cbn [List.map fold_right]. rewrite run_cons. cbn [step].
    rewrite (data_without_file st p dl fd n Hdl Hph Hgone).
    assert (Hp : (p < length (downloads st))%nat)
      by (eapply lookup_lt_Some; exact Hdl).
    destruct (IH (set_download p (with_bytes (d_bytes dl + n) dl) st)
                (with_bytes (d_bytes dl + n) dl))
      as (H1 & H2 & H3 & H4).
    + cbn [set_download downloads]. now apply list_lookup_insert_eq.
    + exact Hph.
    + exact Hgone.
    + cbv zeta. rewrite H1, H2, H3, H4.
      cbn [with_bytes d_bytes d_server d_remote d_local d_phase d_settled
           set_download tasks disk downloadQueue].
      replace (d_bytes dl + n + fold_right Z.add 0 chunks)
        with (d_bytes dl + (n + fold_right Z.add 0 chunks)) by lia.
      repeat split.
Qed.

(** X17.  Clearing the cache does not stop a transfer.  When [clearCache]
    gets to unlink the file that a download is writing, the download goes
    on: if no other event than the chunks of the download comes before the
    [finish] of its write stream, it ends with [success] and the count of
    the bytes received, for the call that started it and for every caller
    that holds its promise; but the local path it reports does not exist:
    [fs.stat] on it fails. *)
Theorem cleared_transfer_reports_success
    (st : state) (p : nat) (dl : download) (i : nat) (chunks : list Z)
    (j count : nat) (n : list Z) (rest : list (list Z)) :
  downloads st !! p = Some dl -> d_phase dl = Streaming (Some i) ->
  d_settled dl = None ->
  jobs st !! j = Some (ClearUnlink count n rest) ->
  Path.join tempDir n = d_local dl ->
  let st' := run st (Fs j :: List.map (Data p) chunks ++ [Finish p]) in
  let result :=
    Fulfilled {| success := true; localPath := d_local dl;
                 downloadedBytes := Some (d_bytes dl + fold_right Z.add 0 chunks);
                 cached := false |} in
  observed st' (Returned p) = Some result /\
  (forall k videoId, tasks st !! k = Some (AtAwait videoId p) ->
     tasks st' !! k = Some (Settled result)) /\
  stat (disk st') (d_local dl) = None.
Proof.
  intros Hdl Hph Hpend Hj Hpath st' result. subst st'.
  rewrite run_cons, run_app.
  set (st1 := step st (Fs j)).
  destruct (fs_done_frame j st) as (Ht1 & Hd1 & Hq1 & _).
  change (fs_done j st) with st1 in Ht1, Hd1, Hq1.
  assert (Hgone : stat (disk st1) (d_local dl) = None).
  { subst st1. rewrite (fs_clear_unlink st j count n rest Hj), Hpath.
    pose proof (CacheFacts.unlink_quiet_gone (disk st) (d_local dl)) as H.
    unfold unlink_quiet in H.
    destruct (unlink (disk st) (d_local dl)); exact H. }
  destruct (data_run_without_file p (Some i) chunks st1 dl
              ltac:(rewrite Hd1; exact Hdl) Hph Hgone)
    as (Hd & Hdisk & Ht & Hq).
  set (st2 := run st1 (List.map (Data p) chunks)) in *.
  cbn [run fold_left step]. unfold finish. rewrite Hd.
  cbn [d_phase d_local d_bytes with_bytes]. rewrite Hph.
  cbn [d_phase d_local d_bytes with_bytes]. fold result.
  match goal with |- context [settle p result ?s] => set (st3 := s) end.
  assert (Hp : (p < length (downloads st2))%nat)
    by (eapply lookup_lt_Some; exact Hd).
  rewrite (settle_pending p result st3 _
             ltac:(subst st3; cbn [set_download downloads];
                   now apply list_lookup_insert_eq) Hpend).
  subst st3. cbn [set_download tasks downloadQueue disk downloads].
  split; [|split].
  - unfold observed. cbn [downloads].
    rewrite list_lookup_insert_eq by (rewrite length_insert; exact Hp).
    reflexivity.
  - intros k videoId Hk. cbn [tasks]. rewrite Ht, Ht1.
    now apply (resume_woken p result (tasks st) _ k videoId).
  - cbn [disk]. rewrite Hdisk. exact Hgone.
Qed.

(** The theorem at a transfer that has written 100 bytes and receives 50
    more after [clearCache] has removed its file. *)
Lemma cleared_transfer_reports_success_witness :
  let st := run Sample.downloading [Clear; Fs 0] in
  let st' := run st [Fs 0; Data 0 50; Finish 0] in
  let result :=
    Fulfilled {| success := true; localPath := Sample.localPath;
                 downloadedBytes := Some 150; cached := false |} in
  jobs st = [ClearUnlink 1 Sample.name []] /\
  observed st' (Returned 0) = Some result /\
  tasks st' !! 0%nat = Some (Settled result) /\
  stat (disk st') Sample.localPath = None.
Proof.
  intros st st' result.
  assert (Hjobs : jobs st = [ClearUnlink 1 Sample.name []])
    by (vm_compute; reflexivity).
  assert (Hdl : downloads st !! 0%nat =
                Some {| d_server := 1; d_remote := Sample.remotePath;
                        d_local := Sample.localPath;
                        d_phase := Streaming (Some 0%nat);
                        d_bytes := 100; d_settled := None |})
    by (vm_compute; reflexivity).
  assert (Hk : tasks st !! 0%nat = Some (AtAwait Sample.videoId 0))
    by (vm_compute; reflexivity).
  assert (Hpath : Path.join tempDir Sample.name = Sample.localPath)
    by (vm_compute; reflexivity).
  destruct (cleared_transfer_reports_success st 0 _ 0 [50] 0 1 Sample.name []
              Hdl eq_refl eq_refl ltac:(rewrite Hjobs; reflexivity) Hpath)
    as (H1 & H2 & H3).
  split; [exact Hjobs|]. split; [exact H1|]. split; [|exact H3].
  exact (H2 0%nat Sample.videoId Hk).
Defined.

End CoordinatorProps.

(* ===================================================================== *)
(** ** Deleting a video, and the status of the cache                       *)
(* ===================================================================== *)

Module CacheStatusProps.
Import JS Manager Cache CacheFacts CoordinatorFacts.

(** *** The cached copy of a deleted video *)

Lemma unlink_quiet_entry (d : gmap (list Z) file) (p name : list Z) :
  entry_name p = Some name -> unlink_quiet d p = delete name d.
Proof.
  intros Hn. unfold unlink_quiet, unlink. rewrite Hn.
  destruct (d !! name) eqn:Hd; [reflexivity|].
  symmetry. now apply delete_id.
Qed.

(** X18.  Deleting a video removes the copy that streaming it has left in
    the cache.  For the identifier the listing gives a path (without a
    slash in it), the local path [deleteVideoFromServer] computes from
    the decoded path is the one [downloadVideoToTemp] writes when the
    stream route is called with that identifier; after the deletion
    [fs.stat] fails on it and every other cache entry is as before.  When
    the deletion on the server throws, the cache is not touched and the
    error is rethrown. *)
Theorem delete_removes_the_cached_copy (P : list Z) (d : gmap (list Z) file) :
  isWellFormed P = true ->
  includes (VideoId.encode P) [Path.slash] = false ->
  let videoId := VideoId.encode P in
  let remotePath := VideoId.decode videoId in
  let name := videoId ++ js "_" ++ Path.basename remotePath in
  let localPath := Path.join tempDir name in
  entry_name localPath = Some name /\
  deleteVideoFromServer None remotePath d = (delete name d, inl tt) /\
  stat (fst (deleteVideoFromServer None remotePath d)) localPath = None /\
  forall e, deleteVideoFromServer (Some e) remotePath d = (d, inr e).
Proof.
  intros Hw Hid videoId remotePath name localPath.
  assert (Hpath : remotePath = P).
  { subst remotePath videoId. unfold VideoId.decode, VideoId.encode.
    rewrite (BufferFacts.from_base64_toString (Buffer.from_string P))
      by now apply BufferFacts.from_string_bytes, BufferFacts.isWellFormed_units.
    now apply BufferFacts.toString_from_string. }
  assert (Hname : is_file_name name = true)
    by (apply CacheProps.local_name_is_file_name;
        [exact Hid | apply CacheProps.basename_no_slash]).
  assert (Hentry : entry_name localPath = Some name)
    by apply (entry_name_join name Hname).
  assert (Hdel : deleteVideoFromServer None remotePath d
                 = (delete name d, inl tt)).
  { unfold deleteVideoFromServer. f_equal.
    replace (VideoId.encode remotePath) with videoId
      by (rewrite Hpath; reflexivity).
    fold name. fold localPath. now apply unlink_quiet_entry. }
  split; [exact Hentry|]. split; [exact Hdel|]. split; [|reflexivity].
  rewrite Hdel. unfold stat. rewrite Hentry. cbn [fst]. apply lookup_delete_eq.
Qed.

(** The theorem at the sample video, with its copy in the cache. *)
Lemma delete_removes_the_cached_copy_witness :
  let d := disk Sample.downloaded in
  d !! Sample.name = Some {| f_mtime := 0; f_size := 100; f_ino := 0 |} /\
  deleteVideoFromServer None Sample.remotePath d
    = (delete Sample.name d, inl tt) /\
  stat (fst (deleteVideoFromServer None Sample.remotePath d)) Sample.localPath
    = None.
Proof.
  intros d. split; [reflexivity|].
  destruct (delete_removes_the_cached_copy Sample.remotePath d
              eq_refl eq_refl) as (_ & H1 & H2 & _).
  split; [exact H1 | exact H2].
Defined.

(** *** The status of the cache *)

(** The loop of [getCacheStatus] when nothing interleaves with it. *)
Lemma status_pass (count : nat) (j : nat) (l : list (list Z * file)) :
  forall (st : state) (m : nat) (total : Z) (details : list fileDetail),
  (forall n f, (n, f) ∈ l -> is_file_name n = true /\ disk st !! n = Some f) ->
  jobs st !! j = Some (status_next count l.*1 total details) ->
  (length l <= m)%nat ->
  jobs (run st (repeat (Fs j) m)) !! j =
    Some (Reported
            {| totalFiles := Z.of_nat count;
               totalSize := total + foldr Z.add 0 (f_size <$> l.*2);
               maxSize := maxCacheSize;
               usagePercentage :=
                 ((total + foldr Z.add 0 (f_size <$> l.*2)) * 100, maxCacheSize);
               files :=
                 details ++
                 ((fun nf => {| fd_name := nf.1; fd_size := f_size nf.2;
                                fd_age := now st - f_mtime nf.2 |}) <$> l) |}) /\
  disk (run st (repeat (Fs j) m)) = disk st.
Proof.
  induction l as [|[n f] l IH]; intros st m total details Hall Hj Hm.
  - cbn [fmap list_fmap status_next] in Hj.
    rewrite (fs_over st j _ Hj I m). split; [|reflexivity].
    rewrite Hj. cbn [fmap list_fmap foldr]. now rewrite Z.add_0_r, app_nil_r.
  - destruct (Hall n f ltac:(left)) as [Hname Hf].
    cbn [fmap list_fmap status_next fst] in Hj. cbn [length] in Hm.
    destruct m as [|m]; [lia|]. cbn [repeat]. rewrite run_cons.
    rewrite (fs_status_stat st j count n _ total details Hj).
    rewrite (stat_entry (disk st) n Hname), Hf.
    match goal with |- context [set_job j ?b st] => set (st1 := set_job j b st) end.
    destruct (IH st1 m (total + f_size f)
                (details ++ [{| fd_name := n; fd_size := f_size f;
                                fd_age := now st - f_mtime f |}]))
      as [Hend Hdisk].
    { intros n' f' Hin. change (disk st1) with (disk st).
      apply Hall. now right. }
    { apply (job_set st j _ _ Hj). }
    { lia. }
    split; [|exact Hdisk]. rewrite Hend. change (now st1) with (now st).
    cbn [fmap list_fmap foldr fst snd].
    rewrite <- app_assoc, Z.add_assoc. reflexivity.
Qed.

(** X19.  A call of [getCacheStatus] that nothing interleaves with, from
    the call to the end of its loop, reports the directory as it is, in
    every state the event loop can reach: the number of its files, the sum
    of their sizes, and one entry per file with its size and its age; the
    directory is left as it was.  When a name that [readdir] gave is gone
    at its [fs.stat] (a sweep, a clearing or an error handler has removed
    it in between), the answer is the fallback of the [catch]: no file and
    no byte, whatever the directory holds. *)
Theorem cache_status_counts_the_directory (st : state) (m : nat) :
  reachable st -> (size (disk st) < m)%nat ->
  let j := length (jobs st) in
  let st' := run st (Status :: repeat (Fs j) m) in
  (exists s,
     jobs st' !! j = Some (Reported s) /\
     totalFiles s = Z.of_nat (size (disk st)) /\
     totalSize s = foldr Z.add 0 (f_size <$> (map_to_list (disk st)).*2) /\
     files s = ((fun nf => {| fd_name := nf.1; fd_size := f_size nf.2;
                              fd_age := now st - f_mtime nf.2 |})
                  <$> map_to_list (disk st))) /\
  disk st' = disk st /\
  forall st1 j1 count n rest total details,
    jobs st1 !! j1 = Some (StatusStat count n rest total details) ->
    stat (disk st1) (Path.join tempDir n) = None ->
    jobs (step st1 (Fs j1)) !! j1 = Some (Reported status_fallback).
Proof.
  intros Hr Hm j st'.
  pose proof (reachable_names_ok st Hr) as Hok.
  assert (Hpass :
    jobs st' !! j =
      Some (Reported
              {| totalFiles := Z.of_nat (length (readdir (disk st)));
                 totalSize := 0 + foldr Z.add 0 (f_size <$> (map_to_list (disk st)).*2);
                 maxSize := maxCacheSize;
                 usagePercentage :=
                   ((0 + foldr Z.add 0 (f_size <$> (map_to_list (disk st)).*2)) * 100,
                    maxCacheSize);
                 files :=
                   [] ++
                   ((fun nf => {| fd_name := nf.1; fd_size := f_size nf.2;
                                  fd_age := now st - f_mtime nf.2 |})
                      <$> map_to_list (disk st)) |}) /\
    disk st' = disk st).
  { subst st'. rewrite run_cons. cbn [step].
    set (st0 := add_job StatusReaddir st).
    assert (Hj0 : jobs st0 !! j = Some StatusReaddir)
      by (subst st0 j; cbn [add_job jobs]; apply list_lookup_middle; reflexivity).
    destruct m as [|m]; [lia|]. cbn [repeat]. rewrite run_cons.
    rewrite (fs_status_readdir st0 j Hj0). change (disk st0) with (disk st).
    set (st1 := set_job j _ st0).
    apply (status_pass (length (readdir (disk st))) j (map_to_list (disk st))
             st1 m 0 []).
    - intros n f Hin. change (disk st1) with (disk st).
      apply elem_of_map_to_list in Hin. split; [|exact Hin].
      apply Hok. now exists f.
    - apply (job_set st0 j _ _ Hj0).
    - rewrite length_map_to_list. lia. }
  destruct Hpass as [Hrep Hdisk]. split; [|split; [exact Hdisk|]].
  - eexists. split; [exact Hrep|]. cbn [totalFiles totalSize files app].
    rewrite length_readdir, Z.add_0_l. repeat split.
  - intros st1 j1 count n rest total details Hj Hstat.
    rewrite (fs_status_stat st1 j1 count n rest total details Hj), Hstat.
    apply (job_set st1 j1 _ _ Hj).
Qed.

(** The theorem at a finished download of 100 bytes, five seconds
    later. *)
Lemma cache_status_counts_the_directory_witness :
  let st := step Sample.downloaded (Tick 5000) in
  exists s,
    jobs (run st [Status; Fs 0; Fs 0]) !! 0%nat = Some (Reported s) /\
    totalFiles s = 1 /\ totalSize s = 100 /\
    files s = [{| fd_name := Sample.name; fd_size := 100; fd_age := 5000 |}].
Proof.
  intros st.
  destruct (cache_status_counts_the_directory st 2
              (ex_intro _ [Call 1 Sample.remotePath Sample.videoId; StatDone 0;
                           SftpReady 0; Data 0 100; Finish 0; Tick 5000]
                 eq_refl))
    as ((s & Hs & H1 & H2 & H3) & _).
  { vm_compute. lia. }
  assert (Hlist : map_to_list (disk st)
                  = [(Sample.name, {| f_mtime := 0; f_size := 100; f_ino := 0 |})])
    by (vm_compute; reflexivity).
  assert (Hsize : size (disk st) = 1%nat) by (vm_compute; reflexivity).
  rewrite Hlist in H2, H3. rewrite Hsize in H1.
  exists s. split; [exact Hs|]. split; [exact H1|]. split; [exact H2 | exact H3].
Defined.

End CacheStatusProps.

(* ===================================================================== *)
(** ** Formatting durations and sizes                                      *)
(* ===================================================================== *)

Module FormatProps.
Import JS Route Format RouteFacts.

(** *** Decimal numerals *)

Lemma digits_of_digits (fuel : nat) (n : Z) (acc : list Z) :
  0 <= n -> forallb isDigit acc = true ->
  forallb isDigit (digits_of fuel n acc) = true.
Proof.
  revert n acc. induction fuel as [|fuel IH]; intros n acc Hn Hacc;
    [exact Hacc|].
  cbn [digits_of]. destruct (Z.ltb_spec n 10).
  - cbn [forallb]. rewrite Hacc, andb_true_r. apply isDigit_range. lia.
  - apply IH; [Z.to_euclidean_division_equations; lia|].
    cbn [forallb]. rewrite Hacc, andb_true_r. apply isDigit_range.
    Z.to_euclidean_division_equations; lia.
Qed.

Lemma digits_of_nonempty (fuel : nat) (n : Z) (acc : list Z) :
  Path.is_empty (digits_of (S fuel) n acc) = false.
Proof.
  revert n acc. induction fuel as [|fuel IH]; intros n acc.
  - cbn [digits_of]. now destruct (n <? 10).
  - change (digits_of (S (S fuel)) n acc)
      with (if n <? 10 then (48 + n) :: acc
            else digits_of (S fuel) (n / 10) ((48 + n mod 10) :: acc)).
    destruct (n <? 10); [reflexivity | apply IH].
Qed.

Lemma digits_of_value (fuel : nat) (n : Z) (acc : list Z) :
  0 <= n < 2 ^ Z.of_nat fuel ->
  digits_value 0 (digits_of fuel n acc) = digits_value n acc.
Proof.
  revert n acc. induction fuel as [|fuel IH]; intros n acc Hn.
  - cbn in Hn. assert (n = 0) by lia. now subst n.
  - rewrite Nat2Z.inj_succ, Z.pow_succ_r in Hn by lia.
    cbn [digits_of]. destruct (Z.ltb_spec n 10).
    + cbn [digits_value].
      rewrite (proj2 (isDigit_range (48 + n)) ltac:(lia)). f_equal. lia.
    + rewrite IH by (Z.to_euclidean_division_equations; lia).
      cbn [digits_value].
      rewrite (proj2 (isDigit_range (48 + n mod 10))
                 ltac:(Z.to_euclidean_division_equations; lia)).
      f_equal. Z.to_euclidean_division_equations; lia.
Qed.

Lemma fuel_suffices (n : Z) :
  0 <= n -> 0 <= n < 2 ^ Z.of_nat (S (Z.to_nat (Z.log2 n))).
Proof.
  intros Hn. split; [exact Hn|].
  rewrite Nat2Z.inj_succ, Z2Nat.id by apply Z.log2_nonneg.
  destruct (Z.eq_dec n 0) as [->|Hne]; [reflexivity|].
  apply Z.log2_spec. lia.
Qed.

(** [String(n)] is a numeral that [parseInt] reads back as [n]. *)
Lemma toString_numeral (n : Z) :
  0 <= n ->
  all_digits (Format.toString n) = true /\
  digits_value 0 (Format.toString n) = n.
Proof.
  intros Hn. unfold Format.toString.
  destruct (Z.ltb_spec n 0); [lia|]. split.
  - unfold all_digits. rewrite digits_of_nonempty.
    now apply digits_of_digits.
  - now rewrite digits_of_value by now apply fuel_suffices.
Qed.

Lemma toString_one_digit (n : Z) :
  0 <= n < 10 -> Format.toString n = [48 + n].
Proof.
  intros Hn. unfold Format.toString. destruct (Z.ltb_spec n 0); [lia|].
  cbn [digits_of]. destruct (Z.ltb_spec n 10); [reflexivity | lia].
Qed.

Lemma toString_two_digits (n : Z) :
  10 <= n < 100 -> Format.toString n = [48 + n / 10; 48 + n mod 10].
Proof.
  intros Hn. unfold Format.toString. destruct (Z.ltb_spec n 0); [lia|].
  assert (Hlog : 3 <= Z.log2 n)
    by (change 3 with (Z.log2 10); apply Z.log2_le_mono; lia).
  destruct (Z.to_nat (Z.log2 n)) as [|fuel] eqn:Ef; [lia|].
  cbn [digits_of]. destruct (Z.ltb_spec n 10); [lia|].
  destruct (Z.ltb_spec (n / 10) 10); [reflexivity|].
  Z.to_euclidean_division_equations; lia.
Qed.

(** A field padded to two places: two digits, and the same number. *)
Lemma padStart2_field (n : Z) :
  0 <= n < 100 ->
  let s := padStart2 (Format.toString n) in
  length s = 2%nat /\ all_digits s = true /\ digits_value 0 s = n.
Proof.
  intros Hn s. subst s.
  destruct (Z.lt_ge_cases n 10) as [Hlt|Hge].
  - rewrite toString_one_digit by lia. cbn [padStart2].
    split; [reflexivity|]. unfold all_digits. cbn [Path.is_empty negb forallb andb digits_value].
    change (isDigit 48) with true.
    rewrite (proj2 (isDigit_range (48 + n)) ltac:(lia)).
    split; [reflexivity | lia].
  - rewrite toString_two_digits by lia. cbn [padStart2].
    split; [reflexivity|]. unfold all_digits. cbn [Path.is_empty negb forallb andb digits_value].
    rewrite (proj2 (isDigit_range (48 + n / 10))
               ltac:(Z.to_euclidean_division_equations; lia)).
    rewrite (proj2 (isDigit_range (48 + n mod 10))
               ltac:(Z.to_euclidean_division_equations; lia)).
    split; [reflexivity|]. Z.to_euclidean_division_equations; lia.
Qed.

Lemma digits_have_no_colon (s : list Z) :
  forallb isDigit s = true -> forallb (fun c => negb (c =? 58)) s = true.
Proof.
  induction s as [|c s IH]; intros H; [reflexivity|].
  cbn [forallb] in *. apply andb_true_iff in H as [Hc Hs].
  apply isDigit_range in Hc. rewrite (IH Hs), andb_true_r.
  apply negb_true_iff, Z.eqb_neq. lia.
Qed.

Lemma all_digits_forallb (s : list Z) :
  all_digits s = true -> forallb isDigit s = true.
Proof. unfold all_digits. intros H. now apply andb_true_iff in H as [_ H]. Qed.

Lemma parseInt_numeral (s : list Z) (n : Z) :
  all_digits s = true -> digits_value 0 s = n -> n <= maxSafe ->
  parseInt s = Int n.
Proof.
  intros Hs Hv Hn. rewrite (parseInt_digits s Hs), Hv.
  now rewrite (proj2 (Z.leb_le n maxSafe) Hn).
Qed.

(** X20.  [formatDuration] can be read back.  For a whole number of
    seconds from 0 to [2^53 - 1], the fields between the colons, read
    with [parseInt], are the minutes and the seconds below one hour, and
    the hours, the minutes and the seconds from one hour on; every field
    after the first has exactly two digits.  So [h*3600 + m*60 + s] is
    the duration that was formatted, and the hours are written only when
    they are not zero. *)
Theorem formatDuration_reads_back (seconds : Z) :
  0 <= seconds <= maxSafe ->
  let fields := Path.split_on 58 (formatDuration seconds) in
  (seconds < 3600 ->
     List.map parseInt fields = [Int (seconds / 60); Int (seconds mod 60)]) /\
  (3600 <= seconds ->
     List.map parseInt fields =
       [Int (seconds / 3600); Int (seconds mod 3600 / 60); Int (seconds mod 60)])
  /\ List.Forall (fun f => length f = 2%nat) (tail fields).
Proof.
  intros Hs fields. subst fields. unfold formatDuration.
  rewrite !Z.rem_mod_nonneg by lia.
  assert (Hmax : maxSafe = 9007199254740991) by reflexivity.
  destruct (padStart2_field (seconds mod 60)
              ltac:(Z.to_euclidean_division_equations; lia))
    as (Hlen_s & Hdig_s & Hval_s).
  destruct (padStart2_field (seconds mod 3600 / 60)
              ltac:(Z.to_euclidean_division_equations; lia))
    as (Hlen_m & Hdig_m & Hval_m).
  destruct (toString_numeral (seconds / 3600)
              ltac:(Z.to_euclidean_division_equations; lia))
    as (Hdig_h & Hval_h).
  destruct (toString_numeral (seconds mod 3600 / 60)
              ltac:(Z.to_euclidean_division_equations; lia))
    as (Hdig_m' & Hval_m').
  set (ss := padStart2 (Format.toString (seconds mod 60))) in *.
  set (mm := padStart2 (Format.toString (seconds mod 3600 / 60))) in *.
  set (hs := Format.toString (seconds / 3600)) in *.
  set (ms := Format.toString (seconds mod 3600 / 60)) in *.
  change (js ":") with [58]. cbn [app].
  assert (Hsplit_s : Path.split_on 58 ss = [ss])
    by (apply split_on_absent, digits_have_no_colon, all_digits_forallb, Hdig_s).
  assert (Hsplit_m : Path.split_on 58 mm = [mm])
    by (apply split_on_absent, digits_have_no_colon, all_digits_forallb, Hdig_m).
  assert (Hsplit_m' : Path.split_on 58 ms = [ms])
    by (apply split_on_absent, digits_have_no_colon, all_digits_forallb, Hdig_m').
  assert (Hsplit_h : Path.split_on 58 hs = [hs])
    by (apply split_on_absent, digits_have_no_colon, all_digits_forallb, Hdig_h).
  destruct (Z.gtb_spec (seconds / 3600) 0) as [Hh|Hh].
  - rewrite !CacheFacts.split_on_app, Hsplit_h, Hsplit_m, Hsplit_s.
    cbn [app List.map tail]. repeat split.
    + intros Hlt. Z.to_euclidean_division_equations; lia.
    + intros _.
      rewrite (parseInt_numeral hs _ Hdig_h Hval_h)
        by (Z.to_euclidean_division_equations; lia).
      rewrite (parseInt_numeral mm _ Hdig_m Hval_m)
        by (Z.to_euclidean_division_equations; lia).
      rewrite (parseInt_numeral ss _ Hdig_s Hval_s)
        by (Z.to_euclidean_division_equations; lia).
      reflexivity.
    + repeat constructor; assumption.
  - rewrite !CacheFacts.split_on_app, Hsplit_m', Hsplit_s.
    cbn [app List.map tail]. repeat split.
    + intros Hlt.
      rewrite (parseInt_numeral ms _ Hdig_m' Hval_m')
        by (Z.to_euclidean_division_equations; lia).
      rewrite (parseInt_numeral ss _ Hdig_s Hval_s)
        by (Z.to_euclidean_division_equations; lia).
      replace (seconds mod 3600 / 60) with (seconds / 60)
        by (Z.to_euclidean_division_equations; lia).
      reflexivity.
    + intros Hge. Z.to_euclidean_division_equations; lia.
    + repeat constructor; assumption.
Qed.

(** The theorem at 59 seconds and at one hour, one minute and one
    second. *)
Lemma formatDuration_reads_back_witness :
  formatDuration 59 = js "0:59" /\ formatDuration 3661 = js "1:01:01" /\
  List.map parseInt (Path.split_on 58 (formatDuration 3661))
    = [Int 1; Int 1; Int 1].
Proof.
  split; [reflexivity|]. split; [reflexivity|].
  destruct (formatDuration_reads_back 3661 ltac:(vm_compute; split; discriminate))
    as (_ & H & _).
  apply H. vm_compute. discriminate.
Defined.

(** *** Sizes *)

(** X21.  [formatFileSize] picks the largest unit that does not exceed
    the size, up to GB, and prints the size in that unit to the nearest
    hundredth (a half rounds up).  For [bytes] from [1024^k] up to but not
    including [1024^(k+1)] (from 0 for [k = 0]; without upper limit for
    GB) the text is [n / 100], a point, the two digits of [n mod 100], a
    space and the unit, where [n] is the integer nearest to
    [100 * bytes / 1024^k]; so the number printed can reach 1024.00
    before the unit changes, and can exceed it in GB. *)
Theorem formatFileSize_unit_and_rounding (bytes : Z) (k : nat) :
  0 <= bytes <= maxSafe ->
  (k <= 3)%nat ->
  k = 0%nat \/ 1024 ^ Z.of_nat k <= bytes ->
  k = 3%nat \/ bytes < 1024 ^ Z.of_nat (S k) ->
  exists n,
    formatFileSize bytes =
      Format.toString (n / 100) ++ js "." ++ padStart2 (Format.toString (n mod 100))
        ++ js " " ++ nth k units [] /\
    - 1024 ^ Z.of_nat k <= 2 * (100 * bytes - n * 1024 ^ Z.of_nat k)
      < 1024 ^ Z.of_nat k.
Proof.
  intros Hb Hk Hlo Hhi.
  assert (Hscale : scale 3 bytes 1 0 = (bytes, 1024 ^ Z.of_nat k, k)).
  { destruct k as [|[|[|[|k]]]]; [| | | |lia];
      cbn -[Z.mul Z.geb Z.pow] in Hlo, Hhi |- *;
      change (2 ^ 10) with 1024 in *;
      repeat match goal with
        | |- context [Z.geb ?a ?b] => destruct (Z.geb_spec a b)
        end;
      try reflexivity; try (f_equal; f_equal; lia);
      exfalso; destruct Hlo as [Hlo|Hlo]; try discriminate Hlo;
      destruct Hhi as [Hhi|Hhi]; try discriminate Hhi; lia. }
  unfold formatFileSize. rewrite Hscale.
  destruct (Z.ltb_spec bytes 0); [lia|].
  set (D := 1024 ^ Z.of_nat k) in *.
  assert (HD : 0 < D) by (subst D; apply Z.pow_pos_nonneg; lia).
  exists ((200 * bytes + D) / (2 * D)). split.
  - unfold toFixed2. now rewrite <- !app_assoc.
  - pose proof (Z.div_mod (200 * bytes + D) (2 * D) ltac:(lia)) as Hdm.
    pose proof (Z.mod_pos_bound (200 * bytes + D) (2 * D) ltac:(lia)) as Hm.
    nia.
Qed.

(** The theorem at one byte below a mebibyte, which is printed as
    1024.00 KB, and at a kibibyte and a half. *)
Lemma formatFileSize_unit_and_rounding_witness :
  formatFileSize 1536 = js "1.50 KB" /\
  formatFileSize 1048575 = js "1024.00 KB" /\
  exists n,
    formatFileSize 1048575 =
      Format.toString (n / 100) ++ js "." ++ padStart2 (Format.toString (n mod 100))
        ++ js " " ++ js "KB" /\
    - 1024 <= 2 * (100 * 1048575 - n * 1024) < 1024.
Proof.
  split; [reflexivity|]. split; [reflexivity|].
  apply (formatFileSize_unit_and_rounding 1048575 1).
  - vm_compute. split; discriminate.
  - lia.
  - right. vm_compute. discriminate.
  - right. vm_compute. reflexivity.
Defined.

End FormatProps.

(* ===================================================================== *)
(** ** The rename route                                                    *)
(* ===================================================================== *)

Module RenameProps.
Import JS Rename.

(** *** Splitting at a character and joining again *)

Lemma join_split (sep : Z) (s : list Z) :
  Path.join_with sep (Path.split_on sep s) = s.
Proof.
  induction s as [|c s IH]; [reflexivity|].
  cbn [Path.split_on]. destruct (Z.eqb_spec c sep) as [->|Hne].
  - pose proof (CacheFacts.split_on_nonempty sep s) as Hn.
    destruct (Path.split_on sep s) as [|seg segs] eqn:E; [contradiction|].
    cbn [Path.join_with app] in *. now rewrite IH.
  - pose proof (CacheFacts.split_on_nonempty sep s) as Hn.
    destruct (Path.split_on sep s) as [|seg segs] eqn:E; [contradiction|].
    destruct segs as [|seg' segs]; cbn [Path.join_with app] in *;
      now rewrite <- IH.
Qed.

Lemma join_with_last (sep : Z) (init : list (list Z)) (x : list Z) :
  init <> [] ->
  Path.join_with sep (init ++ [x]) = Path.join_with sep init ++ sep :: x.
Proof.
  induction init as [|a init IH]; intros Hne; [contradiction|].
  destruct init as [|b init]; [reflexivity|].
  change (Path.join_with sep ((a :: b :: init) ++ [x]))
    with (a ++ sep :: Path.join_with sep ((b :: init) ++ [x])).
  rewrite IH by discriminate.
  change (Path.join_with sep (a :: b :: init))
    with (a ++ sep :: Path.join_with sep (b :: init)).
  now rewrite <- app_assoc.
Qed.

Lemma last_no_sep (sep : Z) (s : list Z) :
  forallb (fun c => negb (c =? sep)) (List.last (Path.split_on sep s) []) = true.
Proof.
  pose proof (CacheProps.split_on_segments sep s) as H.
  induction (Path.split_on sep s) as [|seg segs IH]; [reflexivity|].
  inversion_clear H as [|? ? Hseg Hsegs].
  destruct segs as [|seg' segs]; [exact Hseg | now apply IH].
Qed.

(** *** Where a text that ends in a separator can occur *)

Lemma startsWith_In (s n : list Z) (x : Z) :
  startsWith s n = true -> In x n -> In x s.
Proof.
  revert s. induction n as [|y n IH]; intros s H Hin; [destruct Hin|].
  destruct s as [|z s]; [discriminate|]. cbn [startsWith] in H.
  apply andb_true_iff in H as [Hyz Hrest]. apply Z.eqb_eq in Hyz. subst z.
  destruct Hin as [->|Hin]; [now left | right; now apply IH].
Qed.

Lemma includes_In (s n : list Z) (x : Z) :
  includes s n = true -> In x n -> In x s.
Proof.
  induction s as [|z s IH]; intros H Hin.
  - cbn [includes] in H. rewrite orb_false_r in H.
    now apply (startsWith_In [] n x).
  - cbn [includes] in H. apply orb_true_iff in H as [H|H].
    + now apply (startsWith_In (z :: s) n x).
    + right. now apply IH.
Qed.

Lemma no_sep_not_In (sep : Z) (b : list Z) :
  forallb (fun c => negb (c =? sep)) b = true -> ~ In sep b.
Proof.
  intros H Hin. rewrite forallb_forall in H. specialize (H sep Hin).
  now rewrite Z.eqb_refl in H.
Qed.

Lemma startsWith_within (sep : Z) (a b m : list Z) :
  forallb (fun c => negb (c =? sep)) b = true ->
  startsWith (a ++ b) (m ++ [sep]) = true ->
  startsWith a (m ++ [sep]) = true.
Proof.
  intros Hb. revert a. induction m as [|c m IH]; intros a H.
  - destruct a as [|y a].
    + exfalso. apply (no_sep_not_In sep b Hb).
      apply (startsWith_In b [sep] sep H). now left.
    + cbn [app startsWith] in *. apply andb_true_iff in H as [Hy _].
      now rewrite Hy.
  - destruct a as [|y a].
    + exfalso. apply (no_sep_not_In sep b Hb).
      apply (startsWith_In b ((c :: m) ++ [sep]) sep H).
      apply in_or_app. right. now left.
    + cbn [app startsWith] in *. apply andb_true_iff in H as [Hy Hrest].
      rewrite Hy. now apply IH.
Qed.

Lemma includes_within (sep : Z) (a b m : list Z) :
  forallb (fun c => negb (c =? sep)) b = true ->
  includes (a ++ b) (m ++ [sep]) = true ->
  includes a (m ++ [sep]) = true.
Proof.
  intros Hb. induction a as [|y a IH]; intros H.
  - exfalso. apply (no_sep_not_In sep b Hb).
    apply (includes_In b (m ++ [sep]) sep H). apply in_or_app. right. now left.
  - cbn [app includes] in *. apply orb_true_iff in H as [H|H].
    + change (y :: a ++ b) with ((y :: a) ++ b) in H.
      now rewrite (startsWith_within sep (y :: a) b m Hb H).
    + rewrite (IH H). apply orb_true_r.
Qed.

Lemma startsWith_app_l (a c n : list Z) :
  startsWith a n = true -> startsWith (a ++ c) n = true.
Proof.
  revert a. induction n as [|y n IH]; intros a H; [reflexivity|].
  destruct a as [|z a]; [discriminate|]. cbn [app startsWith] in *.
  apply andb_true_iff in H as [Hyz Hrest]. rewrite Hyz. now apply IH.
Qed.

Lemma includes_app_l (a c n : list Z) :
  includes a n = true -> includes (a ++ c) n = true.
Proof.
  induction a as [|z a IH]; intros H.
  - cbn [includes] in H. rewrite orb_false_r in H.
    destruct n as [|y n]; [|discriminate]. now destruct c.
  - cbn [app includes] in *. apply orb_true_iff in H as [H|H].
    + change (z :: a ++ c) with ((z :: a) ++ c).
      now rewrite (startsWith_app_l (z :: a) c n H).
    + rewrite (IH H). apply orb_true_r.
Qed.

(** A path that passes the ownership test is a directory, a slash and a
    file name; the test is passed by the directory alone. *)
Lemma admitted_path_parts (remotePath userLogin : list Z) :
  includes remotePath (js "/" ++ userLogin ++ js "/") = true ->
  let parts := Path.split_on 47 remotePath in
  let dir := Path.join_with 47 (removelast parts) in
  let old := List.last parts [] in
  removelast parts <> [] /\
  remotePath = dir ++ js "/" ++ old /\
  forallb (fun c => negb (c =? 47)) old = true /\
  includes (dir ++ js "/") (js "/" ++ userLogin ++ js "/") = true.
Proof.
  intros Hinc parts dir old.
  pose proof (CacheFacts.split_on_nonempty 47 remotePath) as Hne.
  fold parts in Hne.
  pose proof (app_removelast_last [] Hne) as Hparts. fold old in Hparts.
  pose proof (last_no_sep 47 remotePath) as Hold. fold parts old in Hold.
  assert (Hinit : removelast parts <> []).
  { intros Hnil. rewrite Hnil in Hparts. cbn [app] in Hparts.
    pose proof (join_split 47 remotePath) as Hj. fold parts in Hj.
    rewrite Hparts in Hj. cbn [Path.join_with] in Hj.
    apply (no_sep_not_In 47 old Hold). rewrite Hj.
    apply (includes_In remotePath _ 47 Hinc). now left. }
  assert (Hpath : remotePath = dir ++ js "/" ++ old).
  { pose proof (join_split 47 remotePath) as Hj. fold parts in Hj.
    rewrite Hparts, (join_with_last 47 _ old Hinit) in Hj. now symmetry. }
  repeat split; try assumption.
  change (js "/" ++ userLogin ++ js "/") with ((47 :: userLogin) ++ [47]).
  apply (includes_within 47 (dir ++ js "/") old (47 :: userLogin) Hold).
  change ((47 :: userLogin) ++ [47]) with (js "/" ++ userLogin ++ js "/").
  rewrite <- app_assoc. now rewrite <- Hpath.
Qed.

(** X22.  The target of a rename is built from the old directory and
    the new name, and the new name is not looked at.  For a request that
    passes the ownership test with a name that is not blank, the decoded
    path is a directory, a slash and the old file name; the target of the
    [mv] command is that directory, a slash, the trimmed new name and the
    extension of the old name ([path.extname]).  The target holds the
    folder name of the caller again, so that its identifier passes the
    ownership test of the routes, whatever the new name is: a new name
    with [..] in it moves the file out of the directory of the caller all
    the same.  The answer is 200 with the old name, the new name and the
    target when [mv] succeeds; it is 500, with no update of the database,
    when [mv] throws, and 500 without [mv] when the server query
    rejects. *)
Theorem rename_target_is_not_confined
    (E : env) (userId : Z) (userLogin videoId novo : list Z) :
  let remotePath := VideoId.decode videoId in
  let name := Text.trim novo in
  Path.is_empty name = false ->
  includes remotePath (js "/" ++ userLogin ++ js "/") = true ->
  exists dir old,
    remotePath = dir ++ js "/" ++ old /\
    forallb (fun c => negb (c =? 47)) old = true /\
    let newName := name ++ NodePath.extname old in
    let newPath := dir ++ js "/" ++ newName in
    let command :=
      js "mv " ++ [Route.quote] ++ remotePath ++ [Route.quote] ++ js " "
        ++ [Route.quote] ++ newPath ++ [Route.quote] in
    includes newPath (js "/" ++ userLogin ++ js "/") = true /\
    rename E userId userLogin videoId (Some novo) =
    match serverRows E userId with
    | inr e => (Failed e, [DbServer userId])
    | inl rows =>
        let serverId := match rows with r :: _ => r | [] => 1 end in
        match executeCommand E serverId command with
        | Some e => (Failed e, [DbServer userId; Exec serverId command])
        | None =>
            (Renamed old newName newPath,
             [DbServer userId; Exec serverId command;
              DbUpdate (Route.remove_first contentDir newPath) name
                (Route.remove_first contentDir remotePath)])
        end
    end.
Proof.
  intros remotePath name Hname Hinc.
  destruct (admitted_path_parts remotePath userLogin Hinc)
    as (Hinit & Hpath & Hold & Hdir).
  set (parts := Path.split_on 47 remotePath) in *.
  set (dir := Path.join_with 47 (removelast parts)) in *.
  set (old := List.last parts []) in *.
  exists dir, old. split; [exact Hpath|]. split; [exact Hold|].
  intros newName newPath command. split.
  - subst newPath. rewrite app_assoc. now apply includes_app_l.
  - unfold rename. fold name. rewrite Hname.
    assert (Hnovo : Path.is_empty novo = false).
    { destruct novo; [discriminate Hname | reflexivity]. }
    rewrite Hnovo. cbn [orb]. fold remotePath. rewrite Hinc. cbn [negb].
    destruct (serverRows E userId) as [rows|e]; [|reflexivity].
    cbv zeta. fold parts. fold old. fold newName.
    rewrite (join_with_last 47 (removelast parts) newName Hinit).
    fold dir. change (dir ++ 47 :: newName) with newPath.
    fold command.
    destruct (executeCommand E _ command); reflexivity.
Qed.

(** The theorem at the sample video of [alice], renamed to
    [../../bob/x]: the target holds [/alice/], and is a path into the
    directory of [bob]. *)
Lemma rename_target_is_not_confined_witness :
  let E := {| serverRows := fun _ => inl [1];
              executeCommand := fun _ _ => None |} in
  let remotePath := VideoId.decode Sample.videoId in
  (exists dir old,
    remotePath = dir ++ js "/" ++ old /\
    forallb (fun c => negb (c =? 47)) old = true /\
    let newName := js "../../bob/x" ++ NodePath.extname old in
    let newPath := dir ++ js "/" ++ newName in
    let command :=
      js "mv " ++ [Route.quote] ++ remotePath ++ [Route.quote] ++ js " "
        ++ [Route.quote] ++ newPath ++ [Route.quote] in
    includes newPath (js "/alice/") = true /\
    rename E 7 (js "alice") Sample.videoId (Some (js " ../../bob/x ")) =
    (Renamed old newName newPath,
     [DbServer 7; Exec 1 command;
      DbUpdate (Route.remove_first contentDir newPath) (js "../../bob/x")
        (Route.remove_first contentDir remotePath)])) /\
  Path.normalize_abs
    (js "/usr/local/WowzaStreamingEngine/content/alice/clips/../../bob/x.mp4")
  = js "/usr/local/WowzaStreamingEngine/content/bob/x.mp4".
Proof.
  intros E remotePath. split; [|reflexivity].
  apply (rename_target_is_not_confined E 7 (js "alice") Sample.videoId
           (js " ../../bob/x ")); reflexivity.
Defined.

(** The same request, evaluated. *)
Example rename_sample :
  fst (rename {| serverRows := fun _ => inl [1];
                 executeCommand := fun _ _ => None |}
         7 (js "alice") Sample.videoId (Some (js " ../../bob/x ")))
  = Renamed (js "a.mp4") (js "../../bob/x.mp4")
      (js "/usr/local/WowzaStreamingEngine/content/alice/clips/../../bob/x.mp4").
Proof. reflexivity. Qed.

End RenameProps.

(* ===================================================================== *)
(** ** The listing                                                         *)
(* ===================================================================== *)

Module ListingProps.
Import JS Route Text Listing BufferFacts.

(** *** Well-formed strings, piece by piece *)

Lemma wf_cons_plain (c : Z) (s : list Z) :
  plain c -> isWellFormed (c :: s) = isWellFormed s.
Proof.
  intros (Hr & Hh & Hl). cbn [isWellFormed]. rewrite Hh, Hl.
  destruct (Z.leb_spec 0 c); [|lia]. destruct (Z.ltb_spec c 65536); [|lia].
  reflexivity.
Qed.

Lemma wf_cons_pair (u v : Z) (s : list Z) :
  isHigh u = true -> isLow v = true ->
  isWellFormed (u :: v :: s) = isWellFormed s.
Proof.
  intros Hu Hv. cbn [isWellFormed]. rewrite Hu, Hv.
  apply isHigh_range in Hu.
  destruct (Z.leb_spec 0 u); [|lia]. destruct (Z.ltb_spec u 65536); [|lia].
  reflexivity.
Qed.

(** Well-formed strings are built from plain characters and pairs. *)
Lemma wf_cases (s : list Z) :
  isWellFormed s = true ->
  s = [] \/
  (exists c s', s = c :: s' /\ plain c /\ isWellFormed s' = true) \/
  (exists u v s', s = u :: v :: s' /\ isHigh u = true /\ isLow v = true
                  /\ isWellFormed s' = true).
Proof.
  destruct s as [|u s]; [now left|]. intros H. right.
  cbn [isWellFormed] in H.
  apply andb_true_iff in H as [Hr H]. apply andb_true_iff in Hr as [H0 H1].
  apply Z.leb_le in H0. apply Z.ltb_lt in H1.
  destruct (isHigh u) eqn:Hu.
  - right. destruct s as [|v s]; [discriminate|].
    apply andb_true_iff in H as [Hv Hs]. now exists u, v, s.
  - left. apply andb_true_iff in H as [Hl Hs]. apply negb_true_iff in Hl.
    exists u, s. repeat split; assumption.
Qed.

Lemma wf_ind (P : list Z -> Prop) :
  P [] ->
  (forall c s, plain c -> isWellFormed s = true -> P s -> P (c :: s)) ->
  (forall u v s, isHigh u = true -> isLow v = true ->
                 isWellFormed s = true -> P s -> P (u :: v :: s)) ->
  forall s, isWellFormed s = true -> P s.
Proof.
  intros Hnil Hplain Hpair s.
  assert (H : forall n s, (length s <= n)%nat -> isWellFormed s = true -> P s).
  { clear s. induction n as [|n IH]; intros s Hlen Hw.
    - destruct s; [exact Hnil | cbn in Hlen; lia].
    - destruct (wf_cases s Hw)
        as [->|[(c & s' & -> & Hc & Hs')|(u & v & s' & -> & Hu & Hv & Hs')]].
      + exact Hnil.
      + apply Hplain; try assumption. apply IH; [cbn in Hlen; lia | exact Hs'].
      + apply Hpair; try assumption. apply IH; [cbn in Hlen; lia | exact Hs']. }
  apply (H (length s)). lia.
Qed.

Lemma wf_app (a b : list Z) :
  isWellFormed a = true -> isWellFormed b = true ->
  isWellFormed (a ++ b) = true.
Proof.
  intros Ha Hb. pattern a. apply wf_ind; [| | |exact Ha].
  - exact Hb.
  - intros c s Hc _ IH. cbn [app]. now rewrite (wf_cons_plain c _ Hc).
  - intros u v s Hu Hv _ IH. cbn [app]. now rewrite (wf_cons_pair u v _ Hu Hv).
Qed.

Lemma wf_split (a b : list Z) (c : Z) :
  plain c -> isWellFormed (a ++ c :: b) = true ->
  isWellFormed a = true /\ isWellFormed b = true.
Proof.
  intros Hc.
  assert (H : forall n a, (length a <= n)%nat ->
              isWellFormed (a ++ c :: b) = true ->
              isWellFormed a = true /\ isWellFormed b = true).
  { clear a. induction n as [|n IH]; intros a Hlen Hw.
    - destruct a; [|cbn in Hlen; lia]. cbn [app] in Hw.
      rewrite (wf_cons_plain c b Hc) in Hw. now split.
    - destruct a as [|x a].
      + cbn [app] in Hw. rewrite (wf_cons_plain c b Hc) in Hw. now split.
      + cbn [app] in Hw.
        destruct (wf_cases _ Hw)
          as [E|[(y & s' & E & Hy & Hs')|(u & v & s' & E & Hu & Hv & Hs')]].
        * discriminate E.
        * injection E as <- <-.
          destruct (IH a ltac:(cbn in Hlen; lia) Hs') as [Ha Hb].
          split; [|exact Hb]. now rewrite (wf_cons_plain x a Hy).
        * injection E as <- E. destruct a as [|y a].
          -- cbn [app] in E. injection E as <- _.
             destruct Hc as (_ & _ & Hl). congruence.
          -- cbn [app] in E. injection E as <- <-.
             destruct (IH a ltac:(cbn in Hlen; lia) Hs') as [Ha Hb].
             split; [|exact Hb]. now rewrite (wf_cons_pair x y a Hu Hv). }
  apply (H (length a)). lia.
Qed.

Lemma white_space_plain (c : Z) : isWhiteSpace c = true -> plain c.
Proof.
  unfold isWhiteSpace, plain, isHigh, isLow. intros H.
  repeat match type of H with
    | (_ || _) = true => apply orb_true_iff in H as [H|H]
    | (_ && _) = true => apply andb_true_iff in H as [? H]
    end;
    repeat match goal with
      | H : (_ <=? _) = true |- _ => apply Z.leb_le in H
      | H : (_ =? _) = true |- _ => apply Z.eqb_eq in H
      end;
    (split; [lia|]); split; apply andb_false_iff;
    (destruct (Z.leb_spec 0xD800 c); [right; apply Z.leb_gt; lia | now left])
    || (destruct (Z.leb_spec 0xDC00 c); [right; apply Z.leb_gt; lia | now left]).
Qed.

Lemma plain_10 : plain 10.
Proof. now apply white_space_plain. Qed.

Lemma plain_32 : plain 32.
Proof. now apply white_space_plain. Qed.

Lemma wf_join_pieces (sep : Z) (l : list (list Z)) :
  plain sep -> isWellFormed (Path.join_with sep l) = true ->
  List.Forall (fun x => isWellFormed x = true) l.
Proof.
  intros Hsep. induction l as [|x l IH]; intros H; [constructor|].
  destruct l as [|y l].
  - constructor; [exact H | constructor].
  - change (Path.join_with sep (x :: y :: l))
      with (x ++ sep :: Path.join_with sep (y :: l)) in H.
    destruct (wf_split x _ sep Hsep H) as [Hx Hrest].
    constructor; [exact Hx | now apply IH].
Qed.

Lemma wf_join (l : list (list Z)) :
  List.Forall (fun x => isWellFormed x = true) l ->
  isWellFormed (Path.join_with 32 l) = true.
Proof.
  induction 1 as [|x l Hx Hl IH]; [reflexivity|].
  destruct l as [|y l]; [exact Hx|].
  change (Path.join_with 32 (x :: y :: l))
    with (x ++ 32 :: Path.join_with 32 (y :: l)).
  apply wf_app; [exact Hx|]. now rewrite (wf_cons_plain 32 _ plain_32).
Qed.

(** The lines of a well-formed text are well formed. *)
Lemma wf_lines (s : list Z) :
  isWellFormed s = true ->
  List.Forall (fun x => isWellFormed x = true) (Path.split_on 10 s).
Proof.
  intros H. apply (wf_join_pieces 10); [exact plain_10|].
  now rewrite RenameProps.join_split.
Qed.

(** *** Trimming *)

Lemma skip_ws_suffix (s : list Z) :
  exists a, s = a ++ skip_ws s /\ forallb isWhiteSpace a = true.
Proof.
  induction s as [|c s (a & Ha & Hws)]; [now exists []|].
  cbn [skip_ws]. destruct (isWhiteSpace c) eqn:Hc.
  - exists (c :: a). cbn [app forallb]. rewrite Hc, Hws. split; [|reflexivity].
    now f_equal.
  - now exists [].
Qed.

Lemma skip_ws_head (s : list Z) :
  match skip_ws s with
  | c :: _ => isWhiteSpace c = false
  | [] => True
  end.
Proof.
  induction s as [|c s IH]; [exact I|]. cbn [skip_ws].
  destruct (isWhiteSpace c) eqn:Hc; [exact IH | exact Hc].
Qed.

Lemma skip_ws_keeps_last (x : list Z) (c : Z) :
  isWhiteSpace c = false -> exists y, skip_ws (x ++ [c]) = y ++ [c].
Proof.
  intros Hc. induction x as [|d x (y & Hy)].
  - exists []. cbn [app skip_ws]. now rewrite Hc.
  - cbn [app skip_ws]. destruct (isWhiteSpace d); [now exists y|].
    now exists (d :: x).
Qed.

Lemma forallb_rev (f : Z -> bool) (l : list Z) :
  forallb f l = true -> forallb f (rev l) = true.
Proof.
  intros H. rewrite forallb_forall in *. intros x Hx. apply H.
  now apply in_rev.
Qed.

(** The trimmed text is the text without white space at its ends. *)
Lemma trim_decompose (s : list Z) :
  exists a b, s = a ++ trim s ++ b /\
              forallb isWhiteSpace a = true /\ forallb isWhiteSpace b = true.
Proof.
  destruct (skip_ws_suffix s) as (a & Ha & Hwa).
  destruct (skip_ws_suffix (rev (skip_ws s))) as (b & Hb & Hwb).
  exists a, (rev b). unfold trim. split; [|split].
  - rewrite Ha at 1. f_equal. rewrite <- rev_app_distr, <- Hb.
    now rewrite rev_involutive.
  - exact Hwa.
  - now apply forallb_rev.
Qed.

Lemma trim_ends (s : list Z) :
  trim s = [] \/
  exists c t d u, trim s = c :: t /\ isWhiteSpace c = false /\
                  trim s = u ++ [d] /\ isWhiteSpace d = false.
Proof.
  unfold trim.
  pose proof (skip_ws_head s) as H1.
  destruct (skip_ws s) as [|c x] eqn:E1; [now left|]. right.
  cbn [rev].
  destruct (skip_ws_keeps_last (rev x) c H1) as (y & Hy). rewrite Hy.
  rewrite rev_app_distr. cbn [rev app].
  pose proof (skip_ws_head (rev x ++ [c])) as H2. rewrite Hy in H2.
  exists c, (rev y). destruct y as [|e y].
  - exists c, []. repeat split; assumption.
  - cbn [app] in H2. exists e, (c :: rev y). repeat split; assumption.
Qed.

Lemma wf_drop_blank (a s : list Z) :
  forallb isWhiteSpace a = true -> isWellFormed (a ++ s) = true ->
  isWellFormed s = true.
Proof.
  induction a as [|c a IH]; intros Hws H; [exact H|].
  cbn [forallb] in Hws. apply andb_true_iff in Hws as [Hc Hws].
  cbn [app] in H. rewrite (wf_cons_plain c _ (white_space_plain c Hc)) in H.
  now apply IH.
Qed.

Lemma wf_trim (s : list Z) :
  isWellFormed s = true -> isWellFormed (trim s) = true.
Proof.
  intros H. destruct (trim_decompose s) as (a & b & Hs & Hwa & Hwb).
  rewrite Hs in H. apply (wf_drop_blank a _ Hwa) in H.
  destruct b as [|c b]; [now rewrite app_nil_r in H|].
  cbn [forallb] in Hwb. apply andb_true_iff in Hwb as [Hc _].
  now destruct (wf_split (trim s) b c (white_space_plain c Hc) H).
Qed.

(** *** The fields of a line *)

Lemma split_ws_from_nonempty (b : bool) (s : list Z) :
  split_ws_from b s <> [].
Proof.
  revert b. induction s as [|c s IH]; intros b; [discriminate|].
  cbn [split_ws_from]. destruct (isWhiteSpace c).
  - destruct b; [apply IH | discriminate].
  - destruct (split_ws_from false s); discriminate.
Qed.

Lemma surrogate_not_space (c : Z) :
  isHigh c = true \/ isLow c = true -> isWhiteSpace c = false.
Proof.
  intros H. destruct (isWhiteSpace c) eqn:Hc; [|reflexivity].
  destruct (white_space_plain c Hc) as (_ & Hh & Hl).
  destruct H; congruence.
Qed.

Lemma wf_fields (s : list Z) :
  isWellFormed s = true ->
  forall b, List.Forall (fun x => isWellFormed x = true) (split_ws_from b s).
Proof.
  intros H. pattern s. apply wf_ind; [| | |exact H]; clear s H.
  - intros b. repeat constructor.
  - intros c s Hc Hw IH b. cbn [split_ws_from]. destruct (isWhiteSpace c).
    + destruct b; [apply IH|]. constructor; [reflexivity | apply IH].
    + specialize (IH false).
      destruct (split_ws_from false s) as [|seg segs]; [repeat constructor|].
      * now rewrite (wf_cons_plain c [] Hc).
      * inversion_clear IH as [|? ? Hseg Hsegs]. constructor; [|exact Hsegs].
        now rewrite (wf_cons_plain c seg Hc).
  - intros u v s Hu Hv Hw IH b. cbn [split_ws_from].
    rewrite (surrogate_not_space u (or_introl Hu)).
    rewrite (surrogate_not_space v (or_intror Hv)).
    specialize (IH false).
    pose proof (split_ws_from_nonempty false s) as Hne.
    destruct (split_ws_from false s) as [|seg segs]; [contradiction|].
    inversion_clear IH as [|? ? Hseg Hsegs]. constructor; [|exact Hsegs].
    now rewrite (wf_cons_pair u v seg Hu Hv).
Qed.

Lemma fields_no_space (b : bool) (s : list Z) :
  List.Forall (fun x => forallb (fun c => negb (isWhiteSpace c)) x = true)
    (split_ws_from b s).
Proof.
  revert b. induction s as [|c s IH]; intros b; [repeat constructor|].
  cbn [split_ws_from]. destruct (isWhiteSpace c) eqn:Hc.
  - destruct b; [apply IH|]. constructor; [reflexivity | apply IH].
  - specialize (IH false).
    destruct (split_ws_from false s) as [|seg segs]; [repeat constructor|].
    + cbn [forallb]. now rewrite Hc.
    + inversion_clear IH as [|? ? Hseg Hsegs]. constructor; [|exact Hsegs].
      cbn [forallb]. now rewrite Hc, Hseg.
Qed.

Lemma full_but_last_cons (x : list Z) (l : list (list Z)) :
  x <> [] -> full_but_last l -> full_but_last (x :: l).
Proof. intros Hx Hl. destruct l; [exact I | now split]. Qed.

Lemma full_but_last_tail (l : list (list Z)) :
  full_but_last l -> full_but_last (tail l).
Proof. destruct l as [|x [|y l]]; cbn; tauto. Qed.

Lemma fields_full (s : list Z) :
  full_but_last (split_ws_from true s) /\
  full_but_last (tail (split_ws_from false s)).
Proof.
  induction s as [|c s [IHt IHf]]; [now split|].
  cbn [split_ws_from]. destruct (isWhiteSpace c).
  - split; [exact IHt|]. exact IHt.
  - pose proof (split_ws_from_nonempty false s) as Hne.
    destruct (split_ws_from false s) as [|seg segs]; [contradiction|].
    cbn [tail] in *. split.
    + apply full_but_last_cons; [discriminate | exact IHf].
    + exact IHf.
Qed.

(** The last field is empty only after white space, or in the empty
    text. *)
Lemma last_field (b : bool) (s : list Z) :
  List.last (split_ws_from b s) [] = [] ->
  s = [] \/ exists u d, s = u ++ [d] /\ isWhiteSpace d = true.
Proof.
  revert b. induction s as [|c s IH]; intros b H; [now left|]. right.
  cbn [split_ws_from] in H. destruct (isWhiteSpace c) eqn:Hc.
  - assert (H' : List.last (split_ws_from true s) [] = []).
    { destruct b; [exact H|].
      pose proof (split_ws_from_nonempty true s) as Hne.
      destruct (split_ws_from true s); [contradiction | exact H]. }
    destruct (IH true H') as [->|(u & d & -> & Hd)].
    + now exists [], c.
    + now exists (c :: u), d.
  - pose proof (split_ws_from_nonempty false s) as Hne.
    destruct (split_ws_from false s) as [|seg segs] eqn:E; [contradiction|].
    destruct segs as [|seg' segs]; [discriminate H|].
    assert (H' : List.last (split_ws_from false s) [] = [])
      by (rewrite E; exact H).
    destruct (IH false H') as [->|(u & d & -> & Hd)]; [discriminate E|].
    now exists (c :: u), d.
Qed.

Lemma full_with_last (l : list (list Z)) :
  l <> [] -> full_but_last l -> List.last l [] <> [] ->
  List.Forall (fun x => x <> []) l.
Proof.
  induction l as [|x l IH]; intros Hne Hf Hl; [contradiction|].
  destruct l as [|y l]; [repeat constructor; exact Hl|].
  destruct Hf as [Hx Hf]. constructor; [exact Hx|].
  apply IH; [discriminate | exact Hf | exact Hl].
Qed.

(** The fields of a trimmed line that is not blank: none is empty and
    none holds white space. *)
Lemma fields_of_trimmed (line : list Z) :
  Path.is_empty (trim line) = false ->
  List.Forall
    (fun x => x <> [] /\ forallb (fun c => negb (isWhiteSpace c)) x = true)
    (split_ws (trim line)).
Proof.
  intros Hne.
  destruct (trim_ends line) as [E|(c & t & d & u & Ec & Hc & Ed & Hd)];
    [rewrite E in Hne; discriminate|].
  assert (Hfull : List.Forall (fun x => x <> []) (split_ws (trim line))).
  { apply full_with_last.
    - apply split_ws_from_nonempty.
    - unfold split_ws. rewrite Ec. cbn [split_ws_from]. rewrite Hc.
      destruct (fields_full t) as [_ Hf].
      pose proof (split_ws_from_nonempty false t) as Hn.
      destruct (split_ws_from false t) as [|seg segs]; [contradiction|].
      apply full_but_last_cons; [discriminate | exact Hf].
    - intros Hl. destruct (last_field false (trim line) Hl)
        as [E|(u' & d' & E & Hd')].
      + rewrite E in Hne. discriminate.
      + rewrite Ed in E. apply app_inj_tail in E as [_ ->]. congruence. }
  pose proof (fields_no_space false (trim line)) as Hns.
  fold (split_ws (trim line)) in Hns.
  revert Hfull Hns. generalize (split_ws (trim line)).
  induction l as [|x l IH]; intros Hfull Hns; [constructor|].
  inversion_clear Hfull. inversion_clear Hns.
  constructor; [now split | now apply IH].
Qed.

(** *** The elements of the listing *)

Lemma listed_from_a_line (E : env) (server : Z) (login : list Z)
    (folderName : option (list Z)) (v : video) :
  In v (listVideosFromServer E server login folderName) ->
  exists command stdout line,
    executeCommand E server command = Some stdout /\
    In line (Path.split_on 10 stdout) /\
    videoOfLine E server login line = Some v.
Proof.
  unfold listVideosFromServer. intros H.
  match type of H with
  | context [executeCommand E server ?c] =>
      destruct (executeCommand E server c) as [stdout|] eqn:Hexec;
      [exists c, stdout | destruct H]
  end.
  destruct (includes stdout (js "NO_VIDEOS")); [destruct H|].
  apply list_elem_of_In, list_elem_of_omap in H as (line & Hline & Hv).
  exists line. split; [exact Hexec|]. split; [|exact Hv].
  apply list_elem_of_In in Hline. now apply List.filter_In in Hline as [Hl _].
Qed.

Lemma videoOfLine_fields (E : env) (server : Z) (login line : list Z)
    (v : video) :
  videoOfLine E server login line = Some v ->
  Path.is_empty (trim line) = false /\
  (9 <= length (split_ws (trim line)))%nat /\
  fullPath v = Path.join_with 32 (skipn 8 (split_ws (trim line))) /\
  id v = VideoId.encode (fullPath v) /\
  nome v = Path.basename (fullPath v) /\
  size v = or_zero (parseInt_auto (nth 4 (split_ws (trim line)) [])) /\
  permissions v = nth 0 (split_ws (trim line)) [].
Proof.
  unfold videoOfLine. intros H.
  destruct (includes line (js "total ")); [discriminate|]. cbn [orb] in H.
  destruct (Path.is_empty (trim line)) eqn:Hne; [discriminate|].
  destruct (Nat.ltb_spec (length (split_ws (trim line))) 9) as [|Hlen];
    [discriminate|].
  injection H as <-. cbn [fullPath id nome size permissions].
  repeat split. exact Hlen.
Qed.

(** X23.  Every video of the listing can be addressed by its identifier.
    When the output of the server is well-formed text (as a string
    decoded from UTF-8 is), every element of the listing has a
    well-formed [fullPath]; its [id] is the identifier of that path and
    decodes to it, which is what the stream, rename, thumbnail and delete
    routes do with it; and [nome] is the last component of that path. *)
Theorem listed_video_is_addressed_by_its_id
    (E : env) (server : Z) (login : list Z) (folderName : option (list Z))
    (v : video) :
  (forall command stdout, executeCommand E server command = Some stdout ->
                          isWellFormed stdout = true) ->
  In v (listVideosFromServer E server login folderName) ->
  isWellFormed (fullPath v) = true /\
  id v = VideoId.encode (fullPath v) /\
  VideoId.decode (id v) = fullPath v /\
  nome v = Path.basename (fullPath v).
Proof.
  intros Hout Hin.
  destruct (listed_from_a_line E server login folderName v Hin)
    as (command & stdout & line & Hexec & Hline & Hv).
  destruct (videoOfLine_fields E server login line v Hv)
    as (_ & _ & Hfull & Hid & Hnome & _).
  assert (Hw : isWellFormed (fullPath v) = true).
  { rewrite Hfull. apply wf_join, Forall_drop.
    apply wf_fields, wf_trim.
    pose proof (wf_lines stdout (Hout command stdout Hexec)) as Hlines.
    rewrite List.Forall_forall in Hlines. now apply Hlines. }
  split; [exact Hw|]. split; [exact Hid|]. split; [|exact Hnome].
  rewrite Hid. unfold VideoId.decode, VideoId.encode.
  rewrite from_base64_toString
    by now apply from_string_bytes, isWellFormed_units.
  now apply toString_from_string.
Qed.

(** The theorem at the sample server. *)
Lemma listed_video_is_addressed_by_its_id_witness :
  In sampleVideo (listVideosFromServer sampleEnv 3 (js "alice") None) /\
  (isWellFormed (fullPath sampleVideo) = true /\
   id sampleVideo = VideoId.encode (fullPath sampleVideo) /\
   VideoId.decode (id sampleVideo) = fullPath sampleVideo /\
   nome sampleVideo = Path.basename (fullPath sampleVideo)).
Proof.
  assert (H : In sampleVideo (listVideosFromServer sampleEnv 3 (js "alice") None))
    by (vm_compute; left; reflexivity).
  split; [exact H|].
  apply (listed_video_is_addressed_by_its_id sampleEnv 3 (js "alice") None
           sampleVideo); [|exact H].
  intros command stdout Hexec. cbn [executeCommand sampleEnv] in Hexec.
  injection Hexec as <-. reflexivity.
Defined.

(** X24.  The listing normalises white space.  The [fullPath] of an
    element is put together from the ninth and later fields of its line
    with single spaces: it is a sequence of one or more non-empty words
    without white space, separated by exactly one space.  A file whose
    name holds a tab or two spaces in a row is therefore listed under a
    name, and an identifier, that is not its own. *)
Theorem listed_path_has_single_spaces
    (E : env) (server : Z) (login : list Z) (folderName : option (list Z))
    (v : video) :
  In v (listVideosFromServer E server login folderName) ->
  exists words,
    words <> [] /\
    List.Forall
      (fun w => w <> [] /\ forallb (fun c => negb (isWhiteSpace c)) w = true)
      words /\
    fullPath v = Path.join_with 32 words.
Proof.
  intros Hin.
  destruct (listed_from_a_line E server login folderName v Hin)
    as (command & stdout & line & Hexec & Hline & Hv).
  destruct (videoOfLine_fields E server login line v Hv)
    as (Hne & Hlen & Hfull & _).
  exists (skipn 8 (split_ws (trim line))). split; [|split].
  - intros Hnil. apply (f_equal (@length (list Z))) in Hnil.
    rewrite length_skipn in Hnil. cbn in Hnil. lia.
  - apply Forall_drop. now apply fields_of_trimmed.
  - exact Hfull.
Qed.

(** The theorem at the sample server: the file [my  video.mp4] is listed
    as [my video.mp4]. *)
Lemma listed_path_has_single_spaces_witness :
  In sampleVideo (listVideosFromServer sampleEnv 3 (js "alice") None) /\
  exists words,
    words <> [] /\
    List.Forall
      (fun w => w <> [] /\ forallb (fun c => negb (isWhiteSpace c)) w = true)
      words /\
    fullPath sampleVideo = Path.join_with 32 words.
Proof.
  assert (H : In sampleVideo (listVideosFromServer sampleEnv 3 (js "alice") None))
    by (vm_compute; left; reflexivity).
  split; [exact H|].
  exact (listed_path_has_single_spaces sampleEnv 3 (js "alice") None
           sampleVideo H).
Defined.

End ListingProps.
